(** * Documentation example validator and fixer: a shallow embedding

    The repository holds two scripts.  [fix_common_issues.py] rewrites the
    text of a documentation file with three regular-expression substitutions;
    [validate_examples.py] extracts fenced code blocks and URLs from a
    document, runs independent checks on them and accumulates two lists of
    messages (errors and warnings) that decide the exit code.

    Text is modelled as a list of 8-bit characters, read as the code points
    U+0000..U+00FF; the character classes [\s] and [\w] are those of Python's
    [re] module on [str] patterns, restricted to that range.  Python's [re]
    module is embedded as a backtracking matcher over a small regular
    expression syntax; the parsers and the network that the validator calls
    (ast.parse, importlib.util.find_spec, json.loads, requests), the clock
    and the writing of the report are the fields of a record [World].  A
    method of the validator that may raise returns the validator together
    with the way the call ended, a value or an exception.  The lines that
    the scripts print are not part of the model: standard output is taken
    to accept them. *)

From Stdlib Require Import Ascii String DecimalString.
From Stdlib Require Import ZArith NArith Bool Arith Lia List.
Import ListNotations.

Set Implicit Arguments.

(* ================================================================== *)
(** * Text *)

Definition text := list ascii.

Definition txt (s : string) : text := list_ascii_of_string s.

Arguments txt : simpl never.

Definition LF : ascii := "010"%char.
Definition TAB : ascii := "009"%char.
Definition BACKSLASH : ascii := "092"%char.
Definition DQUOTE : ascii := "034"%char.

Module Str.

Definition code (c : ascii) : N := N_of_ascii c.

Definition in_range (lo hi : N) (c : ascii) : bool :=
  (N.leb lo (code c) && N.leb (code c) hi)%bool.

(** str.isspace on U+0000..U+00FF: TAB..CR, FS..US, space, NEL, NBSP. *)
Definition is_space (c : ascii) : bool :=
  in_range 9 13 c || in_range 28 32 c
  || N.eqb (code c) 133 || N.eqb (code c) 160.

(** str.isalnum on U+0000..U+00FF. *)
Definition is_alnum (c : ascii) : bool :=
  in_range 48 57 c || in_range 65 90 c || in_range 97 122 c
  || N.eqb (code c) 170 || in_range 178 179 c || N.eqb (code c) 181
  || in_range 185 186 c || in_range 188 190 c
  || in_range 192 214 c || in_range 216 246 c || in_range 248 255 c.

Fixpoint eqb (a b : text) : bool :=
  match a, b with
  | [], [] => true
  | x :: a', y :: b' => Ascii.eqb x y && eqb a' b'
  | _, _ => false
  end.

(** s.startswith(p) *)
Fixpoint startswith (p s : text) : bool :=
  match p, s with
  | [], _ => true
  | x :: p', y :: s' => Ascii.eqb x y && startswith p' s'
  | _ :: _, [] => false
  end.

(** s.endswith(p) *)
Definition endswith (p s : text) : bool := startswith (rev p) (rev s).

(** p in s *)
Fixpoint contains (p s : text) : bool :=
  startswith p s
  || match s with
     | [] => false
     | _ :: s' => contains p s'
     end.

Fixpoint dropwhile (f : ascii -> bool) (s : text) : text :=
  match s with
  | [] => []
  | x :: s' => if f x then dropwhile f s' else s
  end.

Definition lstrip (s : text) : text := dropwhile is_space s.
Definition rstrip (s : text) : text := rev (dropwhile is_space (rev s)).
Definition strip (s : text) : text := rstrip (lstrip s).

(** s.split(c) for a one-character separator: never the empty list. *)
Fixpoint split_char (c : ascii) (s : text) : list text :=
  match s with
  | [] => [[]]
  | x :: s' =>
      if Ascii.eqb x c then [] :: split_char c s'
      else match split_char c s' with
           | [] => [[x]]
           | l :: ls => (x :: l) :: ls
           end
  end.

(** s.split(p)[0]: the text before the first occurrence of [p]. *)
Fixpoint before_first (p s : text) : text :=
  if startswith p s then []
  else match s with
       | [] => []
       | x :: s' => x :: before_first p s'
       end.

(** sep.join(l) *)
Fixpoint join (sep : text) (l : list text) : text :=
  match l with
  | [] => []
  | [a] => a
  | a :: l' => a ++ sep ++ join sep l'
  end.

(** x in l, for a list of strings *)
Definition mem (x : text) (l : list text) : bool := existsb (eqb x) l.

(** str(n) for an int *)
Definition of_Z (z : Z) : text := txt (NilZero.string_of_int (Z.to_int z)).

(** s.replace(old, new): [skip] counts the characters of a replaced
    occurrence that are still to be dropped. *)
Fixpoint replace_from (old new s : text) (skip : nat) : text :=
  match s with
  | [] => []
  | x :: s' =>
      match skip with
      | S n => replace_from old new s' n
      | O =>
          if startswith old s then new ++ replace_from old new s' (length old - 1)
          else x :: replace_from old new s' 0
      end
  end.

Definition replace (old new s : text) : text :=
  match old with
  | [] => new ++ flat_map (fun x => x :: new) s
  | _ :: _ => replace_from old new s 0
  end.

Definition nonempty (s : text) : bool :=
  match s with
  | [] => false
  | _ :: _ => true
  end.

(** repr of a list of identifier-like strings: ['a', 'b'] *)
Definition repr_list (l : list text) : text :=
  txt "[" ++ join (txt ", ") (map (fun s => txt "'" ++ s ++ txt "'") l) ++ txt "]".

End Str.

(* ================================================================== *)
(** * Regular expressions: Python's [re] on the patterns of the program *)

Module Re.

Inductive regex : Type :=
| Empty : regex
| Lit : ascii -> regex
| Class : (ascii -> bool) -> regex       (* [...], \w, \s, . *)
| Cat : regex -> regex -> regex
| Or : regex -> regex -> regex           (* r1|r2, r1 tried first *)
| Star : bool -> regex -> regex          (* greedy r*, lazy r*? *)
| Group : nat -> regex -> regex          (* numbered capture *)
| EndAnchor : regex.                     (* $ *)

Definition greedy := true.
Definition lazy := false.

Definition Plus (g : bool) (r : regex) : regex := Cat r (Star g r).
Definition Opt (r : regex) : regex := Or r Empty.

(** A literal string. *)
Fixpoint lit (s : text) : regex :=
  match s with
  | [] => Empty
  | c :: s' => Cat (Lit c) (lit s')
  end.

Definition any_of (s : text) (c : ascii) : bool := existsb (Ascii.eqb c) s.
Definition none_of (s : text) (c : ascii) : bool := negb (any_of s c).
Definition any_char (_ : ascii) : bool := true.       (* . under DOTALL *)

(** Captures, most recent first. *)
Definition caps := list (nat * text).

Fixpoint lookup (n : nat) (c : caps) : option text :=
  match c with
  | [] => None
  | (m, t) :: c' => if Nat.eqb m n then Some t else lookup n c'
  end.

Definition outcome := option (text * caps).
Definition cont := text -> caps -> outcome.

(** The loop of a star over a pattern with matcher [step]: an iteration
    has to consume something (an iteration that consumes nothing is cut,
    as in sre), so [fuel] above the length of the input is never used up.
    A greedy star tries one more iteration first, a lazy one tries the
    continuation first. *)
Fixpoint star_loop (step : text -> caps -> cont -> outcome) (g : bool) (k : cont)
         (fuel : nat) (s : text) (c : caps) {struct fuel} : outcome :=
  match fuel with
  | O => k s c
  | S fuel' =>
      let more (_ : unit) :=
        step s c
          (fun s' c' =>
             if Nat.ltb (length s') (length s) then star_loop step g k fuel' s' c'
             else None) in
      if g then
        match more tt with
        | Some x => Some x
        | None => k s c
        end
      else
        match k s c with
        | Some x => Some x
        | None => more tt
        end
  end.

(** [rmatch r s c k]: match [r] at the head of [s], then run [k] on what
    is left; alternatives are tried in the order of the backtracking
    engine and the first success wins. *)
Fixpoint rmatch (r : regex) (s : text) (c : caps) (k : cont) {struct r} : outcome :=
  match r with
  | Empty => k s c
  | Lit a =>
      match s with
      | x :: s' => if Ascii.eqb x a then k s' c else None
      | [] => None
      end
  | Class p =>
      match s with
      | x :: s' => if p x then k s' c else None
      | [] => None
      end
  | Cat r1 r2 => rmatch r1 s c (fun s' c' => rmatch r2 s' c' k)
  | Or r1 r2 =>
      match rmatch r1 s c k with
      | Some x => Some x
      | None => rmatch r2 s c k
      end
  | Star g r1 => star_loop (rmatch r1) g k (S (length s)) s c
  | Group n r1 =>
      rmatch r1 s c
        (fun s' c' => k s' ((n, firstn (length s - length s') s) :: c'))
  | EndAnchor =>
      match s with
      | [] => k s c
      | [x] => if Ascii.eqb x LF then k s c else None
      | _ => None
      end
  end.

(** One attempt at the current position.  [adv] is sre's must_advance:
    after an empty match the next match at the same position has to be
    non-empty. *)
Definition match_here (r : regex) (s : text) (adv : bool) : outcome :=
  rmatch r s []
    (fun rest c =>
       if adv && Nat.eqb (length rest) (length s) then None
       else Some (rest, c)).

(** Match objects. *)
Record mobj : Type := Mobj {
  m_start : nat;
  m_end : nat;
  m_text : text;          (* group 0 *)
  m_caps : caps
}.

(** match.group(n); None when the group did not take part. *)
Definition group (m : mobj) (n : nat) : option text :=
  match n with
  | O => Some (m_text m)
  | _ => lookup n (m_caps m)
  end.

Definition group_or_empty (m : mobj) (n : nat) : text :=
  match group m n with
  | Some t => t
  | None => []
  end.

Inductive segment : Type :=
| Skip : ascii -> segment        (* a character outside every match *)
| Hit : mobj -> segment.

(** The scanning loop shared by sub, findall and finditer. *)
Fixpoint scan (r : regex) (fuel pos : nat) (s : text) (adv : bool) : list segment :=
  match fuel with
  | O => map Skip s
  | S fuel' =>
      match match_here r s adv with
      | Some (rest, c) =>
          let n := length s - length rest in
          Hit (Mobj pos (pos + n) (firstn n s) c)
            :: scan r fuel' (pos + n) rest (Nat.eqb n 0)
      | None =>
          match s with
          | [] => []
          | x :: s' => Skip x :: scan r fuel' (S pos) s' false
          end
      end
  end.

Definition scan_fuel (s : text) : nat := 2 * length s + 2.

Definition scan_all (r : regex) (s : text) : list segment :=
  scan r (scan_fuel s) 0 s false.

Fixpoint hits (l : list segment) : list mobj :=
  match l with
  | [] => []
  | Skip _ :: l' => hits l'
  | Hit m :: l' => m :: hits l'
  end.

(** re.match(r, s): anchored at the start of [s]. *)
Definition re_match (r : regex) (s : text) : option mobj :=
  match match_here r s false with
  | Some (rest, c) =>
      let n := length s - length rest in
      Some (Mobj 0 n (firstn n s) c)
  | None => None
  end.

(** re.finditer(r, s) *)
Definition re_finditer (r : regex) (s : text) : list mobj := hits (scan_all r s).

(** re.findall(r, s) for a pattern without groups *)
Definition re_findall (r : regex) (s : text) : list text :=
  map m_text (re_finditer r s).

(** re.sub(r, f, s) with a function as replacement *)
Definition re_sub_fn (r : regex) (f : mobj -> text) (s : text) : text :=
  flat_map (fun g => match g with
                     | Skip x => [x]
                     | Hit m => f m
                     end) (scan_all r s).

(** Replacement templates: sre_parse.parse_template. *)
Inductive titem : Type :=
| TChar : ascii -> titem
| TGroup : nat -> titem.

Definition is_digit (c : ascii) : bool := Str.in_range 48 57 c.
Definition is_ascii_letter (c : ascii) : bool :=
  Str.in_range 65 90 c || Str.in_range 97 122 c.

Definition escape_char (c : ascii) : option ascii :=
  if Ascii.eqb c "a" then Some "007"%char
  else if Ascii.eqb c "b" then Some "008"%char
  else if Ascii.eqb c "f" then Some "012"%char
  else if Ascii.eqb c "n" then Some LF
  else if Ascii.eqb c "r" then Some "013"%char
  else if Ascii.eqb c "t" then Some TAB
  else if Ascii.eqb c "v" then Some "011"%char
  else if Ascii.eqb c BACKSLASH then Some BACKSLASH
  else None.

(** None stands for re.error (bad escape) and for the forms this model
    leaves out: \g<..>, octal escapes and group numbers above 9. *)
Fixpoint parse_template (t : text) : option (list titem) :=
  match t with
  | [] => Some []
  | x :: t' =>
      if Ascii.eqb x BACKSLASH then
        match t' with
        | [] => None
        | y :: t'' =>
            let rest := parse_template t'' in
            match escape_char y with
            | Some e => option_map (cons (TChar e)) rest
            | None =>
                if is_digit y then
                  if Ascii.eqb y "0" then None
                  else match t'' with
                       | z :: _ => if is_digit z then None
                                   else option_map (cons (TGroup (N.to_nat (Str.code y) - 48))) rest
                       | [] => option_map (cons (TGroup (N.to_nat (Str.code y) - 48))) rest
                       end
                else if is_ascii_letter y then None
                else option_map (fun l => TChar x :: TChar y :: l) rest
            end
        end
      else option_map (cons (TChar x)) (parse_template t')
  end.

(** The templates of the program are constants and well formed (see
    [templates_well_formed]); the fallback is never taken for them. *)
Definition compile_template (t : text) : list titem :=
  match parse_template t with
  | Some l => l
  | None => []
  end.

Definition expand (tpl : list titem) (m : mobj) : text :=
  flat_map (fun i => match i with
                     | TChar c => [c]
                     | TGroup n => group_or_empty m n
                     end) tpl.

(** re.sub(r, template, s) *)
Definition re_sub (r : regex) (template : text) (s : text) : text :=
  re_sub_fn r (expand (compile_template template)) s.

(** What a pattern can consume: [lang r m rest] reads "r matches m when
    m is followed by rest". *)
Inductive lang : regex -> text -> text -> Prop :=
| L_Empty : forall rest, lang Empty [] rest
| L_Lit : forall a rest, lang (Lit a) [a] rest
| L_Class : forall (p : ascii -> bool) a rest, p a = true -> lang (Class p) [a] rest
| L_Cat : forall r1 r2 m1 m2 rest,
    lang r1 m1 (m2 ++ rest) -> lang r2 m2 rest -> lang (Cat r1 r2) (m1 ++ m2) rest
| L_OrL : forall r1 r2 m rest, lang r1 m rest -> lang (Or r1 r2) m rest
| L_OrR : forall r1 r2 m rest, lang r2 m rest -> lang (Or r1 r2) m rest
| L_StarNil : forall g r rest, lang (Star g r) [] rest
| L_StarCons : forall g r m1 m2 rest,
    lang r m1 (m2 ++ rest) -> lang (Star g r) m2 rest ->
    lang (Star g r) (m1 ++ m2) rest
| L_Group : forall n r m rest, lang r m rest -> lang (Group n r) m rest
| L_End : forall rest, rest = [] \/ rest = [LF] -> lang EndAnchor [] rest.

End Re.

(* ================================================================== *)
(** * fix_common_issues.py *)

Module Fixer.
Import Re.

(** r'(curl -X POST[^\\]*?)(-d \'{[^}]*}\')' *)
Definition curl_pattern : regex :=
  Cat (Group 1 (Cat (lit (txt "curl -X POST"))
                    (Star lazy (Class (none_of [BACKSLASH])))))
      (Group 2 (Cat (lit (txt "-d '{"))
               (Cat (Star greedy (Class (none_of (txt "}"))))
                    (lit (txt "}'"))))).

(** '-H "Content-Type: application/json" \\\n  ' *)
Definition content_type_header : text :=
  txt "-H " ++ [DQUOTE] ++ txt "Content-Type: application/json" ++ [DQUOTE]
    ++ txt " " ++ [BACKSLASH; LF] ++ txt "  ".

Definition add_content_type (m : mobj) : text :=
  let curl_cmd := group_or_empty m 1 in
  let data_part := group_or_empty m 2 in
  if Str.contains (txt "Content-Type:") curl_cmd then group_or_empty m 0
  else curl_cmd ++ content_type_header ++ data_part.

Definition fix_curl_headers (content : text) : text :=
  re_sub_fn curl_pattern add_content_type content.

(** The patterns r'\\n' and r'\\t': a backslash, then the letter. *)
Definition backslash_n_pattern : regex := lit [BACKSLASH; "n"%char].
Definition backslash_t_pattern : regex := lit [BACKSLASH; "t"%char].

(** The replacement arguments '\\\\n' and '\\\\t' are the three-character
    strings backslash, backslash, letter. *)
Definition backslash_n_repl : text := [BACKSLASH; BACKSLASH; "n"%char].
Definition backslash_t_repl : text := [BACKSLASH; BACKSLASH; "t"%char].

Definition fix_json_formatting (content : text) : text :=
  let content := re_sub backslash_n_pattern backslash_n_repl content in
  let content := re_sub backslash_t_pattern backslash_t_repl content in
  content.

(** r'("python_code":\s*")(.*?)(")' with DOTALL *)
Definition json_python_pattern : regex :=
  Cat (Group 1 (Cat (lit ([DQUOTE] ++ txt "python_code" ++ [DQUOTE] ++ txt ":"))
               (Cat (Star greedy (Class Str.is_space)) (Lit DQUOTE))))
 (Cat (Group 2 (Star lazy (Class any_char)))
      (Group 3 (Lit DQUOTE))).

Definition fix_embedded_python (m : mobj) : text :=
  let prefix := group_or_empty m 1 in
  let python_code := group_or_empty m 2 in
  let suffix := group_or_empty m 3 in
  let python_code :=
    Str.replace [BACKSLASH; "n"%char] [BACKSLASH; BACKSLASH; "n"%char] python_code in
  let python_code := Str.replace [DQUOTE] [BACKSLASH; DQUOTE] python_code in
  prefix ++ python_code ++ suffix.

Definition fix_python_indentation_in_json (content : text) : text :=
  re_sub_fn json_python_pattern fix_embedded_python content.

(** The three rewrites of process_file, in its order. *)
Definition apply_fixes (original_content : text) : text :=
  let content := original_content in
  let content := fix_curl_headers content in
  let content := fix_json_formatting content in
  let content := fix_python_indentation_in_json content in
  content.

(** process_file on a file that is [Some content] when it can be read:
    what is written back, if anything, and the returned flag. *)
Definition process_file (file : option text) : option text * bool :=
  match file with
  | None => (None, false)
  | Some original_content =>
      let content := apply_fixes original_content in
      if Str.eqb content original_content then (None, false)
      else (Some content, true)
  end.

End Fixer.

(* ================================================================== *)
(** * validate_examples.py *)

(** ** The world outside the script *)

(** A module as ast.walk shows it to the import check: its Import and
    ImportFrom nodes, in walk order. *)
Inductive import_node : Type :=
| Import : list text -> import_node            (* the alias names *)
| ImportFrom : option text -> import_node.     (* node.module *)

(** ast.parse *)
Inductive parse_result : Type :=
| PyModule : list import_node -> parse_result
| PySyntaxError : text -> parse_result
| PyError : text -> parse_result.              (* any other exception *)

(** importlib.util.find_spec on a top-level name: a spec, None when no
    finder knows the name, or an exception (ImportError and ValueError are
    the ones the script catches around the call). *)
Inductive spec_result : Type :=
| SpecFound : spec_result
| SpecNone : spec_result
| SpecImportError : spec_result
| SpecOtherError : text -> spec_result.

(** json.loads: a value, JSONDecodeError with its message, or another
    exception with its message: RecursionError on a text nested too
    deeply, ValueError on an integer literal longer than int accepts. *)
Inductive json_result : Type :=
| JsonValue : json_result
| JsonDecodeError : text -> json_result
| JsonOtherError : text -> json_result.

Inductive http_method : Type := GET | OPTIONS.

(** What the check of the credits endpoint sees of a value other than
    a JSON object: the test 'available_credits' in data is false (a list
    without that string, a string without that text), or TypeError is
    raised with the given text, by the test (a number, true, false,
    null) or by the look-up data['available_credits'] that follows a
    true test (a list that holds the string, a string that holds the
    text). *)
Inductive membership : Type :=
| Absent : membership
| TypeError : text -> membership.

(** The body of a response as response.json() gives it: a JSON object,
    by its keys; another JSON value; or no JSON at all (json() raises
    JSONDecodeError). *)
Inductive response_body : Type :=
| Object : list text -> response_body
| NonObject : membership -> response_body
| NotJson : response_body.

(** A response carries its status code and its body. *)
Inductive http_result : Type :=
| Response : Z -> response_body -> http_result
| RequestException : text -> http_result.

(** The report is a str that holds three glyphs outside the range of
    [text]: U+274C, U+26A0 followed by U+FE0F, and U+2705. *)
Inductive glyph : Type := CrossMark | WarningSign | CheckMark.

Inductive rchar : Type :=
| Ch : ascii -> rchar
| Glyph : glyph -> rchar.

Definition rtext := list rchar.

Record World : Type := {
  ast_parse : text -> parse_result;
  find_spec : text -> spec_result;
  json_loads : text -> json_result;
  (** method, url, bearer token of the Authorization header if any *)
  requests : http_method -> text -> option text -> http_result;
  (** datetime.now().isoformat() at the time the report is made *)
  now : text;
  (** opening validation_report.md in the docs directory for writing and
      writing the report: None when it is written, the text of the
      exception otherwise *)
  write_report : rtext -> option text
}.

(** What reading a documentation file gives. *)
Inductive file_read : Type :=
| Readable : text -> file_read
| Unreadable : text -> file_read.              (* the exception's text *)

(** A documentation file: its path as find_mdx_files returns it, its name
    relative to the docs directory and its content. *)
Record mdx_file : Type := {
  path : text;
  relative : text;
  read : file_read
}.

(** How a call ends: it returns a value or raises an exception, given by
    its text. *)
Inductive completion (A : Type) : Type :=
| Done : A -> completion A
| Raise : text -> completion A.

Arguments Done {A} _.
Arguments Raise {A} _.

Module Validator.
Import Re.

Record code_block : Type := {
  language : text;
  code : text;
  start_pos : nat;
  end_pos : nat
}.

Record curl_command : Type := {
  command : text;
  block : code_block
}.

Record results : Type := {
  file : text;
  python_blocks : nat;
  json_blocks : nat;
  curl_commands : nat;
  api_endpoints : nat;
  res_errors : nat;
  res_warnings : nat
}.

Record validator : Type := {
  auth_token : option text;
  errors : list text;
  warnings : list text;
  validated_examples : list results
}.

Definition add_error (v : validator) (e : text) : validator :=
  {| auth_token := auth_token v;
     errors := errors v ++ [e];
     warnings := warnings v;
     validated_examples := validated_examples v |}.

Definition add_warning (v : validator) (e : text) : validator :=
  {| auth_token := auth_token v;
     errors := errors v;
     warnings := warnings v ++ [e];
     validated_examples := validated_examples v |}.

Definition add_result (v : validator) (r : results) : validator :=
  {| auth_token := auth_token v;
     errors := errors v;
     warnings := warnings v;
     validated_examples := validated_examples v ++ [r] |}.

(** __init__ *)
Definition init (token : option text) : validator :=
  {| auth_token := token; errors := []; warnings := []; validated_examples := [] |}.

(** A method of the validator that may raise: the validator after the
    call (what it appended before an exception stays appended) and how
    the call ended. *)
Definition call (A : Type) : Type := validator * completion A.

(** Sequencing: an exception ends what follows. *)
Definition bind (A B : Type) (m : call A) (f : validator -> A -> call B) : call B :=
  match m with
  | (v, Done a) => f v a
  | (v, Raise e) => (v, Raise e)
  end.

Notation "'let!' ( v , a ) ':=' m 'in' k" := (bind m (fun v a => k))
  (at level 10, v name, a name, m at level 100, k at level 200).

(** A for loop whose body carries the state [s] and may raise. *)
Fixpoint for_each (A S : Type) (body : validator -> S -> A -> call S)
         (l : list A) (v : validator) (s : S) : call S :=
  match l with
  | [] => (v, Done s)
  | a :: l' => let! (v, s) := body v s a in for_each body l' v s
  end.

Definition test_endpoints : list text :=
  [ txt "https://jsonplaceholder.typicode.com/users";
    txt "https://jsonplaceholder.typicode.com/posts";
    txt "https://httpbin.org/get";
    txt "https://httpbin.org/headers" ].

Definition lyceum_test_endpoints : list text :=
  [ txt "https://api.lyceum.technology/api/v2/external/billing/credits";
    txt "https://api.lyceum.technology/api/v2/external/storage/list-files" ].
(** \w *)
Definition is_word (c : ascii) : bool := Str.is_alnum c || Ascii.eqb c "_".

(** r'```(\w+)?\s*([^`]*?)```' *)
Definition block_pattern : regex :=
  Cat (lit (txt "```"))
 (Cat (Opt (Group 1 (Plus greedy (Class is_word))))
 (Cat (Star greedy (Class Str.is_space))
 (Cat (Group 2 (Star lazy (Class (none_of (txt "`")))))
      (lit (txt "```"))))).

Definition block_of_match (m : mobj) : list code_block :=
  let language :=
    match group m 1 with
    | Some l => if Str.nonempty l then l else txt "text"
    | None => txt "text"
    end in
  let code := Str.strip (group_or_empty m 2) in
  if Str.nonempty code then
    [ {| language := language; code := code;
         start_pos := m_start m; end_pos := m_end m |} ]
  else [].

Definition extract_code_blocks (content : text) : list code_block :=
  flat_map block_of_match (re_finditer block_pattern content).

(** One line of the inner loop of extract_curl_commands; the state is
    current_curl and the commands found so far. *)
Definition curl_line (b : code_block) (st : list text * list curl_command)
           (line : text) : list text * list curl_command :=
  let '(current_curl, cmds) := st in
  let line := Str.strip line in
  let finished := {| command := Str.join (txt " ") current_curl; block := b |} in
  if Str.startswith (txt "curl") line then
    (match current_curl with
     | [] => ([line], cmds)
     | _ :: _ => ([line], cmds ++ [finished])
     end)
  else
    match current_curl with
    | [] => st
    | _ :: _ =>
        if Str.startswith (txt "-") line || Str.startswith [DQUOTE] line
           || Str.contains [BACKSLASH] line
        then (current_curl ++ [line], cmds)
        else ([], cmds ++ [finished])
    end.

Definition is_shell (lang : text) : bool :=
  Str.mem lang [txt "bash"; txt "shell"; txt "curl"].

Definition curl_commands_of_block (b : code_block) : list curl_command :=
  if is_shell (language b) then
    let lines := Str.split_char LF (code b) in
    let '(current_curl, cmds) := fold_left (curl_line b) lines ([], []) in
    match current_curl with
    | [] => cmds
    | _ :: _ => cmds ++ [ {| command := Str.join (txt " ") current_curl; block := b |} ]
    end
  else [].

Definition extract_curl_commands (content : text) : list curl_command :=
  flat_map curl_commands_of_block (extract_code_blocks content).

(** len(line) - len(line.lstrip()) *)
Definition indent_of (line : text) : nat := length line - length (Str.lstrip line).

(** min over float('inf'), kept as None *)
Definition min_inf (m : option nat) (n : nat) : option nat :=
  match m with
  | None => Some n
  | Some k => Some (Nat.min k n)
  end.

Definition skipped_line (line : text) : bool :=
  let stripped := Str.strip line in
  (Str.startswith (txt "#") stripped
     && (Str.contains (txt "$") line || Str.contains (txt "curl") line))
  || (Str.startswith (txt "!") stripped || Str.startswith (txt "$") stripped)
  || (Str.startswith (txt "...") stripped && Str.endswith (txt "...") stripped)
  || (Str.contains (txt "curl -X") line || Str.startswith (txt "curl") stripped).

Definition clean_python_code (code : text) : text :=
  let lines := Str.split_char LF code in
  let non_empty_lines := filter (fun line => Str.nonempty (Str.strip line)) lines in
  match non_empty_lines with
  | [] => code
  | _ :: _ =>
      let min_indent :=
        match fold_left (fun m line => min_inf m (indent_of line)) non_empty_lines None with
        | None => 0
        | Some n => n
        end in
      let cleaned_lines :=
        flat_map
          (fun line =>
             if skipped_line line then []
             else if Str.nonempty (Str.strip line) then
               if Nat.leb min_indent (length line) then [skipn min_indent line]
               else [line]
             else [[]])
          lines in
      Str.join [LF] cleaned_lines
  end.

Definition common_packages : list text :=
  map txt
    [ "requests"; "pandas"; "numpy"; "matplotlib"; "seaborn";
      "torch"; "torchvision"; "sklearn"; "json"; "os"; "sys";
      "time"; "datetime"; "pathlib"; "tempfile"; "subprocess";
      "hashlib"; "hmac"; "base64"; "random"; "math"; "collections";
      "functools"; "itertools"; "glob"; "shutil"; "urllib";
      "PIL"; "cv2"; "boto3"; "fastapi"; "uvicorn"; "flask" ]%string.

(** The names the walk collects. *)
Definition imported_names (n : import_node) : list text :=
  match n with
  | Import names => names
  | ImportFrom (Some m) => if Str.nonempty m then [m] else []
  | ImportFrom None => []
  end.

(** imp.split('.')[0] *)
Definition base_package (imp : text) : text := Str.before_first (txt ".") imp.

Section WithWorld.
Variable w : World.

Definition validate_python_syntax (v : validator) (code filename : text)
  : validator * bool :=
  match ast_parse w (clean_python_code code) with
  | PyModule _ => (v, true)
  | PySyntaxError e =>
      (add_error v (filename ++ txt ": Python syntax error in code block: " ++ e), false)
  | PyError e =>
      (add_error v (filename ++ txt ": Error parsing Python code: " ++ e), false)
  end.

(** The loop over the collected imports: the problematic ones, or the
    text of an exception that leaves the loop. *)
Fixpoint problematic_imports (imports : list text) (acc : list text)
  : list text + text :=
  match imports with
  | [] => inl acc
  | imp :: rest =>
      let base := base_package imp in
      if negb (Str.mem base common_packages) && negb (Str.startswith (txt "_") base)
      then
        match find_spec w base with
        | SpecFound => problematic_imports rest acc
        | SpecNone => problematic_imports rest acc
        | SpecImportError => problematic_imports rest (acc ++ [imp])
        | SpecOtherError e => inr e
        end
      else problematic_imports rest acc
  end.

Definition validate_python_imports (v : validator) (code filename : text)
  : validator * bool :=
  let failed e := (add_error v (filename ++ txt ": Error checking imports: " ++ e), false) in
  match ast_parse w (clean_python_code code) with
  | PyModule tree =>
      let imports := flat_map imported_names tree in
      match problematic_imports imports [] with
      | inl [] => (v, true)
      | inl (p :: ps) =>
          (add_warning v (filename ++ txt ": Potentially unavailable imports: "
                            ++ Str.repr_list (p :: ps)), true)
      | inr e => failed e
      end
  | PySyntaxError e => failed e
  | PyError e => failed e
  end.


(** The characters that the two classes of url_pattern exclude. *)
Definition url_stop : text := txt "'<>{}|^`[]" ++ [DQUOTE; BACKSLASH].

Definition url_char (c : ascii) : bool :=
  negb (Str.is_space c || any_of url_stop c).

Definition url_last_char (c : ascii) : bool :=
  negb (Str.is_space c || any_of (url_stop ++ txt ".,;:!?") c).

(** url_pattern: http, an optional s, ://, one or more characters that
    are neither whitespace nor one of ' <>{}|\^`[] or the double quote,
    then one such character that is also none of .,;:!? *)
Definition url_pattern : regex :=
  Cat (lit (txt "http"))
 (Cat (Opt (Lit "s"))
 (Cat (lit (txt "://"))
 (Cat (Plus greedy (Class url_char))
      (Class url_last_char)))).

(** The pattern of the clean-up: one or more of .,;:!?'>])} or the
    double quote, up to the end of the string. *)
Definition trailing_punctuation : regex :=
  Cat (Plus greedy (Class (any_of (txt ".,;:!?'>])}" ++ [DQUOTE])))) EndAnchor.

Fixpoint alt (l : list text) : regex :=
  match l with
  | [] => Empty
  | [a] => lit a
  | a :: l' => Or (lit a) (alt l')
  end.

Definition expected_patterns : list regex :=
  [ Cat (lit (txt "https://api.lyceum.technology/api/v2/external/execution/"))
   (Cat (Group 1 (alt [txt "python"; txt "image"])) (lit (txt "/start")));
    Cat (lit (txt "https://api.lyceum.technology/api/v2/external/storage/"))
        (Group 1 (alt [txt "upload"; txt "download"; txt "list-files";
                       txt "credentials"; txt "delete"]));
    Cat (lit (txt "https://api.lyceum.technology/api/v2/external/billing/"))
        (Group 1 (alt [txt "credits"; txt "checkout"; txt "history";
                       txt "activities"]));
    lit (txt "https://dashboard.lyceum.technology") ].

Definition matches_expected (url : text) : bool :=
  existsb (fun pattern => match re_match pattern url with
                          | Some _ => true
                          | None => false
                          end) expected_patterns.

Definition validate_lyceum_endpoint_structure (v : validator) (url filename : text)
  : validator * bool :=
  if matches_expected url then (v, true)
  else (add_warning v (filename ++ txt ": Unrecognized Lyceum endpoint pattern: " ++ url),
        true).

Definition test_endpoint (v : validator) (url filename : text) : validator * bool :=
  match requests w GET url None with
  | Response status _ =>
      if (400 <=? status)%Z then
        (add_warning v (filename ++ txt ": Endpoint " ++ url
                          ++ txt " returned status " ++ Str.of_Z status), false)
      else (v, true)
  | RequestException e =>
      (add_warning v (filename ++ txt ": Could not reach endpoint " ++ url
                        ++ txt ": " ++ e), false)
  end.

Definition test_lyceum_endpoint (v : validator) (url filename : text) : call bool :=
  let bearer := match auth_token v with
                | Some t => t
                | None => txt "None"
                end in
  let response :=
    if Str.contains (txt "billing/credits") url then requests w GET url (Some bearer)
    else if Str.contains (txt "storage/list-files") url then requests w GET url (Some bearer)
    else requests w OPTIONS url (Some bearer) in
  match response with
  | Response status body =>
      if (status =? 401)%Z then
        (add_error v (filename ++ txt ": Authentication failed for " ++ url
                        ++ txt " - invalid token?"), Done false)
      else if (status =? 403)%Z then
        (add_warning v (filename ++ txt ": Forbidden access to " ++ url
                          ++ txt " - check permissions"), Done true)
      else if (500 <=? status)%Z then
        (add_warning v (filename ++ txt ": Server error " ++ Str.of_Z status
                          ++ txt " for " ++ url), Done false)
      else if (400 <=? status)%Z then
        (add_warning v (filename ++ txt ": Client error " ++ Str.of_Z status
                          ++ txt " for " ++ url), Done false)
      else if Str.contains (txt "billing/credits") url && (status =? 200)%Z then
        let unexpected :=
          add_warning v (filename ++ txt ": Unexpected response format from " ++ url) in
        match body with
        | Object data =>
            if Str.mem (txt "available_credits") data then (v, Done true)
            else (unexpected, Done true)
        | NonObject Absent => (unexpected, Done true)
        | NonObject (TypeError e) => (v, Raise e)
        | NotJson =>
            (add_warning v (filename ++ txt ": Invalid JSON response from " ++ url),
             Done true)
        end
      else (v, Done true)
  | RequestException e =>
      (add_warning v (filename ++ txt ": Could not reach Lyceum endpoint " ++ url
                        ++ txt ": " ++ e), Done false)
  end.

(** The clean-up of a URL in validate_api_endpoints. *)
Definition clean_url (url : text) : text := re_sub trailing_punctuation [] url.

(** if self.auth_token *)
Definition has_token (v : validator) : bool :=
  match auth_token v with
  | Some t => Str.nonempty t
  | None => false
  end.

(** The body of the loop of validate_api_endpoints. *)
Definition endpoint_step (filename : text) (v : validator) (all_valid : bool)
           (url : text) : call bool :=
  let url := clean_url url in
  if Str.contains (txt "api.lyceum.technology") url then
    let '(v, ok) := validate_lyceum_endpoint_structure v url filename in
    let all_valid := all_valid && ok in
    if has_token v && Str.mem url lyceum_test_endpoints then
      let! (v, ok) := test_lyceum_endpoint v url filename in
      (v, Done (all_valid && ok))
    else (v, Done all_valid)
  else if Str.mem url test_endpoints then
    let '(v, ok) := test_endpoint v url filename in
    (v, Done (all_valid && ok))
  else (v, Done all_valid).

Definition validate_api_endpoints (v : validator) (content filename : text) : call bool :=
  let urls := re_findall url_pattern content in
  for_each (endpoint_step filename) urls v true.

(** command[:100] followed by the three dots of the messages *)
Definition excerpt (command : text) : text := firstn 100 command ++ txt "...".

Definition curl_step (filename : text) (v : validator) (cmd_info : curl_command)
  : validator :=
  let command := command cmd_info in
  if negb (Str.startswith (txt "curl") (Str.strip command)) then v
  else
    let lyceum := Str.contains (txt "api.lyceum.technology") command in
    let v :=
      if lyceum
         && negb (Str.contains (txt "Authorization: Bearer") command)
         && negb (Str.contains (txt "Authorization: Bearer <") command)
      then add_warning v (filename ++ txt ": Lyceum API call missing Authorization header: "
                            ++ excerpt command)
      else v in
    let v :=
      if lyceum
         && negb (Str.contains (txt "Content-Type: application/json") command)
         && Str.contains (txt "-d ") command
      then add_warning v (filename ++ txt ": JSON POST request missing Content-Type header: "
                            ++ excerpt command)
      else v in
    if negb (Str.contains (txt "<TOKEN>") command)
       && negb (Str.contains (txt "<token>") command)
       && negb (Str.contains (txt "Bearer <") command)
       && (lyceum && Str.contains (txt "Authorization:") command)
    then add_warning v (filename
                          ++ txt ": API call might contain real token instead of placeholder: "
                          ++ excerpt command)
    else v.

Definition validate_curl_commands (v : validator) (cmds : list curl_command)
           (filename : text) : validator * bool :=
  (fold_left (curl_step filename) cmds v, true).

(** r',(\s*[}\]])' *)
Definition trailing_comma : regex :=
  Cat (Lit ",")
      (Group 1 (Cat (Star greedy (Class Str.is_space)) (Class (any_of (txt "}]"))))).

Definition clean_json_line (line : text) : text :=
  let line := if Str.contains (txt "//") line then Str.before_first (txt "//") line
              else line in
  re_sub trailing_comma [BACKSLASH; "1"%char] line.

Definition clean_json_code (json_code : text) : text :=
  Str.join [LF] (map clean_json_line (Str.split_char LF json_code)).

Definition placeholders : list text :=
  [ txt "<token>"; txt "<TOKEN>"; txt "..."; txt "your-"; txt "YOUR_"; txt "EXAMPLE" ].

Definition is_template_json (json_code : text) : bool :=
  existsb (fun placeholder => Str.contains placeholder json_code) placeholders.

(** The body of the loop of validate_json_examples; only JSONDecodeError
    is caught. *)
Definition json_step (filename : text) (v : validator) (all_valid : bool)
           (b : code_block) : call bool :=
  if Str.eqb (language b) (txt "json") then
    match json_loads w (clean_json_code (code b)) with
    | JsonValue => (v, Done all_valid)
    | JsonDecodeError e =>
        if negb (is_template_json (code b)) then
          (add_error v (filename ++ txt ": Invalid JSON in code block: " ++ e), Done false)
        else
          (add_warning v (filename ++ txt ": Template JSON with placeholders: " ++ e),
           Done all_valid)
    | JsonOtherError e => (v, Raise e)
    end
  else (v, Done all_valid).

Definition validate_json_examples (v : validator) (content filename : text) : call bool :=
  for_each (json_step filename) (extract_code_blocks content) v true.

Definition count_python (r : results) : results :=
  {| file := file r; python_blocks := S (python_blocks r);
     json_blocks := json_blocks r; curl_commands := curl_commands r;
     api_endpoints := api_endpoints r; res_errors := res_errors r;
     res_warnings := res_warnings r |}.

Definition count_json (r : results) : results :=
  {| file := file r; python_blocks := python_blocks r;
     json_blocks := S (json_blocks r); curl_commands := curl_commands r;
     api_endpoints := api_endpoints r; res_errors := res_errors r;
     res_warnings := res_warnings r |}.

Definition set_curl_commands (r : results) (n : nat) : results :=
  {| file := file r; python_blocks := python_blocks r;
     json_blocks := json_blocks r; curl_commands := n;
     api_endpoints := api_endpoints r; res_errors := res_errors r;
     res_warnings := res_warnings r |}.

(** The body of the loop over the blocks in validate_file. *)
Definition block_step (content filename : text) (v : validator) (res : results)
           (b : code_block) : call results :=
  if Str.eqb (language b) (txt "python") then
    let res := count_python res in
    let v := fst (validate_python_syntax v (code b) filename) in
    let v := fst (validate_python_imports v (code b) filename) in
    (v, Done res)
  else if Str.eqb (language b) (txt "json") then
    let res := count_json res in
    let! (v, _ok) := validate_json_examples v content filename in
    (v, Done res)
  else (v, Done res).

(** validate_file, from the content of the file on. *)
Definition validate_file (v : validator) (filename content : text) : call results :=
  let res := {| file := filename; python_blocks := 0; json_blocks := 0;
                curl_commands := 0; api_endpoints := 0;
                res_errors := 0; res_warnings := 0 |} in
  let code_blocks := extract_code_blocks content in
  let! (v, res) := for_each (block_step content filename) code_blocks v res in
  let cmds := extract_curl_commands content in
  let res := set_curl_commands res (length cmds) in
  let v := fst (validate_curl_commands v cmds filename) in
  let! (v, _ok) := validate_api_endpoints v content filename in
  (v, Done res).

(** str(n) for a count *)
Definition of_nat (n : nat) : text := Str.of_Z (Z.of_nat n).

Definition chars (s : text) : rtext := map Ch s.

(** sep.join(lines) on the lines of the report *)
Fixpoint rjoin (sep : rtext) (l : list rtext) : rtext :=
  match l with
  | [] => []
  | [a] => a
  | a :: l' => a ++ sep ++ rjoin sep l'
  end.

(** The lines of generate_report for one result. *)
Definition report_of_result (result : results) : list rtext :=
  [ chars (txt "### " ++ file result);
    chars (txt "- Python blocks: " ++ of_nat (python_blocks result));
    chars (txt "- JSON blocks: " ++ of_nat (json_blocks result));
    chars (txt "- Curl commands: " ++ of_nat (curl_commands result));
    [] ].

Definition generate_report (v : validator) : rtext :=
  let report :=
    [ chars (txt "# Documentation Validation Report");
      chars (txt "Generated: " ++ now w);
      [];
      chars (txt "## Summary");
      chars (txt "- Files validated: " ++ of_nat (length (validated_examples v)));
      chars (txt "- Total errors: " ++ of_nat (length (errors v)));
      chars (txt "- Total warnings: " ++ of_nat (length (warnings v)));
      [] ] in
  let report :=
    match validated_examples v with
    | [] => report
    | _ :: _ =>
        report ++ [chars (txt "## File Validation Results")]
          ++ flat_map report_of_result (validated_examples v)
    end in
  let report :=
    match errors v with
    | [] => report
    | _ :: _ =>
        report ++ [chars (txt "## Errors")]
          ++ map (fun error => chars (txt "- ") ++ [Glyph CrossMark]
                                 ++ chars (txt " " ++ error)) (errors v)
          ++ [[]]
    end in
  let report :=
    match warnings v with
    | [] => report
    | _ :: _ =>
        report ++ [chars (txt "## Warnings")]
          ++ map (fun warning => chars (txt "- ") ++ [Glyph WarningSign]
                                   ++ chars (txt " " ++ warning)) (warnings v)
          ++ [[]]
    end in
  let report :=
    match errors v, warnings v with
    | [], [] =>
        report ++ [chars (txt "## ") ++ [Glyph CheckMark]
                     ++ chars (txt " All validations passed!")]
    | _, _ => report
    end in
  rjoin [Ch LF] report.

(** The body of the loop of run_validation: any exception of
    validate_file, from reading the file on, is recorded and the loop
    goes on. *)
Definition file_step (v : validator) (file_path : mdx_file) : validator :=
  let failed v e :=
    add_error v (txt "Failed to validate " ++ path file_path ++ txt ": " ++ e) in
  match read file_path with
  | Readable content =>
      match validate_file v (relative file_path) content with
      | (v, Done result) => add_result v result
      | (v, Raise e) => failed v e
      end
  | Unreadable e => failed v e
  end.

(** run_validation over the files that find_mdx_files returns, in its
    (sorted) order.  The report is made and written outside any try: an
    exception there leaves run_validation.  The lines printed on the
    console are left out; standard output is taken to accept them. *)
Definition run_validation (v : validator) (mdx_files : list mdx_file) : call bool :=
  let v := fold_left file_step mdx_files v in
  let report := generate_report v in
  match write_report w report with
  | None => (v, Done (Nat.eqb (length (errors v)) 0))
  | Some e => (v, Raise e)
  end.

Inductive console_verdict : Type :=
| FailedWithErrors
| CompletedWithWarnings
| AllPassed
| Traceback.

(** The end of main: the exit code of the process and the last thing on
    the console, from the validator and the way run_validation ended.  An
    exception that leaves main ends the process with a traceback and
    exit code 1. *)
Definition conclude (v : validator) (outcome : completion bool) : Z * console_verdict :=
  match outcome with
  | Raise _ => (1%Z, Traceback)
  | Done success =>
      if negb success then (1%Z, FailedWithErrors)
      else match warnings v with
           | _ :: _ => (0%Z, CompletedWithWarnings)
           | [] => (0%Z, AllPassed)
           end
  end.

Definition main (token : option text) (mdx_files : list mdx_file)
  : Z * console_verdict :=
  let '(v, outcome) := run_validation (init token) mdx_files in
  conclude v outcome.

End WithWorld.

End Validator.
(* ================================================================== *)
(** * A sample world

    A concrete [World] on which the statements below are run: a parser for
    modules made of import statements, a module finder that knows a few
    names of the standard library, a decoder for JSON texts and a server
    that rejects the token. *)

Module Sample.

Definition import_of_line (line : text) : option (list import_node) :=
  let l := Str.strip line in
  if negb (Str.nonempty l) then Some []
  else if Str.startswith (txt "import ") l then
    Some [Import (map Str.strip (Str.split_char "," (skipn 7 l)))]
  else if Str.startswith (txt "from ") l then
    Some [ImportFrom (Some (Str.before_first (txt " ") (skipn 5 l)))]
  else None.

Fixpoint imports_of_lines (lines : list text) : option (list import_node) :=
  match lines with
  | [] => Some []
  | l :: rest =>
      match import_of_line l, imports_of_lines rest with
      | Some a, Some b => Some (a ++ b)
      | _, _ => None
      end
  end.

Definition parse_imports (source : text) : parse_result :=
  match imports_of_lines (Str.split_char LF source) with
  | Some nodes => PyModule nodes
  | None => PySyntaxError (txt "invalid syntax")
  end.

Definition find_known (name : text) : spec_result :=
  if Str.mem name [txt "re"; txt "ast"; txt "argparse"; txt "importlib"]
  then SpecFound else SpecNone.

Definition is_json_ws (c : ascii) : bool := Re.any_of [" "%char; TAB; LF; "013"%char] c.
Definition json_digit (c : ascii) : bool := Str.in_range 48 57 c.

(** What the decoder makes of the beginning of a text: the rest after a
    value, no value, or an integer literal of the given number of digits,
    which is more than int accepts. *)
Inductive parsed : Type :=
| Rest : text -> parsed
| Invalid : parsed
| TooLong : nat -> parsed.

(** The rest of a string literal after its opening quote. *)
Fixpoint json_string_tail (s : text) : parsed :=
  match s with
  | [] => Invalid
  | x :: s' =>
      if Ascii.eqb x DQUOTE then Rest s'
      else if Ascii.eqb x BACKSLASH then
        match s' with
        | [] => Invalid
        | _ :: s'' => json_string_tail s''
        end
      else if N.ltb (Str.code x) 32 then Invalid
      else json_string_tail s'
  end.

Definition json_digits (s : text) : option text :=
  match s with
  | x :: _ => if json_digit x then Some (Str.dropwhile json_digit s) else None
  | [] => None
  end.

(** sys.int_info.default_max_str_digits *)
Definition max_str_digits : nat := 4300.

(** A number: an integer part, then maybe a fraction.  An integer without
    fraction goes through int, which refuses more than 4300 digits; a
    number with a fraction goes through float, which has no such limit. *)
Definition json_number (s : text) : parsed :=
  let s := match s with
           | x :: s' => if Ascii.eqb x "-" then s' else s
           | [] => s
           end in
  match json_digits s with
  | None => Invalid
  | Some r =>
      let digits := length s - length r in
      let integer := if Nat.ltb max_str_digits digits then TooLong digits else Rest r in
      match r with
      | x :: r' => if Ascii.eqb x "." then
                     match json_digits r' with
                     | Some r'' => Rest r''
                     | None => integer
                     end
                   else integer
      | [] => integer
      end
  end.

Inductive json_goal : Type := JValue | JElements | JMembers.

(** What is left of [s] after one value, after the elements of an array
    up to its bracket, or after the members of an object up to its brace. *)
Fixpoint json_parse (fuel : nat) (g : json_goal) (s : text) : parsed :=
  match fuel with
  | O => Invalid
  | S fuel' =>
      let s := Str.dropwhile is_json_ws s in
      match g with
      | JValue =>
          match s with
          | [] => Invalid
          | x :: s' =>
              if Ascii.eqb x "{" then
                match Str.dropwhile is_json_ws s' with
                | y :: s'' => if Ascii.eqb y "}" then Rest s''
                              else json_parse fuel' JMembers s'
                | [] => Invalid
                end
              else if Ascii.eqb x "[" then
                match Str.dropwhile is_json_ws s' with
                | y :: s'' => if Ascii.eqb y "]" then Rest s''
                              else json_parse fuel' JElements s'
                | [] => Invalid
                end
              else if Ascii.eqb x DQUOTE then json_string_tail s'
              else if Str.startswith (txt "true") s then Rest (skipn 4 s)
              else if Str.startswith (txt "false") s then Rest (skipn 5 s)
              else if Str.startswith (txt "null") s then Rest (skipn 4 s)
              else json_number s
          end
      | JElements =>
          match json_parse fuel' JValue s with
          | Rest r =>
              match Str.dropwhile is_json_ws r with
              | y :: r' =>
                  if Ascii.eqb y "," then json_parse fuel' JElements r'
                  else if Ascii.eqb y "]" then Rest r'
                  else Invalid
              | [] => Invalid
              end
          | failure => failure
          end
      | JMembers =>
          match s with
          | x :: s' =>
              if Ascii.eqb x DQUOTE then
                match json_string_tail s' with
                | Rest r =>
                    match Str.dropwhile is_json_ws r with
                    | y :: r' =>
                        if Ascii.eqb y ":" then
                          match json_parse fuel' JValue r' with
                          | Rest r2 =>
                              match Str.dropwhile is_json_ws r2 with
                              | z :: r3 =>
                                  if Ascii.eqb z "," then json_parse fuel' JMembers r3
                                  else if Ascii.eqb z "}" then Rest r3
                                  else Invalid
                              | [] => Invalid
                              end
                          | failure => failure
                          end
                        else Invalid
                    | [] => Invalid
                    end
                | failure => failure
                end
              else Invalid
          | [] => Invalid
          end
      end
  end.

Definition decode_json (s : text) : json_result :=
  match json_parse (S (length s)) JValue s with
  | Rest r =>
      match Str.dropwhile is_json_ws r with
      | [] => JsonValue
      | _ :: _ => JsonDecodeError (txt "Extra data")
      end
  | Invalid => JsonDecodeError (txt "Expecting value")
  | TooLong n =>
      JsonOtherError
        (txt "Exceeds the limit (4300 digits) for integer string conversion: value has "
           ++ Str.of_Z (Z.of_nat n)
           ++ txt " digits; use sys.set_int_max_str_digits() to increase the limit")
  end.

(** The credits endpoint answers 401 and the file listing 403 to any
    token; every other request is answered 200 without a JSON body. *)
Definition answer (m : http_method) (url : text) (bearer : option text) : http_result :=
  if Str.contains (txt "billing/credits") url then Response 401 NotJson
  else if Str.contains (txt "storage/list-files") url then Response 403 NotJson
  else Response 200 NotJson.

Definition clock : text := txt "2024-05-01T12:00:00.000000".

Definition world : World :=
  {| ast_parse := parse_imports; find_spec := find_known;
     json_loads := decode_json; requests := answer;
     now := clock; write_report := fun _ => None |}.

(** The same world with a docs directory that cannot be written. *)
Definition read_only : World :=
  {| ast_parse := parse_imports; find_spec := find_known;
     json_loads := decode_json; requests := answer;
     now := clock;
     write_report :=
       fun _ => Some (txt "[Errno 13] Permission denied: 'docs/validation_report.md'") |}.

(** A server that answers every request with status 200 and the JSON
    body 5. *)
Definition five (m : http_method) (url : text) (bearer : option text) : http_result :=
  Response 200 (NonObject (TypeError (txt "argument of type 'int' is not iterable"))).

Definition world_of_fives : World :=
  {| ast_parse := parse_imports; find_spec := find_known;
     json_loads := decode_json; requests := five;
     now := clock; write_report := fun _ => None |}.

End Sample.
(* ================================================================== *)
(** * Vocabulary of the statements *)

Module Spec.
Import Re Validator.

(** The text of a segment of a scan. *)
Definition segment_text (g : segment) : text :=
  match g with
  | Skip x => [x]
  | Hit m => m_text m
  end.

(** A fenced code block: a region between two runs of three back-ticks. *)
Definition has_fenced_block (content : text) : Prop :=
  exists pre body post, content = pre ++ txt "```" ++ body ++ txt "```" ++ post.

(** An absolute URL of the kind the validator looks for starts with its
    scheme, http or https, and the separator. *)
Definition has_url (content : text) : Prop :=
  exists pre post,
    content = pre ++ txt "http://" ++ post \/ content = pre ++ txt "https://" ++ post.

Definition count_if (f : text -> bool) (l : list text) : nat := length (filter f l).

(** The exception that ends a call, if any. *)
Definition raised (A : Type) (c : completion A) : option text :=
  match c with
  | Raise e => Some e
  | Done _ => None
  end.

(** [v'] is [v] with the errors [es] and the warnings [ws] appended, in
    this order, and nothing else changed. *)
Definition logs (v v' : validator) (es ws : list text) : Prop :=
  errors v' = errors v ++ es
  /\ warnings v' = warnings v ++ ws
  /\ auth_token v' = auth_token v
  /\ validated_examples v' = validated_examples v.

(** The items that a loop reaches when it is left at the first item on
    which [stop] gives an exception: the items before that one, and that
    one. *)
Fixpoint upto (A : Type) (stop : A -> option text) (l : list A) : list A :=
  match l with
  | [] => []
  | a :: l' =>
      match stop a with
      | Some _ => [a]
      | None => a :: upto stop l'
      end
  end.

Fixpoint first_stop (A : Type) (stop : A -> option text) (l : list A) : option text :=
  match l with
  | [] => None
  | a :: l' =>
      match stop a with
      | Some e => Some e
      | None => first_stop stop l'
      end
  end.


Definition is_auth_failure (filename e : text) : bool :=
  Str.startswith (filename ++ txt ": Authentication failed for ") e.

Definition is_json_block (b : code_block) : bool := Str.eqb (language b) (txt "json").

Definition fails_to_parse (w : World) (b : code_block) : bool :=
  match json_loads w (clean_json_code (code b)) with
  | JsonDecodeError _ => true
  | JsonValue | JsonOtherError _ => false
  end.

(** A JSON block that does not parse and holds no placeholder. *)
Definition is_invalid_json_block (w : World) (b : code_block) : bool :=
  is_json_block b && fails_to_parse w b && negb (is_template_json (code b)).

(** What one pass over the blocks is to record for one block: for a
    JSON block on which json.loads raises JSONDecodeError, an error when
    the block holds no placeholder and a warning when it holds one;
    nothing for any other block. *)
Definition json_error_entries (w : World) (filename : text) (b : code_block) : list text :=
  if is_json_block b then
    match json_loads w (clean_json_code (code b)) with
    | JsonDecodeError e =>
        if is_template_json (code b) then []
        else [filename ++ txt ": Invalid JSON in code block: " ++ e]
    | JsonValue | JsonOtherError _ => []
    end
  else [].

Definition json_warning_entries (w : World) (filename : text) (b : code_block)
  : list text :=
  if is_json_block b then
    match json_loads w (clean_json_code (code b)) with
    | JsonDecodeError e =>
        if is_template_json (code b)
        then [filename ++ txt ": Template JSON with placeholders: " ++ e]
        else []
    | JsonValue | JsonOtherError _ => []
    end
  else [].

(** The exception other than JSONDecodeError that json.loads raises on a
    JSON block, if any. *)
Definition json_stop (w : World) (b : code_block) : option text :=
  if is_json_block b then
    match json_loads w (clean_json_code (code b)) with
    | JsonOtherError e => Some e
    | JsonValue | JsonDecodeError _ => None
    end
  else None.


(** An entry made of the name of the file, a fixed text and a detail. *)
Definition tagged (filename tag e : text) : Prop :=
  exists detail, e = filename ++ tag ++ detail.



Definition auth_entry (filename e : text) : Prop :=
  tagged filename (txt ": Authentication failed for ") e.

(** The same validator with another list of warnings. *)
Definition with_warnings (v : validator) (ws : list text) : validator :=
  {| auth_token := auth_token v; errors := errors v; warnings := ws;
     validated_examples := validated_examples v |}.

(** The counters of a file in which nothing was found. *)
Definition empty_results (filename : text) : results :=
  {| file := filename; python_blocks := 0; json_blocks := 0; curl_commands := 0;
     api_endpoints := 0; res_errors := 0; res_warnings := 0 |}.

(** The URLs of a document after the clean-up of the endpoint check. *)
Definition mentioned_urls (content : text) : list text :=
  map clean_url (re_findall url_pattern content).

(** A data argument of a curl command: -d '{...}' whose body has no
    closing brace. *)
Definition data_argument (d : text) : Prop :=
  exists body, d = txt "-d '{" ++ body ++ txt "}'" /\ ~ In "}"%char body.

Definition single_line (d : text) : Prop := ~ In LF d.

(** Every span from an occurrence of curl -X POST to a later data argument
    of the kind [P] holds a backslash.  A span that reaches a later data
    argument contains the span that reaches the next one, so this is the
    same as asking it of the next one only. *)
Definition spans_hold_backslash (P : text -> Prop) (content : text) : Prop :=
  forall pre mid d post,
    content = pre ++ txt "curl -X POST" ++ mid ++ d ++ post ->
    data_argument d -> P d -> In BACKSLASH mid.

(** A curl command that posts JSON without a Content-Type header, and what
    the fixer makes of it. *)
Definition curl_example : text :=
  txt "curl -X POST https://api.lyceum.technology/x -d '{" ++ [DQUOTE] ++ txt "a"
    ++ [DQUOTE] ++ txt ":1}'".

Definition curl_example_fixed : text :=
  txt "curl -X POST https://api.lyceum.technology/x "
    ++ (txt "-H " ++ [DQUOTE] ++ txt "Content-Type: application/json" ++ [DQUOTE])
    ++ (txt " " ++ [BACKSLASH; LF] ++ txt "  ")
    ++ (txt "-d '{" ++ [DQUOTE] ++ txt "a" ++ [DQUOTE] ++ txt ":1}'").

(** A JSON block with a trailing comma, alone in a document. *)
Definition trailing_comma_block : text :=
  txt "{" ++ [DQUOTE] ++ txt "a" ++ [DQUOTE] ++ txt ": 1,}".

Definition fenced (tag body : text) : text :=
  txt "```" ++ tag ++ [LF] ++ body ++ [LF] ++ txt "```" ++ [LF].

Definition upload_url : text :=
  txt "https://api.lyceum.technology/api/v2/external/storage/upload".

Definition unknown_url : text :=
  txt "https://api.lyceum.technology/api/v2/external/unknown/thing".

Definition credits_url : text :=
  txt "https://api.lyceum.technology/api/v2/external/billing/credits".

Definition list_files_url : text :=
  txt "https://api.lyceum.technology/api/v2/external/storage/list-files".

(** A document as a sequence of prose and fences.  A fence is written
    with its tag right after the opening back-ticks and its body up to the
    closing ones. *)
Inductive part : Type :=
| Prose : text -> part
| Fence : text -> text -> part.

Definition render_part (p : part) : text :=
  match p with
  | Prose t => t
  | Fence tag body => txt "```" ++ tag ++ body ++ txt "```"
  end.

Definition render (parts : list part) : text := flat_map render_part parts.

Definition is_backtick (c : ascii) : bool := Ascii.eqb c "`"%char.

(** Prose holds no back-tick; the tag of a fence is made of word
    characters, its body holds no back-tick and does not go on with a
    word character (it starts with the end of the line of the tag). *)
Definition well_formed (p : part) : bool :=
  match p with
  | Prose t => negb (existsb is_backtick t)
  | Fence tag body =>
      forallb is_word tag && negb (existsb is_backtick body)
      && match body with
         | [] => true
         | x :: _ => negb (is_word x)
         end
  end.

(** The blocks of a document of well-formed parts that starts at
    position [pos], read off its parts: one for each fence whose body is
    not blank. *)
Fixpoint blocks_at (pos : nat) (parts : list part) : list code_block :=
  match parts with
  | [] => []
  | Prose t :: parts' => blocks_at (pos + length t) parts'
  | Fence tag body :: parts' =>
      let stop := pos + (6 + length tag + length body) in
      (if Str.nonempty (Str.strip body)
       then [ {| language := match tag with
                             | [] => txt "text"
                             | _ :: _ => tag
                             end;
                 code := Str.strip body;
                 start_pos := pos; end_pos := stop |} ]
       else [])
      ++ blocks_at stop parts'
  end.

Definition blocks_of (parts : list part) : list code_block := blocks_at 0 parts.

(** The entries of the endpoint check. *)
Definition unrecognized_warning (filename url : text) : text :=
  filename ++ txt ": Unrecognized Lyceum endpoint pattern: " ++ url.

Definition authentication_error (filename url : text) : text :=
  filename ++ txt ": Authentication failed for " ++ url ++ txt " - invalid token?".

Definition forbidden_warning (filename url : text) : text :=
  filename ++ txt ": Forbidden access to " ++ url ++ txt " - check permissions".

(** The endpoints that are probed when a token is set. *)
Definition tested (url : text) : bool := Str.mem url lyceum_test_endpoints.

(** The TypeError that the probe of a URL raises, if any: with a token,
    on the credits endpoint, when the answer has status 200 and a JSON
    body other than an object on which the look-up of available_credits
    raises. *)
Definition probe_raises (w : World) (token : option text) (url : text) : option text :=
  match token with
  | Some t =>
      if Str.nonempty t && Str.eqb url credits_url then
        match requests w GET url (Some t) with
        | Response status (NonObject (TypeError e)) =>
            if (status =? 200)%Z then Some e else None
        | _ => None
        end
      else None
  | None => None
  end.

(** No probe of a URL of the document raises. *)
Definition probes_return (w : World) (token : option text) (content : text) : Prop :=
  Forall (fun url => probe_raises w token url = None) (mentioned_urls content).

(** The error that the endpoint check is to record for a URL: with a
    token, for a tested endpoint whose probe is answered 401. *)
Definition auth_errors (w : World) (token : option text) (filename url : text)
  : list text :=
  match token with
  | Some t =>
      if Str.nonempty t && tested url then
        match requests w GET url (Some t) with
        | Response status _ =>
            if (status =? 401)%Z then [authentication_error filename url] else []
        | RequestException _ => []
        end
      else []
  | None => []
  end.

End Spec.

(* ================================================================== *)
(** * Vocabulary of the further properties *)

Module Props.
Import Re Validator.

(** A pattern without capture groups. *)
Fixpoint plain (r : regex) : bool :=
  match r with
  | Group _ _ => false
  | Cat r1 r2 => plain r1 && plain r2
  | Or r1 r2 => plain r1 && plain r2
  | Star _ r1 => plain r1
  | _ => true
  end.

(** [inserted h P original result]: [result] is [original] with copies of
    [h] put in, each in front of a text that satisfies [P], and nothing
    else changed. *)
Inductive inserted (h : text) (P : text -> Prop) : text -> text -> Prop :=
| Ins_nil : inserted h P [] []
| Ins_keep : forall x o r, inserted h P o r -> inserted h P (x :: o) (x :: r)
| Ins_here : forall o r, P r -> inserted h P o r -> inserted h P o (h ++ r).

(** Blocks that follow each other in the document without overlapping;
    a block takes at least the six back-ticks of its fences. *)
Fixpoint blocks_in_order (lo : nat) (bs : list code_block) : Prop :=
  match bs with
  | [] => True
  | b :: bs' =>
      lo <= start_pos b /\ start_pos b + 6 <= end_pos b
      /\ blocks_in_order (end_pos b) bs'
  end.

(** Hits of a scan that follow each other from position [lo] on. *)
Fixpoint hits_in_order (lo : nat) (l : list mobj) : Prop :=
  match l with
  | [] => True
  | h :: l' =>
      lo <= m_start h /\ m_end h = m_start h + length (m_text h)
      /\ hits_in_order (m_end h) l'
  end.

Definition is_python_block (b : code_block) : bool :=
  Str.eqb (language b) (txt "python").

Definition mentions_api (c : curl_command) : bool :=
  Str.contains (txt "api.lyceum.technology") (command c).

(** A line that is not blank. *)
Definition nonblank (line : text) : bool := Str.nonempty (Str.strip line).

(** fix_embedded_python without its second replace. *)
Definition escape_newlines_only (m : mobj) : text :=
  group_or_empty m 1
    ++ Str.replace [BACKSLASH; "n"%char] [BACKSLASH; BACKSLASH; "n"%char]
         (group_or_empty m 2)
    ++ group_or_empty m 3.

(** The characters that the clean-up of a URL removes at its end. *)
Definition punctuation (c : ascii) : bool :=
  any_of (txt ".,;:!?'>])}" ++ [DQUOTE]) c.

(** The errors that the Python checks record for a block that does not
    parse. *)
Definition python_failure_entries (filename : text) (r : parse_result) : list text :=
  match r with
  | PyModule _ => []
  | PySyntaxError e =>
      [ filename ++ txt ": Python syntax error in code block: " ++ e;
        filename ++ txt ": Error checking imports: " ++ e ]
  | PyError e =>
      [ filename ++ txt ": Error parsing Python code: " ++ e;
        filename ++ txt ": Error checking imports: " ++ e ]
  end.

(** A line that extract_curl_commands appends to the command it is
    collecting: after strip it does not start with curl, and starts with a
    dash or a double quote or holds a backslash. *)
Definition continuation (line : text) : bool :=
  let line := Str.strip line in
  negb (Str.startswith (txt "curl") line)
  && (Str.startswith (txt "-") line || Str.startswith [DQUOTE] line
      || Str.contains [BACKSLASH] line).

(** What the loop over the lines of a block keeps true: the command being
    collected begins with a line that starts with curl, and so does every
    command already found. *)
Definition curl_state_ok (b : code_block) (st : list text * list curl_command) : Prop :=
  (fst st = [] \/ exists l0 ls, fst st = l0 :: ls /\ Str.startswith (txt "curl") l0 = true)
  /\ Forall (fun c => Str.startswith (txt "curl") (command c) = true /\ block c = b)
            (snd st).

(** What clean_python_code makes of a line once the common indentation
    [m] is known: nothing of a line it skips, the line without its first
    [m] characters, or an empty line for a blank one. *)
Definition dedent (m : nat) (line : text) : list text :=
  if skipped_line line then []
  else if nonblank line then [skipn m line]
  else [[]].

(** The imports that the import check accepts without looking them up. *)
Definition allow_listed (imp : text) : bool :=
  Str.mem (base_package imp) common_packages
  || Str.startswith (txt "_") (base_package imp).

(** A world like [w] in which looking up any module raises ImportError. *)
Definition without_modules (w : World) : World :=
  {| ast_parse := ast_parse w; find_spec := fun _ => SpecImportError;
     json_loads := json_loads w; requests := requests w;
     now := now w; write_report := write_report w |}.

(** No request is answered with status 401. *)
Definition never_401 (w : World) : Prop :=
  forall m u t s b, requests w m u t = Response s b -> s <> 401%Z.

(** The errors that the two Python checks record for the code of a
    block. *)
Definition python_error_entries (w : World) (filename code : text) : list text :=
  match ast_parse w (clean_python_code code) with
  | PyModule tree =>
      match problematic_imports w (flat_map imported_names tree) [] with
      | inr e => [filename ++ txt ": Error checking imports: " ++ e]
      | inl _ => []
      end
  | r => python_failure_entries filename r
  end.

(** The errors that the loop of validate_file records at one block: for
    a Python block those of the two Python checks, for a JSON block those
    of one more pass over the blocks of the document, as far as the pass
    gets. *)
Definition block_errors (w : World) (filename content : text) (b : code_block)
  : list text :=
  if is_python_block b then python_error_entries w filename (code b)
  else if Spec.is_json_block b then
    flat_map (Spec.json_error_entries w filename)
      (Spec.upto (Spec.json_stop w) (extract_code_blocks content))
  else [].

(** The exception that leaves the loop of validate_file at a block: at a
    JSON block, the one that ends the pass over the blocks of the
    document. *)
Definition block_stop (w : World) (content : text) (b : code_block) : option text :=
  if is_python_block b then None
  else if Spec.is_json_block b then
    Spec.first_stop (Spec.json_stop w) (extract_code_blocks content)
  else None.

(** The exception that leaves validate_file, if any: the first one of a
    JSON block, or else the first one of a probe. *)
Definition file_stop (w : World) (token : option text) (content : text) : option text :=
  match Spec.first_stop (Spec.json_stop w) (extract_code_blocks content) with
  | Some e => Some e
  | None => Spec.first_stop (Spec.probe_raises w token) (Spec.mentioned_urls content)
  end.

(** The errors that validate_file records: those of the blocks it
    reaches and, when no block leaves it, those of the probes it
    reaches. *)
Definition file_errors (w : World) (token : option text) (filename content : text)
  : list text :=
  flat_map (block_errors w filename content)
    (Spec.upto (block_stop w content) (extract_code_blocks content))
  ++ match Spec.first_stop (Spec.json_stop w) (extract_code_blocks content) with
     | Some _ => []
     | None =>
         flat_map (Spec.auth_errors w token filename)
           (Spec.upto (Spec.probe_raises w token) (Spec.mentioned_urls content))
     end.

(** The warning of the structure check for a URL of the API domain that
    has none of the expected shapes. *)
Definition structure_warnings (filename url : text) : list text :=
  if Str.contains (txt "api.lyceum.technology") url && negb (matches_expected url)
  then [Spec.unrecognized_warning filename url]
  else [].

(** The warnings of the endpoint check for one URL: the one of the
    structure check, followed by warnings of the probe, none of which is
    about an unrecognized pattern, and among which is the one about
    forbidden access when the probe of a tested endpoint is answered
    403. *)
Definition url_warnings (w : World) (token : option text) (filename url : text)
           (ws : list text) : Prop :=
  exists pw,
    ws = structure_warnings filename url ++ pw
    /\ Forall (fun e => forall u, e <> Spec.unrecognized_warning filename u) pw
    /\ forall t body,
         token = Some t -> Str.nonempty t = true ->
         Spec.tested url = true ->
         requests w GET url (Some t) = Response 403 body ->
         In (Spec.forbidden_warning filename url) pw.

(** The counters of a file, from its content alone. *)
Definition summary (filename content : text) : results :=
  {| file := filename;
     python_blocks := length (filter is_python_block (extract_code_blocks content));
     json_blocks := length (filter Spec.is_json_block (extract_code_blocks content));
     curl_commands := length (extract_curl_commands content);
     api_endpoints := 0; res_errors := 0; res_warnings := 0 |}.

(** The entry of run_validation for a file that could not be validated. *)
Definition failure_entry (f : mdx_file) (e : text) : text :=
  txt "Failed to validate " ++ path f ++ txt ": " ++ e.

(** The exception that run_validation catches at a file, if any: the one
    of reading it, or the one that leaves validate_file. *)
Definition file_failure (w : World) (token : option text) (f : mdx_file) : option text :=
  match read f with
  | Readable content => file_stop w token content
  | Unreadable e => Some e
  end.

(** The errors that a run records for one file. *)
Definition run_errors (w : World) (token : option text) (f : mdx_file) : list text :=
  match read f with
  | Readable content => file_errors w token (relative f) content
  | Unreadable _ => []
  end
  ++ match file_failure w token f with
     | Some e => [failure_entry f e]
     | None => []
     end.

(** The results that a run appends: one for each file that is read and
    validated without an exception. *)
Definition summaries (w : World) (token : option text) (files : list mdx_file)
  : list results :=
  flat_map (fun f => match read f, file_failure w token f with
                     | Readable content, None => [summary (relative f) content]
                     | _, _ => []
                     end) files.

(** Positions moved by [d] characters. *)
Definition shift_mobj (d : nat) (m : mobj) : mobj :=
  Mobj (m_start m + d) (m_end m + d) (m_text m) (m_caps m).

Definition shift_segment (d : nat) (g : segment) : segment :=
  match g with
  | Skip x => Skip x
  | Hit m => Hit (shift_mobj d m)
  end.

Definition shift_block (d : nat) (b : code_block) : code_block :=
  {| language := language b; code := code b;
     start_pos := start_pos b + d; end_pos := end_pos b + d |}.

(** A pattern made of characters, classes, sequences, alternatives and
    groups only. *)
Fixpoint star_free (r : regex) : bool :=
  match r with
  | Empty | Lit _ | Class _ => true
  | Cat r1 r2 | Or r1 r2 => star_free r1 && star_free r2
  | Group _ r1 => star_free r1
  | Star _ _ | EndAnchor => false
  end.

End Props.

(* ================================================================== *)
(** * Facts about text *)

Section TextFacts.

Lemma startswith_app : forall p s, Str.startswith p (p ++ s) = true.
Proof.
  induction p as [|x p IH]; intro s; simpl; [reflexivity|].
  rewrite Ascii.eqb_refl. apply IH.
Qed.

Lemma startswith_true : forall p s,
  Str.startswith p s = true -> exists rest, s = p ++ rest.
Proof.
  induction p as [|x p IH]; intros s H; simpl in H.
  - exists s. reflexivity.
  - destruct s as [|y s]; [discriminate|].
    apply andb_true_iff in H as [E H]. apply Ascii.eqb_eq in E. subst y.
    destruct (IH _ H) as [rest ->]. exists rest. reflexivity.
Qed.

(** A common prefix is transparent to startswith. *)
Lemma startswith_common : forall f a b,
  Str.startswith (f ++ a) (f ++ b) = Str.startswith a b.
Proof.
  induction f as [|x f IH]; intros a b; simpl; [reflexivity|].
  rewrite Ascii.eqb_refl. apply IH.
Qed.

Lemma eqb_eq : forall a b, Str.eqb a b = true <-> a = b.
Proof.
  induction a as [|x a IH]; destruct b as [|y b]; simpl; split; intro H;
    try reflexivity; try discriminate.
  - apply andb_true_iff in H as [E H]. apply Ascii.eqb_eq in E.
    apply IH in H. congruence.
  - inversion H; subst. rewrite Ascii.eqb_refl. apply IH. reflexivity.
Qed.

Lemma eqb_refl : forall a, Str.eqb a a = true.
Proof. intro a. apply eqb_eq. reflexivity. Qed.

Lemma contains_true : forall p s,
  Str.contains p s = true -> exists pre post, s = pre ++ p ++ post.
Proof.
  intros p s. induction s as [|x s IH]; simpl; intro H.
  - apply orb_true_iff in H as [H|H]; [|discriminate].
    apply startswith_true in H as [rest ->]. exists [], rest. reflexivity.
  - apply orb_true_iff in H as [H|H].
    + apply startswith_true in H as [rest ->]. exists [], rest. reflexivity.
    + destruct (IH H) as (pre & post & ->). exists (x :: pre), post. reflexivity.
Qed.

Lemma contains_startswith : forall p s,
  Str.startswith p s = true -> Str.contains p s = true.
Proof. intros p s H. destruct s; simpl; rewrite H; reflexivity. Qed.

Lemma contains_app : forall p pre post, Str.contains p (pre ++ p ++ post) = true.
Proof.
  intros p pre post. induction pre as [|x pre IH]; simpl.
  - apply contains_startswith, startswith_app.
  - rewrite IH. apply orb_true_r.
Qed.

Lemma mem_true : forall x l, Str.mem x l = true <-> In x l.
Proof.
  intros x l. unfold Str.mem. rewrite existsb_exists. split.
  - intros (y & Hy & E). apply eqb_eq in E. subst. exact Hy.
  - intro H. exists x. split; [exact H | apply eqb_refl].
Qed.

End TextFacts.

(* ================================================================== *)
(** * Facts about the matcher *)

Section MatcherFacts.
Import Re.

Lemma star_loop_sound : forall g r1
    (IH1 : forall s c k res,
        rmatch r1 s c k = Some res ->
        exists m rest c', s = m ++ rest /\ lang r1 m rest /\ k rest c' = Some res)
    k fuel s c res,
  star_loop (rmatch r1) g k fuel s c = Some res ->
  exists m rest c', s = m ++ rest /\ lang (Star g r1) m rest /\ k rest c' = Some res.
Proof.
  intros g r1 IH1 k fuel. induction fuel as [|fuel IHf]; intros s c res H; simpl in H.
  - exists [], s, c. repeat split; [constructor | exact H].
  - assert (Hmore : forall out,
               rmatch r1 s c
                 (fun s' c' =>
                    if Nat.ltb (length s') (length s)
                    then star_loop (rmatch r1) g k fuel s' c' else None) = Some out ->
               exists m rest c', s = m ++ rest /\ lang (Star g r1) m rest
                                 /\ k rest c' = Some out).
    { intros out E.
      apply IH1 in E as (m1 & rest1 & c1 & -> & L1 & Hk).
      destruct (Nat.ltb (length rest1) (length (m1 ++ rest1))); [|discriminate].
      apply IHf in Hk as (m2 & rest & c2 & -> & L2 & Hk).
      exists (m1 ++ m2), rest, c2. rewrite app_assoc.
      repeat split; [apply L_StarCons; assumption | exact Hk]. }
    destruct g.
    + match type of H with
      | match ?e with _ => _ end = _ => destruct e as [x|] eqn:E
      end.
      * inversion H; subst x. apply Hmore. reflexivity.
      * exists [], s, c. repeat split; [constructor | exact H].
    + destruct (k s c) as [x|] eqn:E.
      * inversion H; subst x. exists [], s, c.
        repeat split; [constructor | exact E].
      * apply Hmore. exact H.
Qed.

(** Whatever the engine accepts is in the language of the pattern, and
    what it hands to its continuation is the rest of the input. *)
Lemma rmatch_sound : forall r s c k res,
  rmatch r s c k = Some res ->
  exists m rest c', s = m ++ rest /\ lang r m rest /\ k rest c' = Some res.
Proof.
  induction r as [ | a | p | r1 IH1 r2 IH2 | r1 IH1 r2 IH2 | g r1 IH1 | n r1 IH1 | ];
    intros s c k res H; simpl in H.
  - exists [], s, c. repeat split; [constructor | exact H].
  - destruct s as [|x s']; [discriminate|].
    destruct (Ascii.eqb x a) eqn:E; [|discriminate].
    apply Ascii.eqb_eq in E. subst x.
    exists [a], s', c. repeat split; [constructor | exact H].
  - destruct s as [|x s']; [discriminate|].
    destruct (p x) eqn:E; [|discriminate].
    exists [x], s', c. repeat split; [constructor; exact E | exact H].
  - apply IH1 in H as (m1 & rest1 & c1 & -> & L1 & H).
    apply IH2 in H as (m2 & rest & c2 & -> & L2 & H).
    exists (m1 ++ m2), rest, c2. rewrite app_assoc.
    repeat split; [constructor; assumption | exact H].
  - destruct (rmatch r1 s c k) as [x|] eqn:E.
    + inversion H; subst x. apply IH1 in E as (m & rest & c' & -> & L & Hk).
      exists m, rest, c'. repeat split; [apply L_OrL; exact L | exact Hk].
    + apply IH2 in H as (m & rest & c' & -> & L & Hk).
      exists m, rest, c'. repeat split; [apply L_OrR; exact L | exact Hk].
  - change (star_loop (rmatch r1) g k (S (length s)) s c = Some res) in H.
    eapply star_loop_sound; [exact IH1 | exact H].
  - apply IH1 in H as (m & rest & c' & -> & L & Hk).
    exists m, rest, ((n, firstn (length (m ++ rest) - length rest) (m ++ rest)) :: c').
    repeat split; [constructor; exact L | exact Hk].
  - destruct s as [|x [|y s']].
    + exists [], [], c. repeat split; [constructor; left; reflexivity | exact H].
    + destruct (Ascii.eqb x LF) eqn:E; [|discriminate].
      apply Ascii.eqb_eq in E. subst x.
      exists [], [LF], c. repeat split; [constructor; right; reflexivity | exact H].
    + discriminate.
Qed.

Lemma match_here_sound : forall r s adv rest c,
  match_here r s adv = Some (rest, c) ->
  exists m, s = m ++ rest /\ lang r m rest /\ (adv = true -> m <> []).
Proof.
  intros r s adv rest c H. unfold match_here in H.
  apply rmatch_sound in H as (m & rest' & c' & -> & L & Hk).
  destruct adv; simpl in Hk.
  - destruct (Nat.eqb (length rest') (length (m ++ rest'))) eqn:E; [discriminate|].
    inversion Hk; subst. exists m. repeat split; try assumption.
    intros _ ->. simpl in E. rewrite Nat.eqb_refl in E. discriminate.
  - inversion Hk; subst. exists m. repeat split; try assumption. discriminate.
Qed.

(** The engine only looks at its continuation on what is left of the
    input. *)
Lemma rmatch_ext : forall r s c (k1 k2 : cont),
  (forall s' c', length s' <= length s -> k1 s' c' = k2 s' c') ->
  rmatch r s c k1 = rmatch r s c k2.
Proof.
  induction r as [ | a | p | r1 IH1 r2 IH2 | r1 IH1 r2 IH2 | g r1 IH1 | n r1 IH1 | ];
    intros s c k1 k2 H; simpl.
  - apply H. apply Nat.le_refl.
  - destruct s as [|x s']; [reflexivity|].
    destruct (Ascii.eqb x a); [|reflexivity]. apply H. simpl. lia.
  - destruct s as [|x s']; [reflexivity|].
    destruct (p x); [|reflexivity]. apply H. simpl. lia.
  - apply IH1. intros s' c' Hs. apply IH2. intros s'' c'' Hs'. apply H. lia.
  - rewrite (IH1 s c k1 k2 H), (IH2 s c k1 k2 H). reflexivity.
  - assert (G : forall fuel t c0, length t <= length s ->
                  star_loop (rmatch r1) g k1 fuel t c0
                  = star_loop (rmatch r1) g k2 fuel t c0).
    { induction fuel as [|fuel IHf]; intros t c0 Ht; simpl.
      - apply H. exact Ht.
      - rewrite (H t c0 Ht).
        rewrite (IH1 t c0
                   (fun s' c' => if Nat.ltb (length s') (length t)
                                 then star_loop (rmatch r1) g k1 fuel s' c' else None)
                   (fun s' c' => if Nat.ltb (length s') (length t)
                                 then star_loop (rmatch r1) g k2 fuel s' c' else None)).
        + reflexivity.
        + intros s' c' Hs. destruct (Nat.ltb (length s') (length t)); [|reflexivity].
          apply IHf. lia. }
    change (star_loop (rmatch r1) g k1 (S (length s)) s c
            = star_loop (rmatch r1) g k2 (S (length s)) s c).
    apply G. apply Nat.le_refl.
  - apply IH1. intros s' c' Hs. apply H. exact Hs.
  - destruct s as [|x [|y s']]; [| |reflexivity].
    + apply H. apply Nat.le_refl.
    + destruct (Ascii.eqb x LF); [|reflexivity]. apply H. apply Nat.le_refl.
Qed.

(** The fuel of a star is enough: above the length of the input, more
    fuel changes nothing. *)
Lemma star_loop_fuel_enough : forall r g k f1 f2 s c,
  length s < f1 -> length s < f2 ->
  star_loop (rmatch r) g k f1 s c = star_loop (rmatch r) g k f2 s c.
Proof.
  intros r g k. induction f1 as [|f1 IH]; intros f2 s c H1 H2; [lia|].
  destruct f2 as [|f2]; [lia|]. simpl.
  rewrite (rmatch_ext r s c
             (fun s' c' => if Nat.ltb (length s') (length s)
                           then star_loop (rmatch r) g k f1 s' c' else None)
             (fun s' c' => if Nat.ltb (length s') (length s)
                           then star_loop (rmatch r) g k f2 s' c' else None)).
  - reflexivity.
  - intros s' c' _. destruct (Nat.ltb (length s') (length s)) eqn:E; [|reflexivity].
    apply Nat.ltb_lt in E. apply IH; lia.
Qed.

Lemma firstn_matched : forall (m rest : text),
  firstn (length (m ++ rest) - length rest) (m ++ rest) = m.
Proof.
  intros m rest. rewrite length_app, Nat.add_sub.
  rewrite firstn_app, Nat.sub_diag, firstn_all. simpl. apply app_nil_r.
Qed.

End MatcherFacts.

Section LanguageFacts.
Import Re.

Lemma lang_cat : forall r1 r2 m rest,
  lang (Cat r1 r2) m rest ->
  exists m1 m2, m = m1 ++ m2 /\ lang r1 m1 (m2 ++ rest) /\ lang r2 m2 rest.
Proof.
  intros r1 r2 m rest H. inversion H; subst.
  exists m1, m2. repeat split; assumption.
Qed.

Lemma lang_group : forall n r m rest, lang (Group n r) m rest -> lang r m rest.
Proof. intros n r m rest H. inversion H; subst. assumption. Qed.

Lemma lang_or : forall r1 r2 m rest,
  lang (Or r1 r2) m rest -> lang r1 m rest \/ lang r2 m rest.
Proof. intros r1 r2 m rest H. inversion H; subst; [left | right]; assumption. Qed.

Lemma lang_empty : forall m rest, lang Empty m rest -> m = [].
Proof. intros m rest H. inversion H. reflexivity. Qed.

Lemma lang_char : forall a m rest, lang (Lit a) m rest -> m = [a].
Proof. intros a m rest H. inversion H. reflexivity. Qed.

Lemma lang_class : forall p m rest,
  lang (Class p) m rest -> exists a, m = [a] /\ p a = true.
Proof. intros p m rest H. inversion H; subst. exists a. split; [reflexivity | assumption]. Qed.

(** A literal matches itself only. *)
Lemma lang_lit : forall p m rest, lang (lit p) m rest -> m = p.
Proof.
  induction p as [|x p IH]; intros m rest H; simpl in H.
  - apply lang_empty in H. exact H.
  - apply lang_cat in H as (m1 & m2 & -> & H1 & H2).
    apply lang_char in H1. apply IH in H2. subst. reflexivity.
Qed.

(** A star over a class matches characters of the class. *)
Lemma lang_star_class : forall g p m rest,
  lang (Star g (Class p)) m rest -> Forall (fun a => p a = true) m.
Proof.
  intros g p m rest H. remember (Star g (Class p)) as r eqn:E.
  induction H; try discriminate.
  - constructor.
  - inversion E; subst. apply Forall_app. split.
    + apply lang_class in H as (a & -> & Ha). repeat constructor. exact Ha.
    + apply IHlang2. reflexivity.
Qed.

Lemma none_of_not_in : forall cs m,
  Forall (fun a => none_of cs a = true) m -> forall c, In c cs -> ~ In c m.
Proof.
  intros cs m H c Hc Hm. rewrite Forall_forall in H. specialize (H _ Hm).
  unfold none_of, any_of in H. apply negb_true_iff in H.
  assert (existsb (Ascii.eqb c) cs = true) as E.
  { apply existsb_exists. exists c. split; [exact Hc | apply Ascii.eqb_refl]. }
  congruence.
Qed.

End LanguageFacts.

Section ScanFacts.
Import Re Spec.

Variable r : regex.

Lemma flat_map_skip : forall (f : segment -> text) s,
  (forall x, f (Skip x) = [x]) -> flat_map f (map Skip s) = s.
Proof.
  intros f s Hf. induction s as [|x s IH]; simpl; [reflexivity|].
  rewrite Hf, IH. reflexivity.
Qed.

Lemma hits_skip : forall s, hits (map Skip s) = [].
Proof. induction s as [|x s IH]; simpl; [reflexivity | exact IH]. Qed.

(** Where the pattern matches no suffix, the scan skips every character. *)
Lemma scan_no_match : forall fuel pos s adv,
  (forall pre t a, s = pre ++ t -> match_here r t a = None) ->
  scan r fuel pos s adv = map Skip s.
Proof.
  induction fuel as [|fuel IH]; intros pos s adv H; simpl; [reflexivity|].
  rewrite (H [] s adv eq_refl).
  destruct s as [|x s]; [reflexivity|]. simpl. f_equal.
  apply IH. intros pre t a E. apply (H (x :: pre) t a). rewrite E. reflexivity.
Qed.

(** The segments of a scan spell the scanned text. *)
Lemma scan_texts : forall fuel pos s adv,
  flat_map segment_text (scan r fuel pos s adv) = s.
Proof.
  induction fuel as [|fuel IH]; intros pos s adv; simpl.
  - apply flat_map_skip. reflexivity.
  - destruct (match_here r s adv) as [[rest c]|] eqn:E.
    + apply match_here_sound in E as (m & -> & L & _).
      simpl. rewrite firstn_matched, IH. reflexivity.
    + destruct s as [|x s]; [reflexivity|]. simpl. rewrite IH. reflexivity.
Qed.

(** Every hit of a scan is in the language of the pattern. *)
Lemma scan_hits_lang : forall fuel pos s adv,
  Forall (fun h => exists rest, lang r (m_text h) rest) (hits (scan r fuel pos s adv)).
Proof.
  induction fuel as [|fuel IH]; intros pos s adv; simpl.
  - rewrite hits_skip. constructor.
  - destruct (match_here r s adv) as [[rest c]|] eqn:E.
    + apply match_here_sound in E as (m & -> & L & _).
      simpl. constructor; [|apply IH].
      simpl. rewrite firstn_matched. exists rest. exact L.
    + destruct s as [|x s]; [constructor|]. simpl. apply IH.
Qed.

(** A replacement that gives back what was matched changes nothing. *)
Lemma scan_replace_same : forall (f : mobj -> text),
  (forall h rest, lang r (m_text h) rest -> f h = m_text h) ->
  forall fuel pos s adv,
    flat_map (fun g => match g with
                       | Skip x => [x]
                       | Hit m => f m
                       end) (scan r fuel pos s adv) = s.
Proof.
  intros f Hf. induction fuel as [|fuel IH]; intros pos s adv; simpl.
  - apply flat_map_skip. reflexivity.
  - destruct (match_here r s adv) as [[rest c]|] eqn:E.
    + apply match_here_sound in E as (m & -> & L & _).
      simpl. rewrite IH. rewrite (Hf _ rest); simpl; rewrite firstn_matched;
        [reflexivity | exact L].
    + destruct s as [|x s]; [reflexivity|]. simpl. rewrite IH. reflexivity.
Qed.

(** The fuel of [scan_all] is enough: more fuel gives the same scan. *)
Lemma scan_fuel_enough : forall f1 f2 pos (s : text) (adv : bool),
  2 * length s + (if adv then 1 else 2) <= f1 ->
  2 * length s + (if adv then 1 else 2) <= f2 ->
  scan r f1 pos s adv = scan r f2 pos s adv.
Proof.
  induction f1 as [|f1 IH]; intros f2 pos s adv H1 H2.
  - destruct adv; lia.
  - destruct f2 as [|f2]; [destruct adv; lia|]. simpl.
    destruct (match_here r s adv) as [[rest c]|] eqn:E.
    + apply match_here_sound in E as (m & -> & L & Hadv).
      f_equal. rewrite length_app, Nat.add_sub.
      rewrite length_app in H1, H2.
      destruct m as [|x m]; simpl in *.
      * destruct adv; [exfalso; apply Hadv; reflexivity|].
        apply IH; lia.
      * apply IH; destruct adv; lia.
    + destruct s as [|x s]; [reflexivity|]. simpl in *. f_equal.
      apply IH; destruct adv; lia.
Qed.

Lemma re_sub_fn_no_match : forall f s,
  (forall pre t a, s = pre ++ t -> match_here r t a = None) ->
  re_sub_fn r f s = s.
Proof.
  intros f s H. unfold re_sub_fn, scan_all.
  rewrite (scan_no_match _ _ _ H). apply flat_map_skip. reflexivity.
Qed.

Lemma re_finditer_no_match : forall s,
  (forall pre t a, s = pre ++ t -> match_here r t a = None) ->
  re_finditer r s = [].
Proof.
  intros s H. unfold re_finditer, scan_all.
  rewrite (scan_no_match _ _ _ H). apply hits_skip.
Qed.

End ScanFacts.

(* ================================================================== *)
(** * The fixer *)

Section FixerFacts.
Import Re Fixer Spec.

(** The replacement templates of the program parse. *)
Lemma templates_well_formed :
  parse_template backslash_n_repl = Some [TChar BACKSLASH; TChar "n"%char]
  /\ parse_template backslash_t_repl = Some [TChar BACKSLASH; TChar "t"%char]
  /\ parse_template [BACKSLASH; "1"%char] = Some [TGroup 1]
  /\ parse_template [] = Some [].
Proof. repeat split. Qed.

(** Substituting a two-character literal by a template that expands to
    the same two characters changes nothing. *)
Lemma re_sub_same_literal : forall (p template s : text),
  (forall h, expand (compile_template template) h = p) ->
  re_sub (lit p) template s = s.
Proof.
  intros p template s H. unfold re_sub, re_sub_fn, scan_all.
  apply scan_replace_same. intros h rest L.
  apply lang_lit in L. rewrite H, L. reflexivity.
Qed.

Lemma skipn_app_exact : forall (a b : text), skipn (length a) (a ++ b) = b.
Proof. induction a as [|x a IH]; intro b; simpl; [reflexivity | apply IH]. Qed.

(** What the curl pattern matches: the command up to its data argument,
    free of backslashes, then the data argument. *)
Lemma curl_pattern_lang : forall m rest,
  lang curl_pattern m rest ->
  exists mid body,
    m = txt "curl -X POST" ++ mid ++ txt "-d '{" ++ body ++ txt "}'"
    /\ ~ In BACKSLASH mid /\ ~ In "}"%char body.
Proof.
  intros m rest L. unfold curl_pattern in L.
  apply lang_cat in L as (g1 & g2 & -> & L1 & L2).
  apply lang_group in L1. apply lang_group in L2.
  apply lang_cat in L1 as (k & mid & -> & Lk & Lmid).
  apply lang_lit in Lk. apply lang_star_class in Lmid.
  apply lang_cat in L2 as (d & be & -> & Ld & Lbe). apply lang_lit in Ld.
  apply lang_cat in Lbe as (body & e & -> & Lbody & Le).
  apply lang_star_class in Lbody. apply lang_lit in Le. subst.
  exists mid, body. split; [|split].
  - rewrite <- !app_assoc. reflexivity.
  - eapply none_of_not_in; [exact Lmid | left; reflexivity].
  - eapply none_of_not_in; [exact Lbody | left; reflexivity].
Qed.

(** The commands that fix_curl_headers rewrites are those matches: each
    has a span free of backslashes before its data argument. *)
Lemma rewritten_commands_have_plain_spans : forall content,
  Forall (fun h => exists mid body,
              m_text h = txt "curl -X POST" ++ mid ++ txt "-d '{" ++ body ++ txt "}'"
              /\ ~ In BACKSLASH mid /\ ~ In "}"%char body)
         (re_finditer curl_pattern content).
Proof.
  intro content. unfold re_finditer, scan_all.
  eapply Forall_impl; [|apply scan_hits_lang].
  intros h (rest & L). apply curl_pattern_lang in L. exact L.
Qed.

End FixerFacts.

(** C4: the three rewrites turn the example command into the same command
    with the header -H "Content-Type: application/json", a continuation and
    two spaces of indentation put right before its -d argument; the three
    rewrites leave that result as it is, so that a second run of
    process_file writes nothing. *)
Theorem C4_fixer_inserts_header_and_is_stable :
  Fixer.apply_fixes Spec.curl_example = Spec.curl_example_fixed
  /\ Fixer.apply_fixes Spec.curl_example_fixed = Spec.curl_example_fixed
  /\ Fixer.process_file (Some Spec.curl_example) = (Some Spec.curl_example_fixed, true)
  /\ Fixer.process_file (Some Spec.curl_example_fixed) = (None, false).
Proof. repeat split; vm_compute; reflexivity. Qed.

(** C9, as amended: when every span from an occurrence of curl -X POST to a
    later data argument -d '{...}' (its body free of closing braces, on one
    line or on several) holds a backslash, fix_curl_headers returns the text
    unchanged. *)
Theorem C9_backslash_before_data_keeps_text : forall content,
  Spec.spans_hold_backslash (fun _ => True) content ->
  Fixer.fix_curl_headers content = content.
Proof.
  intros content H. unfold Fixer.fix_curl_headers.
  apply re_sub_fn_no_match. intros pre t a E.
  destruct (Re.match_here Fixer.curl_pattern t a) as [[rest c]|] eqn:M; [|reflexivity].
  exfalso. apply match_here_sound in M as (m & -> & L & _).
  apply curl_pattern_lang in L as (mid & body & -> & Hmid & Hbody).
  apply Hmid.
  apply (H pre mid (txt "-d '{" ++ body ++ txt "}'") rest).
  - rewrite E. rewrite <- !app_assoc. reflexivity.
  - exists body. split; [reflexivity | exact Hbody].
  - exact I.
Qed.

(** A command split by a continuation before its data argument: its only
    span holds a backslash, and the rewrite leaves it alone. *)
Lemma C9_backslash_before_data_keeps_text_witness :
  Spec.spans_hold_backslash (fun _ => True) (txt "curl -X POST \ -d '{}'")
  /\ Fixer.fix_curl_headers (txt "curl -X POST \ -d '{}'") = txt "curl -X POST \ -d '{}'".
Proof.
  assert (H : Spec.spans_hold_backslash (fun _ => True) (txt "curl -X POST \ -d '{}'")).
  { intros pre mid d post E (body & -> & Hb) _.
    assert (Hs : exists n, skipn n (txt "curl -X POST \ -d '{}'")
                           = txt "curl -X POST" ++ mid ++ (txt "-d '{" ++ body ++ txt "}'") ++ post).
    { exists (length pre). rewrite E. apply skipn_app_exact. }
    destruct Hs as [n Hn].
    unfold txt in Hn.
    do 22 (try (destruct n as [|n]; [simpl in Hn; try discriminate Hn|]));
      [|destruct n; simpl in Hn; discriminate Hn].
    injection Hn as Hn.
    destruct mid as [|x mid]; [simpl in Hn; discriminate Hn|].
    injection Hn as Hx Hn.
    destruct mid as [|y mid]; [simpl in Hn; discriminate Hn|].
    injection Hn as Hy Hn. subst. right. left. reflexivity. }
  split; [exact H | apply (C9_backslash_before_data_keeps_text H)].
Defined.

(** C9, as first stated: asking for a backslash only before single-line
    data arguments is not enough.  A command whose data argument spans two
    lines has no single-line data argument at all, and is rewritten. *)
Lemma C9_single_line_counterexample :
  ~ (forall content,
        Spec.spans_hold_backslash Spec.single_line content ->
        Fixer.fix_curl_headers content = content).
Proof.
  intro H.
  specialize (H (txt "curl -X POST u -d '{" ++ [LF] ++ txt "}'")).
  assert (Hs : Spec.spans_hold_backslash Spec.single_line
                 (txt "curl -X POST u -d '{" ++ [LF] ++ txt "}'")).
  { intros pre mid d post E (body & -> & Hb) Hsl. exfalso. apply Hsl.
    assert (Hn : exists n, skipn n (txt "curl -X POST u -d '{" ++ [LF] ++ txt "}'")
                           = txt "-d '{" ++ body ++ txt "}'" ++ post).
    { exists (length (pre ++ txt "curl -X POST" ++ mid)).
      replace (txt "curl -X POST u -d '{" ++ [LF] ++ txt "}'")
        with ((pre ++ txt "curl -X POST" ++ mid) ++ (txt "-d '{" ++ body ++ txt "}'" ++ post)).
      - apply skipn_app_exact.
      - rewrite E. rewrite <- !app_assoc. reflexivity. }
    destruct Hn as [n Hn].
    unfold txt in Hn.
    do 24 (try (destruct n as [|n]; [simpl in Hn; try discriminate Hn|]));
      [|destruct n; simpl in Hn; discriminate Hn].
    injection Hn as Hn.
    destruct body as [|x body]; [simpl in Hn; discriminate Hn|].
    injection Hn as Hx Hn. subst x.
    apply in_or_app. right. left. reflexivity. }
  specialize (H Hs). vm_compute in H. discriminate H.
Qed.

(** C10: fix_json_formatting changes no text at all.  Its replacement
    arguments are templates, in which the two backslashes stand for one, so
    that backslash-n is replaced by backslash-n and backslash-t by
    backslash-t; a text with a backslash-n outside python_code goes through
    the three rewrites unchanged, once or twice. *)
Theorem C10_escape_normalization_changes_nothing :
  (forall content, Fixer.fix_json_formatting content = content)
  /\ Re.compile_template Fixer.backslash_n_repl = [Re.TChar BACKSLASH; Re.TChar "n"%char]
  /\ Fixer.apply_fixes (txt "a" ++ [BACKSLASH] ++ txt "nb") = txt "a" ++ [BACKSLASH] ++ txt "nb"
  /\ Fixer.apply_fixes (Fixer.apply_fixes (txt "a" ++ [BACKSLASH] ++ txt "nb"))
     = Fixer.apply_fixes (txt "a" ++ [BACKSLASH] ++ txt "nb").
Proof.
  split; [|repeat split; vm_compute; reflexivity].
  intro content. unfold Fixer.fix_json_formatting.
  unfold Fixer.backslash_t_pattern, Fixer.backslash_n_pattern.
  rewrite (@re_sub_same_literal [BACKSLASH; "n"%char]); [|intro h; reflexivity].
  rewrite (@re_sub_same_literal [BACKSLASH; "t"%char]); [|intro h; reflexivity].
  reflexivity.
Qed.

(** The third rewrite is the one that is not idempotent: inside a
    python_code string a backslash-n gets one more backslash at each run. *)
Example embedded_python_gains_a_backslash_each_run :
  let quoted (s : text) := [DQUOTE] ++ s ++ [DQUOTE] in
  let field (s : text) := quoted (txt "python_code") ++ txt ": " ++ quoted s in
  Fixer.apply_fixes (field (txt "a" ++ [BACKSLASH] ++ txt "nb"))
  = field (txt "a" ++ [BACKSLASH; BACKSLASH] ++ txt "nb")
  /\ Fixer.apply_fixes (field (txt "a" ++ [BACKSLASH; BACKSLASH] ++ txt "nb"))
     = field (txt "a" ++ [BACKSLASH; BACKSLASH; BACKSLASH] ++ txt "nb").
Proof. split; vm_compute; reflexivity. Qed.

(* ================================================================== *)
(** * The validator: documents without code and without URLs *)

Section PlainDocuments.
Import Re Validator Spec.

Lemma block_pattern_lang : forall m rest,
  lang block_pattern m rest -> exists body, m = txt "```" ++ body ++ txt "```".
Proof.
  intros m rest L. unfold block_pattern in L.
  apply lang_cat in L as (a & x1 & -> & La & L). apply lang_lit in La.
  apply lang_cat in L as (tag & x2 & -> & _ & L).
  apply lang_cat in L as (sp & x3 & -> & _ & L).
  apply lang_cat in L as (body & z & -> & _ & Lz). apply lang_lit in Lz.
  subst. exists (tag ++ sp ++ body). rewrite <- !app_assoc. reflexivity.
Qed.

Lemma url_pattern_lang : forall m rest,
  lang url_pattern m rest ->
  exists tail, m = txt "http://" ++ tail \/ m = txt "https://" ++ tail.
Proof.
  intros m rest L. unfold url_pattern in L.
  apply lang_cat in L as (a & x1 & -> & La & L). apply lang_lit in La.
  apply lang_cat in L as (s & x2 & -> & Ls & L).
  apply lang_cat in L as (sep & tail & -> & Lsep & _). apply lang_lit in Lsep.
  subst. exists tail. apply lang_or in Ls as [Ls|Ls].
  - apply lang_char in Ls. subst. right. reflexivity.
  - apply lang_empty in Ls. subst. left. reflexivity.
Qed.

Lemma no_blocks : forall content,
  ~ has_fenced_block content -> extract_code_blocks content = [].
Proof.
  intros content H. unfold extract_code_blocks.
  rewrite re_finditer_no_match; [reflexivity|].
  intros pre t a E.
  destruct (match_here block_pattern t a) as [[rest c]|] eqn:M; [|reflexivity].
  exfalso. apply H. apply match_here_sound in M as (m & -> & L & _).
  apply block_pattern_lang in L as (body & ->).
  exists pre, body, rest. rewrite E, <- !app_assoc. reflexivity.
Qed.

Lemma no_urls : forall content,
  ~ has_url content -> re_findall url_pattern content = [].
Proof.
  intros content H. unfold re_findall.
  rewrite re_finditer_no_match; [reflexivity|].
  intros pre t a E.
  destruct (match_here url_pattern t a) as [[rest c]|] eqn:M; [|reflexivity].
  exfalso. apply H. apply match_here_sound in M as (m & -> & L & _).
  apply url_pattern_lang in L as (tail & [-> | ->]);
    exists pre, (tail ++ rest); [left | right]; rewrite E, <- !app_assoc; reflexivity.
Qed.

(** Two tests that decide the hypotheses on a given document. *)
Lemma no_backticks_no_block : forall content,
  Str.contains (txt "```") content = false -> ~ has_fenced_block content.
Proof.
  intros content H (pre & body & post & E). subst content.
  rewrite contains_app in H. discriminate.
Qed.

Lemma no_scheme_no_url : forall content,
  Str.contains (txt "http") content = false -> ~ has_url content.
Proof.
  intros content H (pre & post & [E|E]); subst content.
  - change (txt "http://" ++ post) with (txt "http" ++ (txt "://" ++ post)) in H.
    rewrite contains_app in H. discriminate.
  - change (txt "https://" ++ post) with (txt "http" ++ (txt "s://" ++ post)) in H.
    rewrite contains_app in H. discriminate.
Qed.

End PlainDocuments.

(** C7: validating a document that holds no fenced code block and no URL
    leaves the error list and the warning list as they were and reports
    zero Python blocks, zero JSON blocks and zero curl commands. *)
Theorem C7_plain_document_records_nothing :
  forall (w : World) (v : Validator.validator) (filename content : text),
    ~ Spec.has_fenced_block content ->
    ~ Spec.has_url content ->
    Validator.validate_file w v filename content
    = (v, Done (Spec.empty_results filename)).
Proof.
  intros w v filename content Hb Hu.
  unfold Validator.validate_file, Validator.extract_curl_commands,
    Validator.validate_api_endpoints.
  rewrite (no_blocks Hb), (no_urls Hu). reflexivity.
Qed.

Lemma C7_plain_document_records_nothing_witness :
  Validator.validate_file Sample.world (Validator.init None) (txt "intro.mdx")
    (txt "Quick start: install the `lyceum` client, then run it.")
  = (Validator.init None, Done (Spec.empty_results (txt "intro.mdx"))).
Proof.
  apply C7_plain_document_records_nothing.
  - apply no_backticks_no_block. vm_compute. reflexivity.
  - apply no_scheme_no_url. vm_compute. reflexivity.
Defined.

(* ================================================================== *)
(** * The validator: imports *)

Section ImportFacts.
Import Validator Spec.

Lemma clean_single_import :
  clean_python_code (txt "import numpy") = txt "import numpy"
  /\ clean_python_code (txt "import some_unpublished_pkg_xyz")
     = txt "import some_unpublished_pkg_xyz".
Proof. split; vm_compute; reflexivity. Qed.

(** The import check flags a module only when find_spec raises. *)
Lemma import_flagged_on_exception : forall (w : World) v fn,
  ast_parse w (txt "import some_unpublished_pkg_xyz")
    = PyModule [Import [txt "some_unpublished_pkg_xyz"]] ->
  find_spec w (txt "some_unpublished_pkg_xyz") = SpecImportError ->
  validate_python_imports w v (txt "import some_unpublished_pkg_xyz") fn
  = (add_warning v (fn ++ txt ": Potentially unavailable imports: "
                       ++ txt "['some_unpublished_pkg_xyz']"), true).
Proof.
  intros w v fn Hp Hs. unfold validate_python_imports.
  rewrite (proj2 clean_single_import), Hp.
  cbn [flat_map imported_names app problematic_imports].
  change (base_package (txt "some_unpublished_pkg_xyz"))
    with (txt "some_unpublished_pkg_xyz").
  change (negb (Str.mem (txt "some_unpublished_pkg_xyz") common_packages)
          && negb (Str.startswith (txt "_") (txt "some_unpublished_pkg_xyz")))
    with true.
  cbv iota. rewrite Hs. reflexivity.
Qed.

End ImportFacts.

(** C1: the import check records nothing for a block that imports numpy,
    which is in the allow-list; for a block that imports
    some_unpublished_pkg_xyz, a module that no finder knows (find_spec
    returns None), it records nothing either, where the specification
    expects one warning: the script only looks at whether find_spec
    raises. *)
Theorem C1_unknown_import_is_not_flagged :
  forall (w : World) (v : Validator.validator) (filename : text),
    ast_parse w (txt "import numpy") = PyModule [Import [txt "numpy"]] ->
    ast_parse w (txt "import some_unpublished_pkg_xyz")
      = PyModule [Import [txt "some_unpublished_pkg_xyz"]] ->
    find_spec w (txt "some_unpublished_pkg_xyz") = SpecNone ->
    Validator.validate_python_imports w v (txt "import numpy") filename = (v, true)
    /\ Validator.validate_python_imports w v (txt "import some_unpublished_pkg_xyz") filename
       = (v, true).
Proof.
  intros w v filename Hn Hp Hs. unfold Validator.validate_python_imports.
  rewrite (proj1 clean_single_import), (proj2 clean_single_import), Hn, Hp.
  cbn [flat_map Validator.imported_names app Validator.problematic_imports].
  change (Validator.base_package (txt "numpy")) with (txt "numpy").
  change (Validator.base_package (txt "some_unpublished_pkg_xyz"))
    with (txt "some_unpublished_pkg_xyz").
  change (negb (Str.mem (txt "numpy") Validator.common_packages)
          && negb (Str.startswith (txt "_") (txt "numpy")))
    with false.
  change (negb (Str.mem (txt "some_unpublished_pkg_xyz") Validator.common_packages)
          && negb (Str.startswith (txt "_") (txt "some_unpublished_pkg_xyz")))
    with true.
  cbv iota. rewrite Hs. split; reflexivity.
Qed.

Lemma C1_unknown_import_is_not_flagged_witness :
  Validator.validate_python_imports Sample.world (Validator.init None)
    (txt "import numpy") (txt "a.mdx") = (Validator.init None, true)
  /\ Validator.validate_python_imports Sample.world (Validator.init None)
       (txt "import some_unpublished_pkg_xyz") (txt "a.mdx") = (Validator.init None, true).
Proof.
  apply C1_unknown_import_is_not_flagged; vm_compute; reflexivity.
Defined.

(* ================================================================== *)
(** * Further facts about the matcher: captures and positions *)

Section CaptureFacts.
Import Re Props.

Lemma plain_lit : forall p, plain (lit p) = true.
Proof. induction p as [|x p IH]; simpl; [reflexivity | exact IH]. Qed.

Lemma star_loop_plain : forall g r1
    (IH1 : forall s c k res,
        rmatch r1 s c k = Some res ->
        exists m rest, s = m ++ rest /\ lang r1 m rest /\ k rest c = Some res)
    k fuel s c res,
  star_loop (rmatch r1) g k fuel s c = Some res ->
  exists m rest, s = m ++ rest /\ lang (Star g r1) m rest /\ k rest c = Some res.
Proof.
  intros g r1 IH1 k fuel. induction fuel as [|fuel IHf]; intros s c res H; simpl in H.
  - exists [], s. repeat split; [constructor | exact H].
  - assert (Hmore : forall out,
               rmatch r1 s c
                 (fun s' c' =>
                    if Nat.ltb (length s') (length s)
                    then star_loop (rmatch r1) g k fuel s' c' else None) = Some out ->
               exists m rest, s = m ++ rest /\ lang (Star g r1) m rest
                              /\ k rest c = Some out).
    { intros out E.
      apply IH1 in E as (m1 & rest1 & -> & L1 & Hk).
      destruct (Nat.ltb (length rest1) (length (m1 ++ rest1))); [|discriminate].
      apply IHf in Hk as (m2 & rest & -> & L2 & Hk).
      exists (m1 ++ m2), rest. rewrite app_assoc.
      repeat split; [apply L_StarCons; assumption | exact Hk]. }
    destruct g.
    + match type of H with
      | match ?e with _ => _ end = _ => destruct e as [x|] eqn:E
      end.
      * inversion H; subst x. apply Hmore. reflexivity.
      * exists [], s. repeat split; [constructor | exact H].
    + destruct (k s c) as [x|] eqn:E.
      * inversion H; subst x. exists [], s.
        repeat split; [constructor | exact E].
      * apply Hmore. exact H.
Qed.

(** A pattern without groups hands the captures on as it got them. *)
Lemma rmatch_plain : forall r, plain r = true -> forall s c k res,
  rmatch r s c k = Some res ->
  exists m rest, s = m ++ rest /\ lang r m rest /\ k rest c = Some res.
Proof.
  induction r as [ | a | p | r1 IH1 r2 IH2 | r1 IH1 r2 IH2 | g r1 IH1 | n r1 IH1 | ];
    intros P s c k res H; simpl in P.
  - simpl in H. exists [], s. repeat split; [constructor | exact H].
  - simpl in H. destruct s as [|x s']; [discriminate|].
    destruct (Ascii.eqb x a) eqn:E; [|discriminate].
    apply Ascii.eqb_eq in E. subst x.
    exists [a], s'. repeat split; [constructor | exact H].
  - simpl in H. destruct s as [|x s']; [discriminate|].
    destruct (p x) eqn:E; [|discriminate].
    exists [x], s'. repeat split; [constructor; exact E | exact H].
  - apply andb_true_iff in P as [P1 P2]. simpl in H.
    apply (IH1 P1) in H as (m1 & rest1 & -> & L1 & H).
    apply (IH2 P2) in H as (m2 & rest & -> & L2 & H).
    exists (m1 ++ m2), rest. rewrite app_assoc.
    repeat split; [constructor; assumption | exact H].
  - apply andb_true_iff in P as [P1 P2]. simpl in H.
    destruct (rmatch r1 s c k) as [x|] eqn:E.
    + inversion H; subst x. apply (IH1 P1) in E as (m & rest & -> & L & Hk).
      exists m, rest. repeat split; [apply L_OrL; exact L | exact Hk].
    + apply (IH2 P2) in H as (m & rest & -> & L & Hk).
      exists m, rest. repeat split; [apply L_OrR; exact L | exact Hk].
  - change (star_loop (rmatch r1) g k (S (length s)) s c = Some res) in H.
    eapply star_loop_plain; [exact (IH1 P) | exact H].
  - discriminate P.
  - simpl in H. destruct s as [|x [|y s']].
    + exists [], []. repeat split; [constructor; left; reflexivity | exact H].
    + destruct (Ascii.eqb x LF) eqn:E; [|discriminate].
      apply Ascii.eqb_eq in E. subst x.
      exists [], [LF]. repeat split; [constructor; right; reflexivity | exact H].
    + discriminate.
Qed.

(** A group around a pattern without groups records what it matched. *)
Lemma rmatch_group : forall n r, plain r = true -> forall s c k res,
  rmatch (Group n r) s c k = Some res ->
  exists m rest, s = m ++ rest /\ lang r m rest /\ k rest ((n, m) :: c) = Some res.
Proof.
  intros n r P s c k res H. simpl in H.
  apply (rmatch_plain r P) in H as (m & rest & -> & L & H).
  rewrite firstn_matched in H. exists m, rest. repeat split; assumption.
Qed.

Lemma rmatch_cat : forall r1 r2 s c k,
  rmatch (Cat r1 r2) s c k = rmatch r1 s c (fun s' c' => rmatch r2 s' c' k).
Proof. reflexivity. Qed.

Lemma rmatch_or : forall r1 r2 s c k,
  rmatch (Or r1 r2) s c k
  = match rmatch r1 s c k with
    | Some x => Some x
    | None => rmatch r2 s c k
    end.
Proof. reflexivity. Qed.

Lemma rmatch_empty : forall s c k, rmatch Empty s c k = k s c.
Proof. reflexivity. Qed.

Lemma rmatch_group_unfold : forall n r s c k,
  rmatch (Group n r) s c k
  = rmatch r s c (fun s' c' => k s' ((n, firstn (length s - length s') s) :: c')).
Proof. reflexivity. Qed.

Lemma rmatch_star_unfold : forall g r s c k,
  rmatch (Star g r) s c k = star_loop (rmatch r) g k (S (length s)) s c.
Proof. reflexivity. Qed.

Lemma rmatch_lit_char : forall a s c k,
  rmatch (Lit a) s c k
  = match s with
    | x :: s' => if Ascii.eqb x a then k s' c else None
    | [] => None
    end.
Proof. reflexivity. Qed.

(** The last step of [match_here]. *)
Lemma final_some : forall (s rest : text) (adv : bool) (c : caps) res,
  (if adv && Nat.eqb (length rest) (length s) then None else Some (rest, c)) = Some res ->
  res = (rest, c).
Proof.
  intros s rest adv c res H.
  destruct (adv && Nat.eqb (length rest) (length s)); [discriminate|].
  inversion H. reflexivity.
Qed.

End CaptureFacts.

Section ScanContext.
Import Re Props.

Variable r : regex.

(** The text that a scan rewrites, when the rewrite of a hit is related to
    the hit by [R] and [R] goes through concatenation. *)
Lemma scan_sub_rel : forall (R : text -> text -> Prop) (f : mobj -> text) (s0 : text),
  R [] [] ->
  (forall x o o', R o o' -> R (x :: o) (x :: o')) ->
  (forall pre m rest adv c pos o o',
      s0 = pre ++ m ++ rest ->
      match_here r (m ++ rest) adv = Some (rest, c) ->
      R o o' ->
      R (m ++ o) (f (Mobj pos (pos + length m) m c) ++ o')) ->
  forall fuel pos s adv pre,
    s0 = pre ++ s ->
    R s (flat_map (fun g => match g with
                            | Skip x => [x]
                            | Hit m => f m
                            end) (scan r fuel pos s adv)).
Proof.
  intros R f s0 Rnil Rkeep Rhit.
  assert (Rrefl : forall s, R s (flat_map (fun g => match g with
                                                    | Skip x => [x]
                                                    | Hit m => f m
                                                    end) (map Skip s))).
  { induction s as [|x s IH]; simpl; [exact Rnil | apply Rkeep; exact IH]. }
  induction fuel as [|fuel IH]; intros pos s adv pre E; simpl; [apply Rrefl|].
  destruct (match_here r s adv) as [[rest c]|] eqn:M.
  - pose proof M as M'. apply match_here_sound in M' as (m & -> & L & _).
    rewrite length_app, Nat.add_sub. rewrite firstn_app, Nat.sub_diag, firstn_all.
    simpl firstn. rewrite app_nil_r. cbn [flat_map].
    apply (Rhit pre m rest adv c pos); [exact E | exact M |].
    apply (IH _ _ _ (pre ++ m)). rewrite E, <- app_assoc. reflexivity.
  - destruct s as [|x s]; [exact Rnil|]. cbn [flat_map app]. apply Rkeep.
    apply (IH _ _ _ (pre ++ [x])). rewrite E, <- app_assoc. reflexivity.
Qed.

(** A property of every hit of a scan, read off the match that gave it and
    the place of the match. *)
Lemma scan_hits_props : forall (Q : mobj -> Prop) (s0 : text),
  (forall pre m rest adv c,
      s0 = pre ++ m ++ rest ->
      match_here r (m ++ rest) adv = Some (rest, c) ->
      Q (Mobj (length pre) (length pre + length m) m c)) ->
  forall fuel s adv pre,
    s0 = pre ++ s ->
    Forall Q (hits (scan r fuel (length pre) s adv)).
Proof.
  intros Q s0 HQ. induction fuel as [|fuel IH]; intros s adv pre E; simpl.
  - rewrite hits_skip. constructor.
  - destruct (match_here r s adv) as [[rest c]|] eqn:M.
    + pose proof M as M'. apply match_here_sound in M' as (m & -> & L & _).
      rewrite length_app, Nat.add_sub. rewrite firstn_app, Nat.sub_diag, firstn_all.
      simpl firstn. rewrite app_nil_r. cbn [hits]. constructor.
      * apply (HQ pre m rest adv c); assumption.
      * replace (length pre + length m) with (length (pre ++ m))
          by (rewrite length_app; reflexivity).
        apply IH. rewrite E, <- app_assoc. reflexivity.
    + destruct s as [|x s]; [constructor|]. cbn [hits].
      replace (S (length pre)) with (length (pre ++ [x]))
        by (rewrite length_app; simpl; lia).
      apply IH. rewrite E, <- app_assoc. reflexivity.
Qed.

Lemma hits_in_order_weaken : forall l lo lo',
  lo' <= lo -> hits_in_order lo l -> hits_in_order lo' l.
Proof.
  intros [|h l] lo lo' H; simpl; [trivial|].
  intros (A & B & C). repeat split; [lia | exact B | exact C].
Qed.

(** The hits of a scan come in the order of the text and do not overlap. *)
Lemma scan_hits_in_order : forall fuel pos s adv,
  hits_in_order pos (hits (scan r fuel pos s adv)).
Proof.
  induction fuel as [|fuel IH]; intros pos s adv; simpl.
  - rewrite hits_skip. exact I.
  - destruct (match_here r s adv) as [[rest c]|] eqn:M.
    + apply match_here_sound in M as (m & -> & L & _).
      rewrite length_app, Nat.add_sub. rewrite firstn_app, Nat.sub_diag, firstn_all.
      simpl firstn. rewrite app_nil_r. cbn [hits hits_in_order m_start m_end m_text].
      repeat split; [lia | apply IH].
    + destruct s as [|x s]; [exact I|]. cbn [hits].
      apply hits_in_order_weaken with (lo := S pos); [lia | apply IH].
Qed.

End ScanContext.

Section PatternMatches.
Import Re Props Validator Fixer.

Lemma class_forall_not_in : forall c m,
  Forall (fun a => none_of [c] a = true) m -> ~ In c m.
Proof. intros c m H. eapply none_of_not_in; [exact H | left; reflexivity]. Qed.

(** A match of the curl pattern: the two groups are the command up to its
    data argument and the data argument, one after the other. *)
Lemma curl_match : forall s adv rest c,
  match_here curl_pattern s adv = Some (rest, c) ->
  exists mid body,
    s = (txt "curl -X POST" ++ mid) ++ (txt "-d '{" ++ body ++ txt "}'") ++ rest
    /\ c = [(2, txt "-d '{" ++ body ++ txt "}'"); (1, txt "curl -X POST" ++ mid)]
    /\ ~ In BACKSLASH mid /\ ~ In "}"%char body.
Proof.
  intros s adv rest c H. unfold match_here, curl_pattern in H.
  rewrite rmatch_cat in H.
  apply rmatch_group in H as (m1 & r1 & E1 & L1 & H); [|reflexivity].
  apply rmatch_group in H as (m2 & r2 & E2 & L2 & H); [|reflexivity].
  apply final_some in H. inversion H; subst r2 c. clear H.
  apply lang_cat in L1 as (k & mid & -> & Lk & Lmid).
  apply lang_lit in Lk. apply lang_star_class in Lmid.
  apply lang_cat in L2 as (d & be & -> & Ld & Lbe). apply lang_lit in Ld.
  apply lang_cat in Lbe as (body & e & -> & Lbody & Le).
  apply lang_star_class in Lbody. apply lang_lit in Le. subst.
  exists mid, body. repeat split.
  - apply class_forall_not_in. exact Lmid.
  - eapply none_of_not_in; [exact Lbody | left; reflexivity].
Qed.

(** A match of the pattern of fenced blocks: the fences, the tag (group 1,
    when there is one), white space and the body (group 2). *)
Lemma block_match : forall s adv rest c,
  match_here block_pattern s adv = Some (rest, c) ->
  exists tag sp body,
    s = txt "```" ++ tag ++ sp ++ body ++ txt "```" ++ rest
    /\ Forall (fun a => is_word a = true) tag
    /\ ~ In "`"%char body
    /\ c = (2, body) :: (match tag with
                         | [] => []
                         | _ :: _ => [(1, tag)]
                         end).
Proof.
  intros s adv rest c H. unfold match_here, block_pattern in H.
  rewrite rmatch_cat in H.
  apply rmatch_plain in H as (m0 & r0 & E0 & L0 & H); [|apply plain_lit].
  apply lang_lit in L0. subst m0.
  rewrite rmatch_cat in H.
  assert (T : forall s' c' res,
             rmatch (Cat (Star greedy (Class Str.is_space))
                       (Cat (Group 2 (Star lazy (Class (none_of (txt "`")))))
                            (lit (txt "```")))) s' c'
               (fun rest0 c0 =>
                  if adv && Nat.eqb (length rest0) (length s) then None
                  else Some (rest0, c0)) = Some res ->
             exists sp body rest', s' = sp ++ body ++ txt "```" ++ rest'
                                   /\ ~ In "`"%char body
                                   /\ res = (rest', (2, body) :: c')).
  { intros s' c' res T. rewrite rmatch_cat in T.
    apply rmatch_plain in T as (sp & r1 & -> & _ & T); [|reflexivity].
    rewrite rmatch_cat in T.
    apply rmatch_group in T as (body & r2 & -> & Lb & T); [|reflexivity].
    apply rmatch_plain in T as (z & r3 & -> & Lz & T); [|apply plain_lit].
    apply lang_lit in Lz. subst z. apply final_some in T.
    apply lang_star_class in Lb.
    exists sp, body, r3. repeat split; [|exact T].
    eapply none_of_not_in; [exact Lb | left; reflexivity]. }
  unfold Opt in H. rewrite rmatch_or, rmatch_empty in H.
  match type of H with
  | match ?e with _ => _ end = _ => destruct e as [x|] eqn:E
  end.
  - inversion H; subst x. clear H.
    apply rmatch_group in E as (tag & r1 & E1 & Lt & E); [|reflexivity].
    apply T in E as (sp & body & rest' & E2 & Hb & E). inversion E; subst rest' c.
    unfold Plus in Lt. apply lang_cat in Lt as (t1 & t2 & -> & Lt1 & Lt2).
    apply lang_class in Lt1 as (a & -> & Ha). apply lang_star_class in Lt2.
    exists (a :: t2), sp, body. repeat split.
    + rewrite E0, E1, E2. reflexivity.
    + constructor; assumption.
    + exact Hb.
  - apply T in H as (sp & body & rest' & E2 & Hb & H). inversion H; subst rest' c.
    exists [], sp, body. repeat split.
    + rewrite E0, E2. reflexivity.
    + constructor.
    + exact Hb.
Qed.

(** A lazy star over any character stops at the first place where its
    continuation succeeds. *)
Lemma lazy_any_first : forall (k : cont) fuel s c res,
  star_loop (rmatch (Class any_char)) lazy k fuel s c = Some res ->
  exists m rest,
    s = m ++ rest /\ k rest c = Some res
    /\ forall m1 x m2, m = m1 ++ x :: m2 -> k (x :: m2 ++ rest) c = None.
Proof.
  intros k. induction fuel as [|fuel IH]; intros s c res H; simpl in H.
  - exists [], s. repeat split; [exact H|].
    intros [|y m1] x m2 E; discriminate E.
  - destruct (k s c) as [y|] eqn:E.
    + inversion H; subst y. exists [], s. repeat split; [exact E|].
      intros [|z m1] x m2 E'; discriminate E'.
    + destruct s as [|x s']; [discriminate|].
      cbn [any_char] in H.
      destruct (Nat.ltb (length s') (length (x :: s'))); [|discriminate].
      apply IH in H as (m & rest & -> & Hk & Hfirst).
      exists (x :: m), rest. repeat split; [exact Hk|].
      intros [|z m1] y m2 E'.
      * simpl in E'. inversion E'; subst y m2. exact E.
      * simpl in E'. inversion E'; subst z. apply (Hfirst m1 y m2). assumption.
Qed.

(** A match of the pattern of embedded Python code: group 2, the code, runs
    up to the first double quote, so that it holds none. *)
Lemma json_python_match : forall s adv rest c,
  match_here json_python_pattern s adv = Some (rest, c) ->
  exists prefix python_code,
    s = prefix ++ python_code ++ [DQUOTE] ++ rest
    /\ c = [(3, [DQUOTE]); (2, python_code); (1, prefix)]
    /\ ~ In DQUOTE python_code.
Proof.
  intros s adv rest c H. unfold match_here, json_python_pattern in H.
  rewrite rmatch_cat in H.
  apply rmatch_group in H as (m1 & r1 & E1 & L1 & H); [|reflexivity].
  rewrite rmatch_cat, rmatch_group_unfold, rmatch_star_unfold in H.
  apply lazy_any_first in H as (code & r2 & E2 & H & Hfirst).
  rewrite E2 in H. rewrite firstn_matched in H.
  rewrite rmatch_group_unfold, rmatch_lit_char in H.
  destruct r2 as [|q r3]; [discriminate|].
  destruct (Ascii.eqb q DQUOTE) eqn:Q; [|discriminate].
  apply Ascii.eqb_eq in Q. subst q.
  apply final_some in H.
  replace (length r3 - length r3) with 0 in H by lia.
  assert (F : firstn (S (length r3) - length r3) (DQUOTE :: r3) = [DQUOTE]).
  { replace (S (length r3) - length r3) with 1 by lia. reflexivity. }
  simpl length in H. rewrite F in H. inversion H; subst rest c. clear H.
  exists m1, code. repeat split.
  - rewrite E1, E2. reflexivity.
  - intro Hin. apply in_split in Hin as (a & b & ->).
    specialize (Hfirst a DQUOTE b eq_refl). simpl in Hfirst.
    destruct (adv && Nat.eqb (length (b ++ DQUOTE :: r3)) (length s)) eqn:A;
      [|discriminate].
    apply andb_true_iff in A as [_ A]. apply Nat.eqb_eq in A.
    rewrite E1, E2 in A. repeat (rewrite length_app in A; simpl in A). lia.
Qed.

End PatternMatches.

(* ================================================================== *)
(** * Further facts about text *)

Section MoreTextFacts.

Lemma dropwhile_suffix : forall f s,
  exists p, s = p ++ Str.dropwhile f s /\ Forall (fun x => f x = true) p.
Proof.
  intros f s. induction s as [|x s IH]; simpl.
  - exists []. split; [reflexivity | constructor].
  - destruct (f x) eqn:E.
    + destruct IH as (p & Ep & Fp). exists (x :: p). split.
      * simpl. rewrite <- Ep. reflexivity.
      * constructor; assumption.
    + exists []. split; [reflexivity | constructor].
Qed.

Lemma dropwhile_head : forall f s x t, Str.dropwhile f s = x :: t -> f x = false.
Proof.
  intros f s. induction s as [|y s IH]; intros x t H; simpl in H; [discriminate|].
  destruct (f y) eqn:E; [exact (IH _ _ H)|]. inversion H; subst. exact E.
Qed.

Lemma dropwhile_id : forall f s,
  (forall x t, s = x :: t -> f x = false) -> Str.dropwhile f s = s.
Proof.
  intros f [|x s] H; simpl; [reflexivity|].
  rewrite (H x s eq_refl). reflexivity.
Qed.

Lemma in_dropwhile : forall f s x, In x (Str.dropwhile f s) -> In x s.
Proof.
  intros f s x H. destruct (dropwhile_suffix f s) as (p & E & _).
  rewrite E. apply in_or_app. right. exact H.
Qed.

Lemma in_strip : forall s x, In x (Str.strip s) -> In x s.
Proof.
  intros s x H. unfold Str.strip, Str.rstrip, Str.lstrip in H.
  apply in_rev in H. apply in_dropwhile in H. apply in_rev in H.
  apply in_dropwhile in H. exact H.
Qed.

(** strip leaves no white space at either end. *)
Lemma strip_idem : forall s, Str.strip (Str.strip s) = Str.strip s.
Proof.
  intro s. unfold Str.strip, Str.rstrip, Str.lstrip.
  set (u := Str.dropwhile Str.is_space s).
  set (d := Str.dropwhile Str.is_space (rev u)).
  assert (Hl : Str.dropwhile Str.is_space (rev d) = rev d).
  { apply dropwhile_id. intros y t E.
    destruct (dropwhile_suffix Str.is_space (rev u)) as (p & Ep & _).
    fold d in Ep. apply (f_equal (@rev ascii)) in Ep.
    rewrite rev_involutive, rev_app_distr, E in Ep. simpl in Ep.
    apply (dropwhile_head Str.is_space s (x := y) (t := t ++ rev p)). exact Ep. }
  rewrite Hl, rev_involutive. f_equal.
  apply dropwhile_id. intros z t E. apply (dropwhile_head _ _ E).
Qed.

(** A line that strips to nothing is made of white space. *)
Lemma strip_nil_blank : forall s,
  Str.strip s = [] -> Forall (fun x => Str.is_space x = true) s.
Proof.
  intros s H. unfold Str.strip, Str.rstrip, Str.lstrip in H.
  set (u := Str.dropwhile Str.is_space s) in *.
  assert (D : Str.dropwhile Str.is_space (rev u) = []).
  { apply (f_equal (@rev ascii)) in H. rewrite rev_involutive in H. exact H. }
  destruct (dropwhile_suffix Str.is_space (rev u)) as (p & Ep & Fp).
  rewrite D, app_nil_r in Ep. subst p.
  assert (U : u = []).
  { destruct u as [|z t] eqn:E; [reflexivity|].
    pose proof (dropwhile_head Str.is_space s E) as Z.
    rewrite Forall_forall in Fp. rewrite (Fp z) in Z; [discriminate|].
    apply -> in_rev. left. reflexivity. }
  destruct (dropwhile_suffix Str.is_space s) as (p & Ep & Fp').
  fold u in Ep. rewrite U, app_nil_r in Ep. subst p. exact Fp'.
Qed.

Lemma contains_char : forall x s, Str.contains [x] s = true <-> In x s.
Proof.
  intros x s. induction s as [|y s IH]; simpl.
  - split; [discriminate | intros []].
  - rewrite andb_true_r, orb_true_iff, IH, Ascii.eqb_eq. split; intros [H|H]; auto.
Qed.

Lemma contains_infix : forall p pre m post,
  Str.contains p m = true -> Str.contains p (pre ++ m ++ post) = true.
Proof.
  intros p pre m post H. apply contains_true in H as (a & b & ->).
  replace (pre ++ (a ++ p ++ b) ++ post) with ((pre ++ a) ++ p ++ (b ++ post))
    by (rewrite <- !app_assoc; reflexivity).
  apply contains_app.
Qed.

Lemma contains_false_tail : forall p x s,
  Str.contains p (x :: s) = false ->
  Str.startswith p (x :: s) = false /\ Str.contains p s = false.
Proof. intros p x s H. simpl in H. apply orb_false_iff in H. exact H. Qed.

(** str.replace changes nothing where the old text does not occur. *)
Lemma replace_absent : forall o old new s,
  Str.contains (o :: old) s = false -> Str.replace (o :: old) new s = s.
Proof.
  intros o old new s. unfold Str.replace.
  induction s as [|x s IH]; intro H; [reflexivity|].
  apply contains_false_tail in H as [H1 H2].
  cbn [Str.replace_from]. rewrite H1, (IH H2). reflexivity.
Qed.

Lemma split_nonempty : forall c s, Str.split_char c s <> [].
Proof.
  intros c s. induction s as [|x s IH]; simpl; [discriminate|].
  destruct (Ascii.eqb x c); [discriminate|].
  destruct (Str.split_char c s); discriminate.
Qed.

(** Splitting at a character and joining with it gives the text back. *)
Lemma join_split : forall c s, Str.join [c] (Str.split_char c s) = s.
Proof.
  intros c s. induction s as [|x s IH]; simpl; [reflexivity|].
  pose proof (split_nonempty c s) as N.
  destruct (Ascii.eqb x c) eqn:E.
  - apply Ascii.eqb_eq in E. subst x.
    destruct (Str.split_char c s) as [|l ls]; [contradiction|].
    change (Str.join [c] ([] :: l :: ls)) with (c :: Str.join [c] (l :: ls)).
    rewrite IH. reflexivity.
  - destruct (Str.split_char c s) as [|l ls]; [contradiction|].
    destruct ls; simpl in *; rewrite IH; reflexivity.
Qed.

Lemma split_no_sep : forall c l, ~ In c l -> Str.split_char c l = [l].
Proof.
  intros c l. induction l as [|x l IH]; intro H; simpl; [reflexivity|].
  destruct (Ascii.eqb x c) eqn:E.
  - apply Ascii.eqb_eq in E. subst x. exfalso. apply H. left. reflexivity.
  - rewrite IH; [reflexivity|]. intro F. apply H. right. exact F.
Qed.

Lemma split_app_sep : forall c l t,
  ~ In c l -> Str.split_char c (l ++ c :: t) = l :: Str.split_char c t.
Proof.
  intros c l t. induction l as [|x l IH]; intro H; simpl.
  - rewrite Ascii.eqb_refl. reflexivity.
  - destruct (Ascii.eqb x c) eqn:E.
    + apply Ascii.eqb_eq in E. subst x. exfalso. apply H. left. reflexivity.
    + rewrite IH; [reflexivity|]. intro F. apply H. right. exact F.
Qed.

(** Joining lines and splitting them again gives the lines back. *)
Lemma split_join : forall c ls,
  ls <> [] -> Forall (fun l => ~ In c l) ls ->
  Str.split_char c (Str.join [c] ls) = ls.
Proof.
  intros c ls. induction ls as [|l ls IH]; intros N F; [contradiction|].
  inversion F as [|? ? Hl F']; subst.
  destruct ls as [|l2 ls].
  - simpl. apply split_no_sep. exact Hl.
  - change (Str.join [c] (l :: l2 :: ls)) with (l ++ c :: Str.join [c] (l2 :: ls)).
    rewrite split_app_sep; [|exact Hl]. rewrite IH; [reflexivity|discriminate|exact F'].
Qed.

Lemma startswith_longer : forall p u b,
  length p <= length u -> Str.startswith p (u ++ b) = Str.startswith p u.
Proof.
  induction p as [|x p IH]; intros u b H; [reflexivity|].
  destruct u as [|y u]; [simpl in H; lia|]. simpl.
  rewrite IH; [reflexivity|]. simpl in H. lia.
Qed.

Lemma before_first_prefix : forall p s,
  Str.startswith p s = true -> Str.before_first p s = [].
Proof. intros p s H. destruct s; simpl; rewrite H; reflexivity. Qed.

(** What comes before the first occurrence of [p] does not depend on what
    follows an occurrence of [p]. *)
Lemma before_first_app : forall p x b b',
  Str.before_first p (x ++ p ++ b) = Str.before_first p (x ++ p ++ b').
Proof.
  intros p x b b'. induction x as [|y x IH].
  - simpl. rewrite (before_first_prefix p (p ++ b) (startswith_app p b)).
    rewrite (before_first_prefix p (p ++ b') (startswith_app p b')). reflexivity.
  - assert (E : Str.startswith p ((y :: x) ++ p ++ b)
               = Str.startswith p ((y :: x) ++ p ++ b')).
    { assert (Hlen : length p <= length ((y :: x) ++ p))
        by (rewrite length_app; lia).
      rewrite !app_assoc.
      rewrite (startswith_longer p _ b Hlen), (startswith_longer p _ b' Hlen).
      reflexivity. }
    simpl app in *. cbn [Str.before_first]. rewrite E, IH. reflexivity.
Qed.

Lemma contains_before_first : forall p s,
  Str.contains p s = false -> Str.before_first p s = s.
Proof.
  intros p s. induction s as [|x s IH]; intro H.
  - simpl in *. apply orb_false_iff in H as [H _]. rewrite H. reflexivity.
  - apply contains_false_tail in H as [H1 H2]. cbn [Str.before_first].
    rewrite H1, (IH H2). reflexivity.
Qed.

End MoreTextFacts.

(* ================================================================== *)
(** * Further properties of the fixer *)

Section FixerProperties.
Import Re Props Fixer.

Lemma inserted_app : forall h P m o r,
  inserted h P o r -> inserted h P (m ++ o) (m ++ r).
Proof.
  intros h P m o r H. induction m as [|x m IH]; simpl; [exact H|].
  apply Ins_keep. exact IH.
Qed.

(** Two rewrites that agree on every hit give the same text. *)
Lemma scan_sub_ext : forall (r : regex) (f g : mobj -> text) (s0 : text),
  (forall pre m rest adv c pos,
      s0 = pre ++ m ++ rest ->
      match_here r (m ++ rest) adv = Some (rest, c) ->
      f (Mobj pos (pos + length m) m c) = g (Mobj pos (pos + length m) m c)) ->
  forall fuel pos s adv pre,
    s0 = pre ++ s ->
    flat_map (fun x => match x with
                       | Skip a => [a]
                       | Hit m => f m
                       end) (scan r fuel pos s adv)
    = flat_map (fun x => match x with
                         | Skip a => [a]
                         | Hit m => g m
                         end) (scan r fuel pos s adv).
Proof.
  intros r f g s0 Hfg. induction fuel as [|fuel IH]; intros pos s adv pre E; simpl.
  - rewrite !flat_map_skip; reflexivity.
  - destruct (match_here r s adv) as [[rest c]|] eqn:M.
    + pose proof M as M'. apply match_here_sound in M' as (m & -> & L & _).
      rewrite length_app, Nat.add_sub. rewrite firstn_app, Nat.sub_diag, firstn_all.
      simpl firstn. rewrite app_nil_r. cbn [flat_map].
      rewrite (Hfg pre m rest adv c pos E M). f_equal.
      apply (IH _ _ _ (pre ++ m)). rewrite E, <- app_assoc. reflexivity.
    + destruct s as [|x s]; [reflexivity|]. cbn [flat_map]. f_equal.
      apply (IH _ _ _ (pre ++ [x])). rewrite E, <- app_assoc. reflexivity.
Qed.

Lemma in_replace_from : forall old new s k x,
  In x (Str.replace_from old new s k) -> In x s \/ In x new.
Proof.
  intros old new s. induction s as [|y s IH]; intros k x H; simpl in H; [contradiction|].
  destruct k as [|k].
  - destruct (Str.startswith old (y :: s)).
    + apply in_app_or in H as [H|H]; [right; exact H|].
      apply IH in H as [H|H]; [left; right; exact H | right; exact H].
    + destruct H as [H|H]; [left; left; exact H|].
      apply IH in H as [H|H]; [left; right; exact H | right; exact H].
  - apply IH in H as [H|H]; [left; right; exact H | right; exact H].
Qed.

(** What fix_embedded_python returns for a match: the quote-escaping
    replace finds no quote in the captured code. *)
Lemma fix_embedded_python_on_match : forall s adv rest c pos (m : text),
  match_here json_python_pattern s adv = Some (rest, c) ->
  s = m ++ rest ->
  exists prefix python_code,
    m = prefix ++ python_code ++ [DQUOTE]
    /\ ~ In DQUOTE python_code
    /\ fix_embedded_python (Mobj pos (pos + length m) m c)
       = prefix
           ++ Str.replace [BACKSLASH; "n"%char] [BACKSLASH; BACKSLASH; "n"%char] python_code
           ++ [DQUOTE]
    /\ escape_newlines_only (Mobj pos (pos + length m) m c)
       = prefix
           ++ Str.replace [BACKSLASH; "n"%char] [BACKSLASH; BACKSLASH; "n"%char] python_code
           ++ [DQUOTE].
Proof.
  intros s adv rest c pos m M E.
  apply json_python_match in M as (prefix & code & Es & -> & Hq).
  exists prefix, code.
  assert (Em : m = prefix ++ code ++ [DQUOTE]).
  { rewrite E in Es. replace (prefix ++ code ++ [DQUOTE] ++ rest)
      with ((prefix ++ code ++ [DQUOTE]) ++ rest) in Es
      by (rewrite <- !app_assoc; reflexivity).
    apply app_inv_tail in Es. exact Es. }
  split; [exact Em | split; [exact Hq | split; [|reflexivity]]].
  unfold fix_embedded_python, group_or_empty, group. cbn [m_caps lookup Nat.eqb].
  f_equal. f_equal. apply replace_absent.
  destruct (Str.contains [DQUOTE]
              (Str.replace [BACKSLASH; "n"%char] [BACKSLASH; BACKSLASH; "n"%char] code))
    eqn:C; [|reflexivity].
  exfalso. apply contains_char in C. unfold Str.replace in C.
  apply in_replace_from in C as [C|C]; [exact (Hq C)|].
  destruct C as [C|[C|[C|[]]]]; discriminate C.
Qed.

(** Without a backslash-n in the text, no match of the pattern is
    changed. *)
Lemma embedded_python_identity : forall content,
  Str.contains [BACKSLASH; "n"%char] content = false ->
  fix_python_indentation_in_json content = content.
Proof.
  intros content H. unfold fix_python_indentation_in_json, re_sub_fn, scan_all.
  apply (@scan_sub_rel json_python_pattern (fun o o' => o' = o)
           fix_embedded_python content) with (pre := []);
    [reflexivity | intros x o o' ->; reflexivity | | reflexivity].
  intros pre m rest adv c pos o o' E M ->. f_equal.
  destruct (@fix_embedded_python_on_match (m ++ rest) adv rest c pos m M eq_refl)
    as (prefix & code & Em & _ & F1 & _).
  rewrite F1, Em. f_equal. f_equal. apply replace_absent.
  destruct (Str.contains [BACKSLASH; "n"%char] code) eqn:C; [|reflexivity].
  rewrite <- H. symmetry. rewrite E, Em.
  replace (pre ++ (prefix ++ code ++ [DQUOTE]) ++ rest)
    with ((pre ++ prefix) ++ code ++ ([DQUOTE] ++ rest))
    by (rewrite <- !app_assoc; reflexivity).
  apply contains_infix. exact C.
Qed.


End FixerProperties.

(** X1: fix_curl_headers only inserts: its result is the text it was given
    with copies of the Content-Type header put in, each right in front of
    a data argument -d '{; no character of the document is removed or
    changed. *)
Theorem X1_fix_curl_headers_only_inserts : forall content,
  Props.inserted Fixer.content_type_header
    (fun r => Str.startswith (txt "-d '{") r = true)
    content (Fixer.fix_curl_headers content).
Proof.
  intro content. unfold Fixer.fix_curl_headers, Re.re_sub_fn, Re.scan_all.
  apply (@scan_sub_rel Fixer.curl_pattern
           (Props.inserted Fixer.content_type_header
              (fun r => Str.startswith (txt "-d '{") r = true))
           Fixer.add_content_type content) with (pre := []);
    [constructor | intros; apply Props.Ins_keep; assumption | | reflexivity].
  intros pre m rest adv c pos o o' E M R.
  apply curl_match in M as (mid & body & Es & -> & _ & _).
  rewrite <- app_assoc in Es. rewrite (app_assoc _ _ rest) in Es.
  rewrite app_assoc in Es. apply app_inv_tail in Es. subst m.
  unfold Fixer.add_content_type, Re.group_or_empty, Re.group.
  cbn [Re.m_caps Re.m_text Re.lookup Nat.eqb].
  destruct (Str.contains (txt "Content-Type:") (txt "curl -X POST" ++ mid)).
  - apply inserted_app. exact R.
  - rewrite <- !app_assoc. apply inserted_app. apply inserted_app.
    apply Props.Ins_here.
    + apply startswith_app.
    + change (txt "-d '{" ++ body ++ txt "}'" ++ o)
        with (txt "-d '{" ++ (body ++ txt "}'" ++ o)).
      apply inserted_app. apply inserted_app. apply inserted_app. exact R.
Qed.

(** X2: the second replace of fix_embedded_python, the one that escapes
    double quotes, never changes anything: the code that the pattern
    captures ends at the first double quote and so holds none.  The
    rewrite is the one that only doubles the backslash of backslash-n. *)
Theorem X2_quote_escaping_never_fires : forall content,
  Fixer.fix_python_indentation_in_json content
  = Re.re_sub_fn Fixer.json_python_pattern Props.escape_newlines_only content.
Proof.
  intro content. unfold Fixer.fix_python_indentation_in_json, Re.re_sub_fn, Re.scan_all.
  apply (@scan_sub_ext Fixer.json_python_pattern Fixer.fix_embedded_python
           Props.escape_newlines_only content) with (pre := []); [|reflexivity].
  intros pre m rest adv c pos E M.
  destruct (@fix_embedded_python_on_match (m ++ rest) adv rest c pos m M eq_refl)
    as (prefix & code & _ & _ & F1 & F2).
  rewrite F1, F2. reflexivity.
Qed.

(** X3: on a text that holds no backslash followed by n, the rewrite of
    embedded Python code changes nothing. *)
Theorem X3_embedded_python_untouched_without_escapes : forall content,
  Str.contains [BACKSLASH; "n"%char] content = false ->
  Fixer.fix_python_indentation_in_json content = content.
Proof. exact embedded_python_identity. Qed.

Lemma X3_embedded_python_untouched_without_escapes_witness :
  Fixer.fix_python_indentation_in_json
    ([DQUOTE] ++ txt "python_code" ++ [DQUOTE] ++ txt ": " ++ [DQUOTE] ++ txt "print(1)"
       ++ [DQUOTE])
  = [DQUOTE] ++ txt "python_code" ++ [DQUOTE] ++ txt ": " ++ [DQUOTE] ++ txt "print(1)"
      ++ [DQUOTE].
Proof.
  apply X3_embedded_python_untouched_without_escapes. vm_compute. reflexivity.
Defined.

(** X4: a file whose text holds neither curl -X POST nor a backslash
    followed by n goes through the three rewrites unchanged, and
    process_file does not write it back and returns False. *)
Theorem X4_fixer_leaves_plain_files_alone : forall content,
  Str.contains (txt "curl -X POST") content = false ->
  Str.contains [BACKSLASH; "n"%char] content = false ->
  Fixer.apply_fixes content = content
  /\ Fixer.process_file (Some content) = (None, false).
Proof.
  intros content Hc Hn.
  assert (A : Fixer.apply_fixes content = content).
  { unfold Fixer.apply_fixes.
    assert (F1 : Fixer.fix_curl_headers content = content).
    { unfold Fixer.fix_curl_headers. apply re_sub_fn_no_match. intros pre t a E.
      destruct (Re.match_here Fixer.curl_pattern t a) as [[rest c]|] eqn:M;
        [|reflexivity].
      exfalso. apply curl_match in M as (mid & body & -> & _).
      rewrite E in Hc. rewrite <- !app_assoc in Hc.
      rewrite contains_app in Hc. discriminate. }
    rewrite F1.
    assert (F2 : Fixer.fix_json_formatting content = content).
    { unfold Fixer.fix_json_formatting, Fixer.backslash_t_pattern,
        Fixer.backslash_n_pattern.
      rewrite (@re_sub_same_literal [BACKSLASH; "n"%char]); [|intro h; reflexivity].
      rewrite (@re_sub_same_literal [BACKSLASH; "t"%char]); [|intro h; reflexivity].
      reflexivity. }
    rewrite F2. apply embedded_python_identity. exact Hn. }
  split; [exact A|]. unfold Fixer.process_file. rewrite A, eqb_refl. reflexivity.
Qed.

Lemma X4_fixer_leaves_plain_files_alone_witness :
  Fixer.process_file (Some (txt "# Storage" ++ [LF] ++ txt "Use `curl` to upload a file."))
  = (None, false).
Proof.
  apply X4_fixer_leaves_plain_files_alone; vm_compute; reflexivity.
Defined.

(* ================================================================== *)
(** * Further properties of the validator: code blocks *)

Section BlockProperties.
Import Re Props Validator.

Lemma Forall_flat_map : forall (A B : Type) (P : B -> Prop) (f : A -> list B) l,
  Forall (fun a => Forall P (f a)) l -> Forall P (flat_map f l).
Proof.
  intros A B P f l H. induction H as [|a l Ha H IH]; simpl; [constructor|].
  apply Forall_app. split; assumption.
Qed.

(** The block that a match of the pattern gives, if any. *)
Lemma block_of_hit : forall s adv rest c pos (m : text),
  match_here block_pattern s adv = Some (rest, c) ->
  s = m ++ rest ->
  6 <= length m
  /\ Str.startswith (txt "```") m = true
  /\ exists tag body,
       Forall (fun a => is_word a = true) tag
       /\ ~ In "`"%char body
       /\ block_of_match (Mobj pos (pos + length m) m c)
          = if Str.nonempty (Str.strip body)
            then [ {| language := match tag with
                                  | [] => txt "text"
                                  | _ :: _ => tag
                                  end;
                      code := Str.strip body;
                      start_pos := pos; end_pos := pos + length m |} ]
            else [].
Proof.
  intros s adv rest c pos m M E.
  apply block_match in M as (tag & sp & body & Es & Ft & Hb & ->).
  assert (Em : m = txt "```" ++ tag ++ sp ++ body ++ txt "```").
  { rewrite E in Es.
    replace (txt "```" ++ tag ++ sp ++ body ++ txt "```" ++ rest)
      with ((txt "```" ++ tag ++ sp ++ body ++ txt "```") ++ rest) in Es
      by (rewrite <- !app_assoc; reflexivity).
    apply app_inv_tail in Es. exact Es. }
  split; [|split].
  - rewrite Em. rewrite !length_app. change (length (txt "```")) with 3. lia.
  - rewrite Em. apply startswith_app.
  - exists tag, body. split; [exact Ft | split; [exact Hb|]].
    unfold block_of_match, group_or_empty, group.
    destruct tag as [|t tag]; reflexivity.
Qed.

Lemma blocks_in_order_weaken : forall bs lo lo',
  lo' <= lo -> blocks_in_order lo bs -> blocks_in_order lo' bs.
Proof.
  intros [|b bs] lo lo' H; simpl; [trivial|].
  intros (A & B & C). repeat split; [lia | exact B | exact C].
Qed.

Lemma blocks_of_hits_in_order : forall (P : code_block -> Prop) l lo,
  Forall (fun h =>
            6 <= length (m_text h)
            /\ forall b, In b (block_of_match h) ->
                  start_pos b = m_start h /\ end_pos b = m_end h /\ P b) l ->
  hits_in_order lo l ->
  blocks_in_order lo (flat_map block_of_match l)
  /\ Forall P (flat_map block_of_match l).
Proof.
  intros P l. induction l as [|h l IH]; intros lo Q O; simpl.
  - split; [exact I | constructor].
  - inversion Q as [|? ? [L6 Hh] Q']; subst. destruct O as (O1 & O2 & O3).
    destruct (IH _ Q' O3) as (IH1 & IH2).
    destruct (block_of_match h) as [|b [|b' bs]] eqn:B.
    + simpl. split; [|exact IH2].
      apply blocks_in_order_weaken with (lo := m_end h); [lia | exact IH1].
    + destruct (Hh b (or_introl eq_refl)) as (Hs & He & Hp).
      simpl. split.
      * repeat split; [lia | lia |]. rewrite He. exact IH1.
      * constructor; [exact Hp | exact IH2].
    + exfalso. unfold block_of_match in B.
      destruct (Str.nonempty _); discriminate B.
Qed.

End BlockProperties.

(** X5: every block that extract_code_blocks returns has a body that is
    not empty, holds no back-tick and has no white space at either end,
    and a language tag that is not empty and made of word characters. *)
Theorem X5_blocks_are_trimmed_and_tagged : forall content,
  Forall (fun b =>
            Validator.code b <> []
            /\ ~ In "`"%char (Validator.code b)
            /\ Str.strip (Validator.code b) = Validator.code b
            /\ Validator.language b <> []
            /\ Forall (fun a => Validator.is_word a = true) (Validator.language b))
         (Validator.extract_code_blocks content).
Proof.
  intro content. unfold Validator.extract_code_blocks, Re.re_finditer, Re.scan_all.
  apply Forall_flat_map.
  apply (@scan_hits_props Validator.block_pattern _ content) with (pre := []);
    [|reflexivity].
  intros pre m rest adv c E M.
  destruct (@block_of_hit (m ++ rest) adv rest c (length pre) m M eq_refl)
    as (_ & _ & tag & body & Ft & Hb & ->).
  destruct (Str.nonempty (Str.strip body)) eqn:N; [|constructor].
  constructor; [|constructor]. cbn [Validator.code Validator.language].
  split; [|split; [|split; [|split]]].
  - intro Z. rewrite Z in N. discriminate.
  - intro H. apply Hb. apply in_strip. exact H.
  - apply strip_idem.
  - destruct tag; discriminate.
  - destruct tag as [|t tag]; [|exact Ft].
    repeat constructor.
Qed.

(** X6: the blocks come in the order of the document and do not overlap:
    each starts at or after the end of the one before, spans at least the
    six back-ticks of its fences, ends inside the document, and the text at
    its start offset begins with three back-ticks. *)
Theorem X6_blocks_follow_the_document : forall content,
  Props.blocks_in_order 0 (Validator.extract_code_blocks content)
  /\ Forall (fun b =>
               Validator.end_pos b <= length content
               /\ Str.startswith (txt "```") (skipn (Validator.start_pos b) content) = true)
            (Validator.extract_code_blocks content).
Proof.
  intro content. unfold Validator.extract_code_blocks, Re.re_finditer, Re.scan_all.
  assert (Q : Forall (fun h =>
                        6 <= length (Re.m_text h)
                        /\ forall b, In b (Validator.block_of_match h) ->
                             Validator.start_pos b = Re.m_start h
                             /\ Validator.end_pos b = Re.m_end h
                             /\ (Validator.end_pos b <= length content
                                 /\ Str.startswith (txt "```")
                                      (skipn (Validator.start_pos b) content) = true))
                     (Re.hits (Re.scan Validator.block_pattern (Re.scan_fuel content)
                                 0 content false))).
  { apply (@scan_hits_props Validator.block_pattern _ content) with (pre := []);
      [|reflexivity].
    intros pre m rest adv c E M.
    destruct (@block_of_hit (m ++ rest) adv rest c (length pre) m M eq_refl)
      as (L6 & S3 & tag & body & _ & _ & B).
    split; [exact L6|]. intros b Hb. rewrite B in Hb.
    destruct (Str.nonempty (Str.strip body)); [|contradiction].
    destruct Hb as [<-|[]]. cbn [Validator.start_pos Validator.end_pos Re.m_start Re.m_end].
    repeat split.
    - rewrite E, !length_app. lia.
    - rewrite E, skipn_app_exact.
      apply startswith_true in S3 as (x & ->). rewrite <- app_assoc.
      apply startswith_app. }
  apply blocks_of_hits_in_order; [exact Q | apply scan_hits_in_order].
Qed.

(* ================================================================== *)
(** * The curl commands of a document *)

Section CurlProperties.
Import Validator Props.

Lemma startswith_app_r : forall p s t,
  Str.startswith p s = true -> Str.startswith p (s ++ t) = true.
Proof.
  intros p s t H. apply startswith_true in H as [rest ->].
  rewrite <- app_assoc. apply startswith_app.
Qed.

Lemma join_head : forall sep l ls, exists t, Str.join sep (l :: ls) = l ++ t.
Proof.
  intros sep l [|l2 ls].
  - exists []. simpl. symmetry. apply app_nil_r.
  - eexists. reflexivity.
Qed.

Lemma dropwhile_app_keep : forall f a x t,
  f x = false -> exists a', Str.dropwhile f (a ++ x :: t) = a' ++ x :: t.
Proof.
  intros f a x t H. induction a as [|y a IH]; simpl.
  - exists []. rewrite H. reflexivity.
  - destruct (f y); [exact IH|]. exists (y :: a). reflexivity.
Qed.

(** strip keeps a prefix that begins and ends with characters other than
    whitespace. *)
Lemma strip_keeps_prefix : forall p s,
  p <> [] -> Forall (fun c => Str.is_space c = false) p ->
  Str.startswith p s = true -> Str.startswith p (Str.strip s) = true.
Proof.
  intros p s Hne Hp H. apply startswith_true in H as [rest ->].
  unfold Str.strip, Str.lstrip, Str.rstrip.
  rewrite (@dropwhile_id Str.is_space (p ++ rest)).
  2:{ intros x t E. destruct p as [|y p]; [contradiction|].
      inversion E; subst. inversion Hp; subst. assumption. }
  rewrite rev_app_distr.
  destruct (rev p) as [|y q] eqn:R.
  { apply (f_equal (@rev ascii)) in R. rewrite rev_involutive in R.
    simpl in R. contradiction. }
  assert (Hy : Str.is_space y = false).
  { rewrite Forall_forall in Hp. apply Hp. apply in_rev. rewrite R. left. reflexivity. }
  destruct (@dropwhile_app_keep Str.is_space (rev rest) y q Hy) as [a' ->].
  rewrite <- R, rev_app_distr, rev_involutive. apply startswith_app.
Qed.

Lemma curl_prefix_kept : forall s,
  Str.startswith (txt "curl") s = true ->
  Str.startswith (txt "curl") (Str.strip s) = true.
Proof.
  intros s H. apply strip_keeps_prefix; [discriminate | | exact H].
  repeat constructor.
Qed.

Lemma finished_ok : forall b l0 ls,
  Str.startswith (txt "curl") l0 = true ->
  Str.startswith (txt "curl")
    (command {| command := Str.join (txt " ") (l0 :: ls); block := b |}) = true
  /\ block {| command := Str.join (txt " ") (l0 :: ls); block := b |} = b.
Proof.
  intros b l0 ls H. split; [|reflexivity]. cbn [command].
  destruct (@join_head (txt " ") l0 ls) as [t ->]. apply startswith_app_r. exact H.
Qed.

Lemma curl_line_ok : forall b st line,
  curl_state_ok b st -> curl_state_ok b (curl_line b st line).
Proof.
  intros b [cur cmds] line [Hc Hs]. cbn [fst snd] in *. unfold curl_line.
  destruct (Str.startswith (txt "curl") (Str.strip line)) eqn:E.
  - destruct cur as [|l0 ls].
    + split; cbn [fst snd]; [|exact Hs]. right. exists (Str.strip line), [].
      split; [reflexivity | exact E].
    + destruct Hc as [Hc|(a & l & Hc & Ha)]; [discriminate|].
      inversion Hc; subst a l.
      split; cbn [fst snd].
      * right. exists (Str.strip line), []. split; [reflexivity | exact E].
      * apply Forall_app. split; [exact Hs|]. constructor; [|constructor].
        apply finished_ok. exact Ha.
  - destruct cur as [|l0 ls].
    + split; cbn [fst snd]; [left; reflexivity | exact Hs].
    + destruct Hc as [Hc|(a & l & Hc & Ha)]; [discriminate|].
      inversion Hc; subst a l.
      destruct (Str.startswith (txt "-") (Str.strip line)
                || Str.startswith [DQUOTE] (Str.strip line)
                || Str.contains [BACKSLASH] (Str.strip line)).
      * split; cbn [fst snd]; [|exact Hs]. right.
        exists l0, (ls ++ [Str.strip line]). split; [reflexivity | exact Ha].
      * split; cbn [fst snd]; [left; reflexivity|].
        apply Forall_app. split; [exact Hs|]. constructor; [|constructor].
        apply finished_ok. exact Ha.
Qed.

Lemma curl_lines_ok : forall b lines st,
  curl_state_ok b st -> curl_state_ok b (fold_left (curl_line b) lines st).
Proof.
  intros b lines. induction lines as [|l lines IH]; intros st H; cbn [fold_left].
  - exact H.
  - apply IH. apply curl_line_ok. exact H.
Qed.

Lemma commands_of_block_ok : forall b,
  Forall (fun c => Str.startswith (txt "curl") (command c) = true
                   /\ block c = b /\ is_shell (language b) = true)
         (curl_commands_of_block b).
Proof.
  intro b. unfold curl_commands_of_block.
  destruct (is_shell (language b)) eqn:S; [|constructor].
  assert (H0 : curl_state_ok b ([], [])).
  { split; cbn [fst snd]; [left; reflexivity | constructor]. }
  pose proof (@curl_lines_ok b (Str.split_char LF (code b)) _ H0) as H.
  destruct (fold_left (curl_line b) (Str.split_char LF (code b)) ([], []))
    as [cur cmds].
  destruct H as [Hc Hs]. cbn [fst snd] in *.
  assert (Hs' : Forall (fun c => Str.startswith (txt "curl") (command c) = true
                                 /\ block c = b /\ true = true) cmds).
  { eapply Forall_impl; [|exact Hs]. intros c [A B]. repeat split; assumption. }
  destruct cur as [|l0 ls]; [exact Hs'|].
  apply Forall_app. split; [exact Hs'|]. constructor; [|constructor].
  destruct Hc as [Hc|(a & l & Hc & Ha)]; [discriminate|].
  inversion Hc; subst a l.
  destruct (@finished_ok b l0 ls Ha) as [A B]. repeat split; assumption.
Qed.

(** Continuation lines are appended to the command being collected. *)
Lemma continuation_lines : forall b ls l0 cur cmds,
  Forall (fun l => continuation l = true) ls ->
  fold_left (curl_line b) ls (l0 :: cur, cmds)
  = (l0 :: cur ++ map Str.strip ls, cmds).
Proof.
  intros b ls. induction ls as [|l ls IH]; intros l0 cur cmds F; cbn [fold_left map].
  - rewrite app_nil_r. reflexivity.
  - inversion F as [|? ? Hl F']; subst.
    unfold continuation in Hl. apply andb_true_iff in Hl as [N C].
    apply negb_true_iff in N.
    unfold curl_line at 2. rewrite N, C.
    change ((l0 :: cur) ++ [Str.strip l]) with (l0 :: (cur ++ [Str.strip l])).
    rewrite (IH l0 (cur ++ [Str.strip l]) cmds F'), <- app_assoc. reflexivity.
Qed.

(** The warnings that one command can add. *)
Lemma curl_step_warnings : forall fn v c,
  errors (curl_step fn v c) = errors v
  /\ auth_token (curl_step fn v c) = auth_token v
  /\ validated_examples (curl_step fn v c) = validated_examples v
  /\ exists ws, warnings (curl_step fn v c) = warnings v ++ ws
                /\ length ws <= if mentions_api c then 3 else 0.
Proof.
  intros fn v c. unfold curl_step, mentions_api.
  destruct (negb (Str.startswith (txt "curl") (Str.strip (command c)))).
  { repeat split. exists []. rewrite app_nil_r. split; [reflexivity|].
    destruct (Str.contains _ _); simpl; lia. }
  destruct (Str.contains (txt "api.lyceum.technology") (command c)); cbn [andb].
  - repeat match goal with
           | |- context [if ?b then _ else _] =>
               match b with
               | true => fail 1
               | _ => destruct b
               end
           end; cbn [add_warning errors auth_token validated_examples warnings];
      repeat split;
      repeat rewrite <- app_assoc;
      (eexists; split; [reflexivity | simpl; lia])
      || (exists []; rewrite app_nil_r; split; [reflexivity | simpl; lia]).
  - rewrite !andb_false_r. repeat split. exists []. rewrite app_nil_r.
    split; [reflexivity | simpl; lia].
Qed.

End CurlProperties.

(** X7: every command that extract_curl_commands returns starts with the
    word curl, also after strip, and belongs to a block of the document
    whose language tag is bash, shell or curl.  The first test of
    validate_curl_commands, which skips a command that does not start with
    curl, therefore never skips an extracted command. *)
Theorem X7_extracted_commands_start_with_curl : forall content,
  Forall (fun c =>
            Str.startswith (txt "curl") (Validator.command c) = true
            /\ Str.startswith (txt "curl") (Str.strip (Validator.command c)) = true
            /\ In (Validator.block c) (Validator.extract_code_blocks content)
            /\ Validator.is_shell (Validator.language (Validator.block c)) = true)
         (Validator.extract_curl_commands content).
Proof.
  intro content. unfold Validator.extract_curl_commands.
  apply Forall_flat_map. apply Forall_forall. intros b Hb.
  eapply Forall_impl; [|apply commands_of_block_ok].
  intros c (A & B & S). rewrite B.
  repeat split; [exact A | apply curl_prefix_kept; exact A | exact Hb | exact S].
Qed.

(** X8: in a block tagged bash, shell or curl, a line that starts with
    curl (after strip) followed to the end of the block by continuation
    lines (lines that after strip start with a dash or a double quote or
    hold a backslash, and do not start with curl) gives exactly one
    command: the stripped lines joined by single spaces, backslashes
    included. *)
Theorem X8_continuation_lines_make_one_command : forall b l0 ls,
  Validator.is_shell (Validator.language b) = true ->
  Str.split_char LF (Validator.code b) = l0 :: ls ->
  Str.startswith (txt "curl") (Str.strip l0) = true ->
  Forall (fun l => Props.continuation l = true) ls ->
  Validator.curl_commands_of_block b
  = [ {| Validator.command := Str.join (txt " ") (map Str.strip (l0 :: ls));
         Validator.block := b |} ].
Proof.
  intros b l0 ls S L H0 F. unfold Validator.curl_commands_of_block.
  rewrite S, L. cbn [fold_left]. unfold Validator.curl_line at 2. rewrite H0.
  rewrite (@continuation_lines b ls (Str.strip l0) [] [] F). reflexivity.
Qed.

Lemma X8_continuation_lines_make_one_command_witness :
  let b := {| Validator.language := txt "bash";
              Validator.code := txt "curl -X POST https://api.lyceum.technology/x "
                                  ++ [BACKSLASH; LF]
                                  ++ txt "  -H 'Authorization: Bearer <TOKEN>' "
                                  ++ [BACKSLASH; LF]
                                  ++ txt "  -d '{}'";
              Validator.start_pos := 0; Validator.end_pos := 100 |} in
  Validator.curl_commands_of_block b
  = [ {| Validator.command :=
           txt "curl -X POST https://api.lyceum.technology/x " ++ [BACKSLASH]
             ++ txt " -H 'Authorization: Bearer <TOKEN>' " ++ [BACKSLASH]
             ++ txt " -d '{}'";
         Validator.block := b |} ].
Proof.
  intro b.
  apply (@X8_continuation_lines_make_one_command b
           (txt "curl -X POST https://api.lyceum.technology/x " ++ [BACKSLASH])
           [ txt "  -H 'Authorization: Bearer <TOKEN>' " ++ [BACKSLASH];
             txt "  -d '{}'" ]).
  - reflexivity.
  - reflexivity.
  - reflexivity.
  - repeat constructor.
Defined.

(** X9: validate_curl_commands only records warnings: it returns True and
    leaves the errors, the token and the results as they are; a command
    that does not mention api.lyceum.technology adds nothing and one that
    does adds at most three warnings. *)
Theorem X9_curl_check_only_warns : forall fn cmds v,
  let v' := fst (Validator.validate_curl_commands v cmds fn) in
  snd (Validator.validate_curl_commands v cmds fn) = true
  /\ Validator.errors v' = Validator.errors v
  /\ Validator.auth_token v' = Validator.auth_token v
  /\ Validator.validated_examples v' = Validator.validated_examples v
  /\ exists ws, Validator.warnings v' = Validator.warnings v ++ ws
                /\ length ws <= 3 * length (filter Props.mentions_api cmds).
Proof.
  intros fn cmds v. cbv zeta. unfold Validator.validate_curl_commands. cbn [fst snd].
  split; [reflexivity|]. revert v.
  induction cmds as [|c cmds IH]; intro v; cbn [fold_left filter].
  - repeat split. exists []. rewrite app_nil_r. split; [reflexivity | simpl; lia].
  - destruct (@curl_step_warnings fn v c) as (E & T & R & ws & W & L).
    destruct (IH (Validator.curl_step fn v c)) as (E' & T' & R' & ws' & W' & L').
    rewrite E', T', R', W', W, E, T, R. repeat split.
    exists (ws ++ ws'). rewrite app_assoc. split; [reflexivity|].
    rewrite length_app. destruct (Props.mentions_api c); simpl in *; lia.
Qed.

(* ================================================================== *)
(** * Cleaning JSON and Python examples *)

Section CleaningProperties.
Import Validator Props.

Lemma clean_json_line_comment : forall a b b',
  clean_json_line (a ++ txt "//" ++ b) = clean_json_line (a ++ txt "//" ++ b').
Proof.
  intros a b b'. unfold clean_json_line.
  rewrite !contains_app, (before_first_app (txt "//") a b b'). reflexivity.
Qed.

Lemma fold_min_some : forall (A : Type) (f : A -> nat) l a,
  exists n,
    fold_left (fun m x => min_inf m (f x)) l (Some a) = Some n
    /\ n <= a
    /\ Forall (fun x => n <= f x) l
    /\ (n = a \/ Exists (fun x => f x = n) l).
Proof.
  intros A f l. induction l as [|x l IH]; intro a; cbn [fold_left].
  - exists a. repeat split; [lia | constructor | left; reflexivity].
  - cbn [min_inf]. destruct (IH (Nat.min a (f x))) as (n & E & L & F & D).
    exists n. split; [exact E|]. split; [lia|]. split.
    + constructor; [lia | exact F].
    + destruct D as [D|D]; [|right; apply Exists_cons_tl; exact D].
      destruct (Nat.min_spec a (f x)) as [[_ M]|[_ M]].
      * left. lia.
      * right. apply Exists_cons_hd. lia.
Qed.

Lemma fold_min_none : forall (A : Type) (f : A -> nat) x l,
  exists n,
    fold_left (fun m x => min_inf m (f x)) (x :: l) None = Some n
    /\ Forall (fun x => n <= f x) (x :: l)
    /\ Exists (fun x => f x = n) (x :: l).
Proof.
  intros A f x l. cbn [fold_left min_inf].
  destruct (fold_min_some f l (f x)) as (n & E & L & F & D).
  exists n. split; [exact E|]. split.
  - constructor; assumption.
  - destruct D as [D|D]; [apply Exists_cons_hd; lia | apply Exists_cons_tl; exact D].
Qed.

Lemma indent_is_blank : forall line m,
  m <= indent_of line ->
  length (firstn m line) = m
  /\ Forall (fun c => Str.is_space c = true) (firstn m line).
Proof.
  intros line m H. unfold indent_of, Str.lstrip in H.
  destruct (dropwhile_suffix Str.is_space line) as (p & E & F).
  assert (L : length line = length p + length (Str.dropwhile Str.is_space line)).
  { rewrite E at 1. apply length_app. }
  assert (Hm : m <= length p) by lia.
  split.
  - apply firstn_length_le. lia.
  - rewrite E, firstn_app.
    replace (m - length p) with 0 by lia. rewrite firstn_O, app_nil_r.
    rewrite Forall_forall in *. intros c Hc. apply F.
    rewrite <- (firstn_skipn m p). apply in_or_app. left. exact Hc.
Qed.

Lemma flat_map_same : forall (A B : Type) (f g : A -> list B) l,
  (forall x, In x l -> f x = g x) -> flat_map f l = flat_map g l.
Proof.
  intros A B f g l H. induction l as [|x l IH]; simpl; [reflexivity|].
  rewrite (H x (or_introl eq_refl)), IH; [reflexivity|].
  intros y Hy. apply H. right. exact Hy.
Qed.

(** clean_python_code on a text with a line that is not blank. *)
Lemma clean_python_code_dedents : forall code,
  Exists (fun l => nonblank l = true) (Str.split_char LF code) ->
  exists m,
    clean_python_code code
    = Str.join [LF] (flat_map (dedent m) (Str.split_char LF code))
    /\ Forall (fun l => nonblank l = true -> m <= indent_of l) (Str.split_char LF code)
    /\ Exists (fun l => nonblank l = true /\ indent_of l = m) (Str.split_char LF code).
Proof.
  intros code Hex. unfold clean_python_code.
  set (lines := Str.split_char LF code) in *.
  change (fun line => Str.nonempty (Str.strip line)) with nonblank.
  destruct (filter nonblank lines) as [|x l] eqn:Fl.
  - exfalso. apply Exists_exists in Hex as (y & Hy & Ny).
    assert (In y (filter nonblank lines)) by (apply filter_In; split; assumption).
    rewrite Fl in H. exact H.
  - destruct (fold_min_none indent_of x l) as (n & E & F & D).
    rewrite E. exists n.
    assert (Hall : forall y, In y lines -> nonblank y = true -> n <= indent_of y).
    { intros y Hy Ny. rewrite Forall_forall in F. apply F. rewrite <- Fl.
      apply filter_In. split; assumption. }
    split; [|split].
    + f_equal. apply flat_map_same. intros y Hy. unfold dedent.
      destruct (skipped_line y); [reflexivity|].
      change (Str.nonempty (Str.strip y)) with (nonblank y).
      destruct (nonblank y) eqn:Ny; [|reflexivity].
      pose proof (Hall y Hy Ny) as Hn. unfold indent_of in Hn.
      replace (Nat.leb n (length y)) with true; [reflexivity|].
      symmetry. apply Nat.leb_le. lia.
    + apply Forall_forall. exact Hall.
    + apply Exists_exists in D as (y & Hy & Ey). apply Exists_exists.
      rewrite <- Fl in Hy. apply filter_In in Hy as [Hy Ny].
      exists y. repeat split; assumption.
Qed.

Section WithWorld.
Variable w : World.

Lemma allow_listed_imports : forall imports acc,
  Forall (fun imp => allow_listed imp = true) imports ->
  problematic_imports w imports acc = inl acc.
Proof.
  intros imports. induction imports as [|imp imports IH]; intros acc F;
    cbn [problematic_imports]; [reflexivity|].
  inversion F as [|? ? Hi F']; subst. unfold allow_listed in Hi.
  replace (negb (Str.mem (base_package imp) common_packages)
           && negb (Str.startswith (txt "_") (base_package imp))) with false.
  - apply IH. exact F'.
  - symmetry. rewrite <- negb_orb, Hi. reflexivity.
Qed.


End WithWorld.

End CleaningProperties.

(** X10: clean_json_code drops what follows the first two slashes of a
    line, whatever it is and also inside a string: two documents that
    differ only after the first // of a line are cleaned to the same
    text. *)
Theorem X10_json_text_after_slashes_is_dropped : forall ls1 ls2 a b b',
  Forall (fun l => ~ In LF l) (ls1 ++ ls2) ->
  ~ In LF a -> ~ In LF b -> ~ In LF b' ->
  Validator.clean_json_code (Str.join [LF] (ls1 ++ (a ++ txt "//" ++ b) :: ls2))
  = Validator.clean_json_code (Str.join [LF] (ls1 ++ (a ++ txt "//" ++ b') :: ls2)).
Proof.
  intros ls1 ls2 a b b' F Ha Hb Hb'. unfold Validator.clean_json_code.
  apply Forall_app in F as [F1 F2].
  assert (S : forall x, ~ In LF x ->
              Str.split_char LF (Str.join [LF] (ls1 ++ (a ++ txt "//" ++ x) :: ls2))
              = ls1 ++ (a ++ txt "//" ++ x) :: ls2).
  { intros x Hx. apply split_join.
    - intro E. apply app_eq_nil in E as [_ E]. discriminate E.
    - apply Forall_app. split; [exact F1|]. constructor; [|exact F2].
      intro I. apply in_app_or in I as [I|I]; [exact (Ha I)|].
      apply in_app_or in I as [I|I]; [|exact (Hx I)].
      unfold txt in I. simpl in I. destruct I as [I|[I|[]]]; discriminate I. }
  rewrite (S b Hb), (S b' Hb'), !map_app. cbn [map].
  rewrite (clean_json_line_comment a b b'). reflexivity.
Qed.

Lemma X10_json_text_after_slashes_is_dropped_witness :
  Validator.clean_json_code
    (Str.join [LF] ([txt "{"] ++ (txt "  'url': 'https:" ++ txt "//" ++ txt "example.com'")
                              :: [txt "}"]))
  = Validator.clean_json_code
      (Str.join [LF] ([txt "{"] ++ (txt "  'url': 'https:" ++ txt "//" ++ []) :: [txt "}"])).
Proof.
  apply (@X10_json_text_after_slashes_is_dropped
           [txt "{"] [txt "}"] (txt "  'url': 'https:") (txt "example.com'") []).
  - repeat constructor; unfold txt; simpl; intuition discriminate.
  - unfold txt; simpl; intuition discriminate.
  - unfold txt; simpl; intuition discriminate.
  - intros [].
Defined.

(** X11: when a line of the code is not blank, clean_python_code gives
    the lines it keeps, joined by newlines, each without its first m
    characters, where m is the smallest indentation of a non-blank line;
    these m characters are whitespace in every non-blank line (so the
    branch that keeps a line shorter than m as it is never applies), and
    blank lines become empty. *)
Theorem X11_dedent_removes_only_whitespace : forall code,
  Exists (fun l => Props.nonblank l = true) (Str.split_char LF code) ->
  exists m,
    Validator.clean_python_code code
    = Str.join [LF] (flat_map (Props.dedent m) (Str.split_char LF code))
    /\ Forall (fun l => Props.nonblank l = true ->
                 length (firstn m l) = m
                 /\ Forall (fun c => Str.is_space c = true) (firstn m l))
              (Str.split_char LF code)
    /\ Exists (fun l => Props.nonblank l = true /\ Validator.indent_of l = m)
              (Str.split_char LF code).
Proof.
  intros code H. destruct (clean_python_code_dedents code H) as (m & E & F & D).
  exists m. split; [exact E|]. split; [|exact D].
  eapply Forall_impl; [|exact F]. intros l Hl N. apply indent_is_blank. exact (Hl N).
Qed.

Lemma X11_dedent_removes_only_whitespace_witness :
  exists m,
    Validator.clean_python_code (txt "    import os" ++ [LF; LF] ++ txt "      x = 1"
                                   ++ [LF] ++ txt "$ ls")
    = Str.join [LF]
        (flat_map (Props.dedent m)
           (Str.split_char LF (txt "    import os" ++ [LF; LF] ++ txt "      x = 1"
                                 ++ [LF] ++ txt "$ ls")))
    /\ Forall (fun l => Props.nonblank l = true ->
                 length (firstn m l) = m
                 /\ Forall (fun c => Str.is_space c = true) (firstn m l))
              (Str.split_char LF (txt "    import os" ++ [LF; LF] ++ txt "      x = 1"
                                    ++ [LF] ++ txt "$ ls"))
    /\ Exists (fun l => Props.nonblank l = true /\ Validator.indent_of l = m)
              (Str.split_char LF (txt "    import os" ++ [LF; LF] ++ txt "      x = 1"
                                    ++ [LF] ++ txt "$ ls")).
Proof.
  apply (X11_dedent_removes_only_whitespace
           (txt "    import os" ++ [LF; LF] ++ txt "      x = 1" ++ [LF] ++ txt "$ ls")).
  apply Exists_cons_hd. reflexivity.
Defined.

(** X12: a module whose imports are all on the allow-list or private
    (base package starting with an underscore) passes the import check
    without a warning, whatever looking up a module would do. *)
Theorem X12_allow_listed_imports_are_not_looked_up : forall w v code fn tree,
  ast_parse w (Validator.clean_python_code code) = PyModule tree ->
  Forall (fun imp => Props.allow_listed imp = true)
         (flat_map Validator.imported_names tree) ->
  Validator.validate_python_imports w v code fn = (v, true).
Proof.
  intros w v code fn tree P F. unfold Validator.validate_python_imports.
  rewrite P, (@allow_listed_imports w _ [] F). reflexivity.
Qed.

Lemma X12_allow_listed_imports_are_not_looked_up_witness :
  Validator.validate_python_imports (Props.without_modules Sample.world)
    (Validator.init None)
    (txt "import numpy.linalg" ++ [LF] ++ txt "from _private import x")
    (txt "guide.mdx")
  = (Validator.init None, true).
Proof.
  apply (@X12_allow_listed_imports_are_not_looked_up
           (Props.without_modules Sample.world) (Validator.init None)
           (txt "import numpy.linalg" ++ [LF] ++ txt "from _private import x")
           (txt "guide.mdx")
           [Import [txt "numpy.linalg"]; ImportFrom (Some (txt "_private"))]).
  - reflexivity.
  - repeat constructor.
Defined.

(* ================================================================== *)
(** * Running the matcher on well-formed input *)

Section MatcherEvaluation.
Import Re Validator Props.

Lemma rmatch_lit_app : forall p s c k, rmatch (lit p) (p ++ s) c k = k s c.
Proof.
  induction p as [|a p IH]; intros s c k; [reflexivity|].
  cbn [lit app]. rewrite rmatch_cat, rmatch_lit_char, Ascii.eqb_refl. apply IH.
Qed.

Lemma rmatch_lit_head : forall a p x s c k,
  x <> a -> rmatch (lit (a :: p)) (x :: s) c k = None.
Proof.
  intros a p x s c k H. cbn [lit]. rewrite rmatch_cat, rmatch_lit_char.
  destruct (Ascii.eqb x a) eqn:E; [|reflexivity].
  apply Ascii.eqb_eq in E. contradiction.
Qed.

Lemma rmatch_class_char : forall f x s c k,
  rmatch (Class f) (x :: s) c k = if f x then k s c else None.
Proof. reflexivity. Qed.

Lemma rmatch_class_fails : forall f s c k,
  (forall x t, s = x :: t -> f x = false) -> rmatch (Class f) s c k = None.
Proof.
  intros f [|x s] c k H; cbn [rmatch]; [reflexivity|].
  rewrite (H x s eq_refl). reflexivity.
Qed.

(** A greedy star over a class takes the whole run of characters of the
    class when what follows matches then. *)
Lemma star_loop_greedy_class : forall f (k : cont) res s c m fuel,
  Forall (fun a => f a = true) m ->
  (forall x t, s = x :: t -> f x = false) ->
  k s c = Some res ->
  length (m ++ s) < fuel ->
  star_loop (rmatch (Class f)) greedy k fuel (m ++ s) c = Some res.
Proof.
  intros f k res s c m. induction m as [|x m IH]; intros fuel F N K L.
  - destruct fuel as [|fuel]; [lia|]. cbn [star_loop app]. unfold greedy.
    rewrite (rmatch_class_fails _ _ _ N). exact K.
  - destruct fuel as [|fuel]; [simpl in L; lia|].
    inversion F as [|? ? Fx F']; subst.
    cbn [star_loop app]. unfold greedy. cbn [rmatch]. rewrite Fx.
    replace (Nat.ltb (length (m ++ s)) (length (x :: m ++ s))) with true
      by (symmetry; apply Nat.ltb_lt; simpl; lia).
    change (match star_loop (rmatch (Class f)) greedy k fuel (m ++ s) c with
            | Some x0 => Some x0
            | None => k (x :: m ++ s) c
            end = Some res).
    rewrite (IH fuel F' N K); [reflexivity|]. simpl in L. lia.
Qed.

Lemma star_greedy_class : forall f (k : cont) res s c m,
  Forall (fun a => f a = true) m ->
  (forall x t, s = x :: t -> f x = false) ->
  k s c = Some res ->
  rmatch (Star greedy (Class f)) (m ++ s) c k = Some res.
Proof.
  intros f k res s c m F N K. rewrite rmatch_star_unfold.
  apply star_loop_greedy_class; [exact F | exact N | exact K | lia].
Qed.

(** A lazy star over a class stops at the first place where what follows
    matches. *)
Lemma star_loop_lazy_class : forall f (k : cont) res s c m fuel,
  Forall (fun a => f a = true) m ->
  (forall m1 m2, m = m1 ++ m2 -> m2 <> [] -> k (m2 ++ s) c = None) ->
  k s c = Some res ->
  length (m ++ s) < fuel ->
  star_loop (rmatch (Class f)) lazy k fuel (m ++ s) c = Some res.
Proof.
  intros f k res s c m. induction m as [|x m IH]; intros fuel F N K L.
  - destruct fuel as [|fuel]; [lia|]. cbn [star_loop app]. unfold lazy.
    rewrite K. reflexivity.
  - destruct fuel as [|fuel]; [simpl in L; lia|].
    inversion F as [|? ? Fx F']; subst.
    cbn [star_loop]. unfold lazy.
    rewrite (N [] (x :: m) eq_refl); [|discriminate].
    cbn [app rmatch]. rewrite Fx.
    replace (Nat.ltb (length (m ++ s)) (length (x :: m ++ s))) with true
      by (symmetry; apply Nat.ltb_lt; simpl; lia).
    change (star_loop (rmatch (Class f)) lazy k fuel (m ++ s) c = Some res).
    apply IH; [exact F' | | exact K | simpl in L; lia].
    intros m1 m2 E Hne. apply (N (x :: m1) m2); [rewrite E; reflexivity | exact Hne].
Qed.

Lemma star_lazy_class : forall f (k : cont) res s c m,
  Forall (fun a => f a = true) m ->
  (forall m1 m2, m = m1 ++ m2 -> m2 <> [] -> k (m2 ++ s) c = None) ->
  k s c = Some res ->
  rmatch (Star lazy (Class f)) (m ++ s) c k = Some res.
Proof.
  intros f k res s c m F N K. rewrite rmatch_star_unfold.
  apply star_loop_lazy_class; [exact F | exact N | exact K | lia].
Qed.

Lemma not_in_none_of : forall cs m,
  (forall c, In c cs -> ~ In c m) -> Forall (fun a => none_of cs a = true) m.
Proof.
  intros cs m H. apply Forall_forall. intros a Ha. unfold none_of, any_of.
  apply negb_true_iff. destruct (existsb (Ascii.eqb a) cs) eqn:E; [|reflexivity].
  apply existsb_exists in E as (x & Hx & Ex). apply Ascii.eqb_eq in Ex. subst x.
  exfalso. exact (H a Hx Ha).
Qed.

Lemma hits_app : forall a b, hits (a ++ b) = hits a ++ hits b.
Proof.
  induction a as [|[x|m] a IH]; intro b; simpl; [reflexivity | apply IH|].
  rewrite IH. reflexivity.
Qed.

(** The scan skips a prefix in which no match starts. *)
Lemma scan_skips : forall r pre fuel pos s,
  (forall p1 p2, pre = p1 ++ p2 -> p2 <> [] -> match_here r (p2 ++ s) false = None) ->
  scan r (length pre + fuel) pos (pre ++ s) false
  = map Skip pre ++ scan r fuel (pos + length pre) s false.
Proof.
  intros r pre. induction pre as [|x pre IH]; intros fuel pos s H.
  - simpl. rewrite Nat.add_0_r. reflexivity.
  - cbn [length Nat.add scan app map].
    assert (H0 : match_here r ((x :: pre) ++ s) false = None)
      by (apply (H [] (x :: pre) eq_refl); discriminate).
    cbn [app] in H0. rewrite H0, IH.
    + replace (S pos + length pre) with (pos + S (length pre)) by lia. reflexivity.
    + intros p1 p2 E Hne. apply (H (x :: p1) p2); [rewrite E; reflexivity | exact Hne].
Qed.

Lemma scan_shift : forall r fuel pos s adv d,
  scan r fuel (pos + d) s adv = map (shift_segment d) (scan r fuel pos s adv).
Proof.
  intros r. induction fuel as [|fuel IH]; intros pos s adv d; cbn [scan].
  - rewrite map_map. reflexivity.
  - destruct (match_here r s adv) as [[rest c]|].
    + cbn [map shift_segment]. f_equal.
      * unfold shift_mobj. cbn. f_equal. f_equal. lia.
      * rewrite <- IH. f_equal. lia.
    + destruct s as [|x s]; [reflexivity|]. cbn [map shift_segment]. f_equal.
      rewrite <- IH. reflexivity.
Qed.

Lemma hits_shift : forall d l, hits (map (shift_segment d) l) = map (shift_mobj d) (hits l).
Proof.
  intros d l. induction l as [|[x|m] l IH]; simpl; [reflexivity | exact IH|].
  rewrite IH. reflexivity.
Qed.

Lemma block_of_shifted : forall d m,
  block_of_match (shift_mobj d m) = map (shift_block d) (block_of_match m).
Proof.
  intros d m. unfold block_of_match.
  change (group (shift_mobj d m) 1) with (group m 1).
  change (group_or_empty (shift_mobj d m) 2) with (group_or_empty m 2).
  destruct (Str.nonempty (Str.strip (group_or_empty m 2))); reflexivity.
Qed.

Lemma flat_map_map : forall (A B C : Type) (f : B -> list C) (g : A -> B) l,
  flat_map f (map g l) = flat_map (fun x => f (g x)) l.
Proof.
  intros A B C f g l. induction l as [|x l IH]; simpl; [reflexivity|].
  rewrite IH. reflexivity.
Qed.

Lemma map_flat_map : forall (A B C : Type) (f : A -> list B) (g : B -> C) l,
  map g (flat_map f l) = flat_map (fun x => map g (f x)) l.
Proof.
  intros A B C f g l. induction l as [|x l IH]; simpl; [reflexivity|].
  rewrite map_app, IH. reflexivity.
Qed.

Lemma space_is_not_word : forall c, Str.is_space c = true -> is_word c = false.
Proof.
  intros c. destruct c as [[] [] [] [] [] [] [] []]; vm_compute;
    first [reflexivity | discriminate].
Qed.

Lemma lstrip_idem : forall s, Str.lstrip (Str.lstrip s) = Str.lstrip s.
Proof.
  intro s. unfold Str.lstrip. apply dropwhile_id. intros x t E.
  exact (dropwhile_head _ _ E).
Qed.

Lemma strip_lstrip : forall s, Str.strip (Str.lstrip s) = Str.strip s.
Proof. intro s. unfold Str.strip. rewrite lstrip_idem. reflexivity. Qed.

(** The block pattern on a fence, a tag, a body without back-ticks that
    does not go on with the tag, and a fence. *)
Lemma block_pattern_matches : forall tag body post,
  Forall (fun a => is_word a = true) tag ->
  ~ In "`"%char body ->
  (forall x t, body = x :: t -> is_word x = false) ->
  match_here block_pattern (txt "```" ++ tag ++ body ++ txt "```" ++ post) false
  = Some (post, (2, Str.lstrip body) :: match tag with
                                        | [] => []
                                        | _ :: _ => [(1, tag)]
                                        end).
Proof.
  intros tag body post Ftag Hbody Hhead.
  set (c1 := match tag with [] => [] | _ :: _ => [(1, tag)] end).
  set (fence := txt "```").
  destruct (dropwhile_suffix Str.is_space body) as (ws & Ebody & Fws).
  fold (Str.lstrip body) in Ebody.
  remember (Str.lstrip body) as code eqn:Ecode.
  assert (Hcode : ~ In "`"%char code).
  { intro I. apply Hbody. rewrite Ecode in I. unfold Str.lstrip in I.
    exact (in_dropwhile _ _ _ I). }
  assert (Hcs : forall x t, code ++ txt "```" ++ post = x :: t -> Str.is_space x = false).
  { intros x t E. destruct code as [|y code'].
    - cbn in E. inversion E; subst. reflexivity.
    - cbn in E. inversion E; subst. symmetry in Ecode. unfold Str.lstrip in Ecode.
      exact (dropwhile_head _ _ Ecode). }
  (* the closing fence, after the body *)
  set (k4 := fun (s' : text) (c' : caps) =>
               rmatch (lit fence) s'
                 ((2, firstn (length (code ++ fence ++ post) - length s')
                        (code ++ fence ++ post)) :: c')
                 (fun rest c => if false && Nat.eqb (length rest)
                                     (length (fence ++ tag ++ body ++ fence ++ post))
                                then None else Some (rest, c))).
  assert (S4 : rmatch (Star lazy (Class (none_of (txt "`")))) (code ++ fence ++ post) c1 k4
               = Some (post, (2, code) :: c1)).
  { apply star_lazy_class.
    - apply not_in_none_of. intros a Ha. unfold txt in Ha. simpl in Ha.
      destruct Ha as [<-|[]]. exact Hcode.
    - intros m1 m2 E Hne. destruct m2 as [|y m2]; [contradiction|].
      unfold k4. cbn [app]. apply rmatch_lit_head. intro Ey. subst y.
      apply Hcode. rewrite E. apply in_or_app. right. left. reflexivity.
    - unfold k4. rewrite rmatch_lit_app. cbn [andb].
      rewrite (firstn_matched code (fence ++ post)). reflexivity. }
  (* the white space in front of the body *)
  assert (S3 : rmatch (Cat (Star greedy (Class Str.is_space))
                        (Cat (Group 2 (Star lazy (Class (none_of (txt "`")))))
                             (lit fence)))
                 (body ++ fence ++ post) c1
                 (fun rest c => if false && Nat.eqb (length rest)
                                     (length (fence ++ tag ++ body ++ fence ++ post))
                                then None else Some (rest, c))
               = Some (post, (2, code) :: c1)).
  { rewrite rmatch_cat. rewrite Ebody at 1. rewrite <- app_assoc.
    apply star_greedy_class; [exact Fws | exact Hcs |].
    rewrite rmatch_cat, rmatch_group_unfold. exact S4. }
  (* the tag *)
  assert (Hnext : forall x t, body ++ fence ++ post = x :: t -> is_word x = false).
  { intros x t E. destruct body as [|y body'].
    - cbn in E. inversion E; subst. reflexivity.
    - cbn in E. inversion E; subst. exact (Hhead _ _ eq_refl). }
  unfold match_here, block_pattern. fold fence.
  rewrite rmatch_cat, rmatch_lit_app, rmatch_cat. unfold Opt. rewrite rmatch_or.
  destruct tag as [|t0 tag'].
  - cbn [app]. rewrite rmatch_group_unfold. unfold Plus. rewrite rmatch_cat.
    rewrite (rmatch_class_fails _ _ _ Hnext). rewrite rmatch_empty. exact S3.
  - inversion Ftag as [|? ? Ft0 Ftag']; subst.
    rewrite rmatch_group_unfold. unfold Plus. rewrite rmatch_cat.
    cbn [app]. rewrite rmatch_class_char, Ft0.
    rewrite (@star_greedy_class is_word _ (post, (2, Str.lstrip body) :: c1)
               (body ++ fence ++ post) [] tag' Ftag' Hnext); [reflexivity|].
    change (t0 :: tag' ++ body ++ fence ++ post)
      with ((t0 :: tag') ++ body ++ fence ++ post).
    rewrite (firstn_matched (t0 :: tag') (body ++ fence ++ post)). exact S3.
Qed.

(** No match of the block pattern starts at a character other than a
    back-tick, or at the end of the text. *)
Lemma block_pattern_needs_backtick : forall s adv,
  (forall x t, s = x :: t -> x <> "`"%char) ->
  match_here block_pattern s adv = None.
Proof.
  intros s adv H. unfold match_here, block_pattern. rewrite rmatch_cat.
  destruct s as [|x s]; [reflexivity|].
  apply rmatch_lit_head. exact (H x s eq_refl).
Qed.

Lemma extract_code_blocks_step : forall pre tag body post,
  ~ In "`"%char pre ->
  Forall (fun a => is_word a = true) tag ->
  ~ In "`"%char body ->
  (forall x t, body = x :: t -> is_word x = false) ->
  extract_code_blocks (pre ++ txt "```" ++ tag ++ body ++ txt "```" ++ post)
  = block_of_match
      (Mobj (length pre) (length pre + (6 + length tag + length body))
         (txt "```" ++ tag ++ body ++ txt "```")
         ((2, Str.lstrip body) :: match tag with
                                  | [] => []
                                  | _ :: _ => [(1, tag)]
                                  end))
    ++ map (shift_block (length pre + (6 + length tag + length body)))
         (extract_code_blocks post).
Proof.
  intros pre tag body post Hpre Ftag Hbody Hhead.
  unfold extract_code_blocks, re_finditer, scan_all.
  set (B := txt "```" ++ tag ++ body ++ txt "```").
  assert (LB : length B = 6 + length tag + length body).
  { unfold B. rewrite !length_app. change (length (txt "```")) with 3. lia. }
  replace (pre ++ txt "```" ++ tag ++ body ++ txt "```" ++ post) with (pre ++ B ++ post)
    by (unfold B; rewrite <- !app_assoc; reflexivity).
  replace (scan_fuel (pre ++ B ++ post))
    with (length pre + S (length pre + 2 * length (B ++ post) + 1))
    by (unfold scan_fuel; rewrite !length_app; lia).
  rewrite scan_skips.
  2:{ intros p1 p2 E Hne. apply block_pattern_needs_backtick.
      intros x t Ex Hx. destruct p2 as [|y p2]; [contradiction|].
      cbn in Ex. inversion Ex; subst. apply Hpre. apply in_or_app. right.
      left. reflexivity. }
  rewrite hits_app, hits_skip. cbn [app Nat.add scan].
  assert (M : match_here block_pattern (B ++ post) false
              = Some (post, (2, Str.lstrip body) :: match tag with
                                                    | [] => []
                                                    | _ :: _ => [(1, tag)]
                                                    end)).
  { unfold B. rewrite <- !app_assoc. apply block_pattern_matches; assumption. }
  rewrite M. rewrite (firstn_matched B post).
  replace (length (B ++ post) - length post) with (length B)
    by (rewrite length_app; lia).
  replace (Nat.eqb (length B) 0) with false
    by (symmetry; apply Nat.eqb_neq; lia).
  cbn [hits flat_map]. rewrite LB. f_equal.
  rewrite (@scan_fuel_enough block_pattern _ (scan_fuel post) _ post false).
  - replace (length pre + (6 + length tag + length body))
      with (0 + (length pre + (6 + length tag + length body))) at 1 by lia.
    rewrite scan_shift, hits_shift, flat_map_map, map_flat_map.
    apply flat_map_same. intros m _. apply block_of_shifted.
  - rewrite length_app. lia.
  - unfold scan_fuel. lia.
Qed.

End MatcherEvaluation.

(** X20: extraction of a well-formed block.  When the document starts
    with text free of back-ticks followed by a fence, a tag of word
    characters (possibly none), a body without back-ticks that does not
    go on with a word character, and a closing fence, then
    extract_code_blocks returns that block first (unless its body is
    blank): its language is the tag, or text when there is no tag, its
    code is the body without surrounding whitespace, its positions are
    those of the two fences; the blocks of the rest of the document
    follow, found as if the rest stood alone. *)
Theorem X20_well_formed_block_is_extracted : forall pre tag body post,
  ~ In "`"%char pre ->
  Forall (fun a => Validator.is_word a = true) tag ->
  ~ In "`"%char body ->
  (forall x t, body = x :: t -> Validator.is_word x = false) ->
  Validator.extract_code_blocks (pre ++ txt "```" ++ tag ++ body ++ txt "```" ++ post)
  = (if Str.nonempty (Str.strip body)
     then [ {| Validator.language := match tag with
                                     | [] => txt "text"
                                     | _ :: _ => tag
                                     end;
               Validator.code := Str.strip body;
               Validator.start_pos := length pre;
               Validator.end_pos := length pre + (6 + length tag + length body) |} ]
     else [])
    ++ map (Props.shift_block (length pre + (6 + length tag + length body)))
         (Validator.extract_code_blocks post).
Proof.
  intros pre tag body post Hpre Ftag Hbody Hhead.
  rewrite (@extract_code_blocks_step pre tag body post Hpre Ftag Hbody Hhead). f_equal.
  unfold Validator.block_of_match, Re.group_or_empty, Re.group. cbn [Re.lookup Re.m_caps].
  cbn [Nat.eqb]. rewrite strip_lstrip.
  destruct tag as [|t0 tag']; cbn [Re.lookup Nat.eqb Re.m_start Re.m_end Str.nonempty];
    reflexivity.
Qed.

Lemma X20_well_formed_block_is_extracted_witness :
  Validator.extract_code_blocks
    (txt "Install it:" ++ txt "```" ++ txt "bash" ++ ([LF] ++ txt "pip install lyceum" ++ [LF])
       ++ txt "```" ++ txt " and run.")
  = (if Str.nonempty (Str.strip ([LF] ++ txt "pip install lyceum" ++ [LF]))
     then [ {| Validator.language := txt "bash";
               Validator.code := Str.strip ([LF] ++ txt "pip install lyceum" ++ [LF]);
               Validator.start_pos := length (txt "Install it:");
               Validator.end_pos :=
                 length (txt "Install it:")
                 + (6 + length (txt "bash")
                    + length ([LF] ++ txt "pip install lyceum" ++ [LF])) |} ]
     else [])
    ++ map (Props.shift_block
              (length (txt "Install it:")
               + (6 + length (txt "bash")
                  + length ([LF] ++ txt "pip install lyceum" ++ [LF]))))
         (Validator.extract_code_blocks (txt " and run.")).
Proof.
  apply (@X20_well_formed_block_is_extracted (txt "Install it:") (txt "bash")
           ([LF] ++ txt "pip install lyceum" ++ [LF]) (txt " and run.")).
  - unfold txt; simpl; intuition discriminate.
  - repeat constructor.
  - unfold txt; simpl; intuition discriminate.
  - intros x t E. inversion E; subst. reflexivity.
Defined.

(* ================================================================== *)
(** * The URLs of the endpoint check *)

Section UrlProperties.
Import Re Validator Props.

Lemma last_in_suffix : forall (a' : text) x p1 p2,
  a' ++ [x] = p1 ++ p2 -> p2 <> [] -> In x p2.
Proof.
  intros a' x p1 p2 E Hne.
  destruct (exists_last Hne) as (q & y & ->).
  rewrite app_assoc in E. apply app_inj_tail in E as [_ ->].
  apply in_or_app. right. left. reflexivity.
Qed.

(** What the pattern of the clean-up matches: punctuation up to the end
    of the text or up to a newline that ends it. *)
Lemma trailing_punctuation_lang : forall m rest,
  lang trailing_punctuation m rest ->
  Forall (fun c => punctuation c = true) m /\ (rest = [] \/ rest = [LF]).
Proof.
  intros m rest L. unfold trailing_punctuation, Plus in L.
  apply lang_cat in L as (m1 & m2 & -> & L1 & L2).
  apply lang_cat in L1 as (h & tl & -> & Lh & Lt).
  apply lang_class in Lh as (a & -> & Ha). apply lang_star_class in Lt.
  inversion L2; subst. rewrite app_nil_r. split; [|assumption].
  constructor; [exact Ha | exact Lt].
Qed.

Lemma trailing_punctuation_matches : forall x p,
  Forall (fun c => punctuation c = true) (x :: p) ->
  match_here trailing_punctuation (x :: p) false = Some ([], []).
Proof.
  intros x p F. inversion F as [|? ? Fx Fp]; subst.
  unfold match_here, trailing_punctuation, Plus.
  rewrite !rmatch_cat, rmatch_class_char.
  change (any_of (txt ".,;:!?'>])}" ++ [DQUOTE]) x) with (punctuation x). rewrite Fx.
  rewrite <- (app_nil_r p) at 1.
  apply star_greedy_class; [exact Fp | intros y t E; discriminate E | reflexivity].
Qed.

Lemma clean_url_strips : forall a p,
  Forall (fun c => punctuation c = true) p ->
  (forall a' x, a = a' ++ [x] -> punctuation x = false /\ x <> LF) ->
  clean_url (a ++ p) = a.
Proof.
  intros a p Fp Ha. unfold clean_url, re_sub, re_sub_fn, scan_all.
  replace (scan_fuel (a ++ p)) with (length a + S (length a + 2 * length p + 1))
    by (unfold scan_fuel; rewrite length_app; lia).
  rewrite scan_skips.
  - rewrite flat_map_app, flat_map_skip by reflexivity.
    transitivity (a ++ []); [|apply app_nil_r]. f_equal.
    destruct p as [|x p]; [reflexivity|].
    cbn [scan]. rewrite (trailing_punctuation_matches Fp).
    cbn [length Nat.sub Nat.eqb flat_map]. destruct (length a + _ + _); reflexivity.
  - intros p1 p2 E Hne.
    destruct (match_here trailing_punctuation (p2 ++ p) false) as [[rest c]|] eqn:M;
      [|reflexivity].
    exfalso. apply match_here_sound in M as (m & Em & L & _).
    apply trailing_punctuation_lang in L as [Fm Hrest].
    destruct (exists_last Hne) as (q & x & Eq). subst p2.
    destruct (Ha (p1 ++ q) x) as [Px Nx]; [rewrite E, app_assoc; reflexivity|].
    assert (I : In x (m ++ rest)).
    { rewrite <- Em. apply in_or_app. left. apply in_or_app. right. left. reflexivity. }
    apply in_app_or in I as [I|I].
    + rewrite Forall_forall in Fm. rewrite (Fm x I) in Px. discriminate Px.
    + destruct Hrest as [-> | ->]; [destruct I|].
      destruct I as [I|[]]. apply Nx. symmetry. exact I.
Qed.

(** A match of a pattern without stars and anchors is still there when
    the text goes on. *)
Lemma rmatch_extend : forall r t,
  star_free r = true ->
  forall s c c2 (k k2 : cont),
    (forall rest c1 c1', k rest c1 <> None -> k2 (rest ++ t) c1' <> None) ->
    rmatch r s c k <> None -> rmatch r (s ++ t) c2 k2 <> None.
Proof.
  intros r t.
  induction r as [ | a | p | r1 IH1 r2 IH2 | r1 IH1 r2 IH2 | g r1 IH1 | n r1 IH1 | ];
    intros SF s c c2 k k2 HK H; cbn [star_free] in SF; try discriminate SF.
  - rewrite rmatch_empty in *. exact (HK _ _ _ H).
  - destruct s as [|x s]; [exfalso; apply H; reflexivity|].
    cbn [app]. rewrite rmatch_lit_char in *.
    destruct (Ascii.eqb x a); [exact (HK _ _ _ H) | exact H].
  - destruct s as [|x s]; [exfalso; apply H; reflexivity|].
    cbn [app]. rewrite rmatch_class_char in *.
    destruct (p x); [exact (HK _ _ _ H) | exact H].
  - apply andb_true_iff in SF as [SF1 SF2]. rewrite rmatch_cat in *.
    apply (IH1 SF1 s c c2 (fun s' c' => rmatch r2 s' c' k)); [|exact H].
    intros rest c1 c1' H2. exact (IH2 SF2 rest c1 c1' k k2 HK H2).
  - apply andb_true_iff in SF as [SF1 SF2]. rewrite rmatch_or in *.
    destruct (rmatch r1 s c k) eqn:E1.
    + assert (N : rmatch r1 (s ++ t) c2 k2 <> None).
      { apply (IH1 SF1 s c c2 k k2 HK). rewrite E1. discriminate. }
      destruct (rmatch r1 (s ++ t) c2 k2); [discriminate | contradiction].
    + destruct (rmatch r1 (s ++ t) c2 k2); [discriminate|].
      exact (IH2 SF2 s c c2 k k2 HK H).
  - rewrite rmatch_group_unfold in *.
    apply (IH1 SF s c c2
             (fun s' c' => k s' ((n, firstn (length s - length s') s) :: c')));
      [|exact H].
    intros rest c1 c1' H2. exact (HK _ _ _ H2).
Qed.

Lemma re_match_extend : forall r url suffix,
  star_free r = true ->
  re_match r url <> None -> re_match r (url ++ suffix) <> None.
Proof.
  intros r url suffix SF H. unfold re_match, match_here in *.
  assert (N : rmatch r (url ++ suffix) []
                (fun rest c =>
                   if false && Nat.eqb (length rest) (length (url ++ suffix))
                   then None else Some (rest, c)) <> None).
  { apply (@rmatch_extend r suffix SF url [] []
             (fun rest c => if false && Nat.eqb (length rest) (length url)
                            then None else Some (rest, c))).
    - intros rest c1 c1' _. discriminate.
    - intro E. apply H. rewrite E. reflexivity. }
  destruct (rmatch r (url ++ suffix) [] _) as [[rest c]|]; [discriminate | contradiction].
Qed.

End UrlProperties.

(** X21: the clean-up of a URL removes the punctuation at its end and
    nothing else: for a text a that is empty or ends in a character other
    than .,;:!?'>])} the double quote and the newline, followed by any
    number of these punctuation characters, the cleaned URL is a. *)
Theorem X21_clean_url_strips_trailing_punctuation : forall a p,
  Forall (fun c => Props.punctuation c = true) p ->
  (forall a' x, a = a' ++ [x] -> Props.punctuation x = false /\ x <> LF) ->
  Validator.clean_url (a ++ p) = a.
Proof.
  intros a p Fp Ha. apply clean_url_strips; assumption.
Qed.

Lemma X21_clean_url_strips_trailing_punctuation_witness :
  Validator.clean_url (txt "https://api.lyceum.technology/docs" ++ txt ").")
  = txt "https://api.lyceum.technology/docs".
Proof.
  apply (@X21_clean_url_strips_trailing_punctuation
           (txt "https://api.lyceum.technology/docs") (txt ").")).
  - repeat constructor.
  - intros a' x E.
    assert (Ex : x = "s"%char).
    { change (txt "https://api.lyceum.technology/docs")
        with (txt "https://api.lyceum.technology/doc" ++ ["s"%char]) in E.
      apply app_inj_tail in E as [_ E]. symmetry. exact E. }
    subst x. split; [reflexivity | discriminate].
Defined.

(** X22: the check of the endpoint structure looks at the beginning of
    the URL only: a URL that goes on after a recognized endpoint is
    recognized too. *)
Theorem X22_endpoint_structure_is_a_prefix_check : forall url suffix,
  Validator.matches_expected url = true ->
  Validator.matches_expected (url ++ suffix) = true.
Proof.
  intros url suffix H. unfold Validator.matches_expected in *.
  apply existsb_exists in H as (r & Hr & M). apply existsb_exists.
  exists r. split; [exact Hr|].
  assert (SF : Props.star_free r = true).
  { unfold Validator.expected_patterns in Hr.
    destruct Hr as [<-|[<-|[<-|[<-|[]]]]]; reflexivity. }
  pose proof (@re_match_extend r url suffix SF) as E.
  destruct (Re.re_match r url); [|discriminate M].
  destruct (Re.re_match r (url ++ suffix)); [reflexivity|].
  exfalso. apply E; [discriminate | reflexivity].
Qed.

Lemma X22_endpoint_structure_is_a_prefix_check_witness :
  Validator.matches_expected (Spec.upload_url ++ txt "-anything/else") = true.
Proof.
  apply (@X22_endpoint_structure_is_a_prefix_check Spec.upload_url (txt "-anything/else")).
  reflexivity.
Defined.

(* ================================================================== *)
(** * Running the fixer on well-formed commands *)

Section FixerEvaluation.
Import Re Fixer Props.

Lemma rmatch_lit_fails : forall p s c k,
  Str.startswith p s = false -> rmatch (lit p) s c k = None.
Proof.
  induction p as [|a p IH]; intros s c k H; [discriminate H|].
  cbn [lit]. rewrite rmatch_cat, rmatch_lit_char.
  destruct s as [|x s]; [reflexivity|]. cbn [Str.startswith] in H.
  rewrite Ascii.eqb_sym. destruct (Ascii.eqb a x); [|reflexivity].
  apply IH. exact H.
Qed.

(** The text curl -X POST does not overlap itself: an occurrence that
    starts before another one lies before it. *)
Lemma curl_start_no_overlap : forall p2 rest,
  p2 <> [] ->
  Str.startswith (txt "curl -X POST") (p2 ++ txt "curl -X POST" ++ rest) = true ->
  Str.startswith (txt "curl -X POST") p2 = true.
Proof.
  intros p2 rest Hne H. unfold txt in *. simpl in *.
  do 12 (destruct p2 as [|? p2];
         [simpl in H; repeat rewrite ?andb_false_r in H;
          try discriminate H; try contradiction|]).
  simpl in *. exact H.
Qed.

Lemma data_start_no_overlap : forall p2 rest,
  p2 <> [] ->
  Str.startswith (txt "-d '{") (p2 ++ txt "-d '{" ++ rest) = true ->
  Str.startswith (txt "-d '{") p2 = true.
Proof.
  intros p2 rest Hne H. unfold txt in *. simpl in *.
  do 5 (destruct p2 as [|? p2];
        [simpl in H; repeat rewrite ?andb_false_r in H;
         try discriminate H; try contradiction|]).
  simpl in *. exact H.
Qed.

Lemma absent_in_suffix : forall p pre p1 p2,
  Str.contains p pre = false -> pre = p1 ++ p2 -> Str.startswith p p2 = false.
Proof.
  intros p pre p1 p2 H E. destruct (Str.startswith p p2) eqn:S; [|reflexivity].
  apply startswith_true in S as [r ->]. subst pre.
  rewrite contains_app in H. discriminate H.
Qed.

(** The curl pattern on a command whose data argument is the first one
    after the command and whose text up to it holds no backslash. *)
Lemma curl_pattern_matches : forall mid body post,
  ~ In BACKSLASH mid ->
  Str.contains (txt "-d '{") mid = false ->
  ~ In "}"%char body ->
  match_here curl_pattern
    (txt "curl -X POST" ++ mid ++ txt "-d '{" ++ body ++ txt "}'" ++ post) false
  = Some (post, [ (2, txt "-d '{" ++ body ++ txt "}'");
                  (1, txt "curl -X POST" ++ mid) ]).
Proof.
  intros mid body post Hmid Hd Hbody.
  set (P := txt "curl -X POST"). set (D := txt "-d '{"). set (E := txt "}'").
  set (s1 := D ++ body ++ E ++ post).
  set (s0 := P ++ mid ++ s1).
  assert (F1 : firstn (length s0 - length s1) s0 = P ++ mid).
  { unfold s0. rewrite app_assoc. apply firstn_matched. }
  assert (F2 : firstn (length s1 - length post) s1 = D ++ body ++ E).
  { unfold s1. replace (D ++ body ++ E ++ post) with ((D ++ body ++ E) ++ post)
      by (rewrite <- !app_assoc; reflexivity).
    apply firstn_matched. }
  unfold match_here, curl_pattern. fold P D E.
  rewrite rmatch_cat, rmatch_group_unfold, rmatch_cat. fold s0.
  unfold s0 at 1. rewrite rmatch_lit_app.
  apply star_lazy_class.
  - apply not_in_none_of. intros a [<-|[]]. exact Hmid.
  - intros m1 m2 Em Hne. cbv beta.
    rewrite rmatch_group_unfold, rmatch_cat. apply rmatch_lit_fails.
    destruct (Str.startswith D (m2 ++ s1)) eqn:S; [|reflexivity].
    unfold s1 in S. apply data_start_no_overlap in S; [|exact Hne].
    rewrite (@absent_in_suffix _ _ _ _ Hd Em) in S. discriminate S.
  - cbv beta. rewrite rmatch_group_unfold, rmatch_cat.
    unfold s1 at 1. rewrite rmatch_lit_app, rmatch_cat.
    apply star_greedy_class.
    + apply not_in_none_of. intros a Ha. unfold txt in Ha. simpl in Ha.
      destruct Ha as [<-|[]]. exact Hbody.
    + intros x t Ex. unfold E, txt in Ex. simpl in Ex. inversion Ex; subst.
      reflexivity.
    + rewrite rmatch_lit_app. cbn [andb]. rewrite F1, F2. reflexivity.
Qed.

(** One step of a rewrite: text in which no match starts, a match, and
    the rewrite of what follows. *)
Lemma re_sub_fn_step : forall r (f : mobj -> text) pre m post c,
  (forall p1 p2, pre = p1 ++ p2 -> p2 <> [] ->
     match_here r (p2 ++ m ++ post) false = None) ->
  match_here r (m ++ post) false = Some (post, c) ->
  m <> [] ->
  (forall d h, f (shift_mobj d h) = f h) ->
  re_sub_fn r f (pre ++ m ++ post)
  = pre ++ f (Mobj (length pre) (length pre + length m) m c) ++ re_sub_fn r f post.
Proof.
  intros r f pre m post c Hpre M Hm Hf. unfold re_sub_fn, scan_all.
  replace (scan_fuel (pre ++ m ++ post))
    with (length pre + S (length pre + 2 * length (m ++ post) + 1))
    by (unfold scan_fuel; rewrite !length_app; lia).
  rewrite (scan_skips _ _ _ _ Hpre).
  rewrite flat_map_app, flat_map_skip by reflexivity. f_equal.
  cbn [scan]. rewrite M, (firstn_matched m post).
  replace (length (m ++ post) - length post) with (length m)
    by (rewrite length_app; lia).
  replace (Nat.eqb (length m) 0) with false
    by (symmetry; apply Nat.eqb_neq; destruct m; [contradiction | simpl; lia]).
  cbn [flat_map Nat.add]. f_equal.
  rewrite (@scan_fuel_enough r _ (scan_fuel post) _ post false).
  - replace (length pre + length m) with (0 + (length pre + length m)) by lia.
    rewrite scan_shift, flat_map_map. apply flat_map_same.
    intros [x|h] _; [reflexivity | apply Hf].
  - rewrite length_app. destruct m; [contradiction | simpl; lia].
  - unfold scan_fuel. lia.
Qed.

Lemma fix_curl_headers_step : forall pre mid body post,
  Str.contains (txt "curl -X POST") pre = false ->
  ~ In BACKSLASH mid ->
  Str.contains (txt "-d '{") mid = false ->
  ~ In "}"%char body ->
  fix_curl_headers
    (pre ++ (txt "curl -X POST" ++ mid ++ txt "-d '{" ++ body ++ txt "}'") ++ post)
  = pre
      ++ add_content_type
           (Mobj (length pre)
              (length pre
               + length (txt "curl -X POST" ++ mid ++ txt "-d '{" ++ body ++ txt "}'"))
              (txt "curl -X POST" ++ mid ++ txt "-d '{" ++ body ++ txt "}'")
              [ (2, txt "-d '{" ++ body ++ txt "}'"); (1, txt "curl -X POST" ++ mid) ])
      ++ fix_curl_headers post.
Proof.
  intros pre mid body post Hpre Hmid Hd Hbody. unfold fix_curl_headers.
  assert (A : forall t,
             (txt "curl -X POST" ++ mid ++ txt "-d '{" ++ body ++ txt "}'") ++ t
             = txt "curl -X POST" ++ mid ++ txt "-d '{" ++ body ++ txt "}'" ++ t).
  { intro t. rewrite <- !app_assoc. reflexivity. }
  apply re_sub_fn_step.
  - intros p1 p2 Ep Hne. unfold match_here, curl_pattern.
    rewrite rmatch_cat, rmatch_group_unfold, rmatch_cat. apply rmatch_lit_fails.
    destruct (Str.startswith (txt "curl -X POST") (p2 ++ _)) eqn:S; [|reflexivity].
    rewrite A in S. apply curl_start_no_overlap in S; [|exact Hne].
    rewrite (@absent_in_suffix _ _ _ _ Hpre Ep) in S. discriminate S.
  - rewrite A. apply curl_pattern_matches; assumption.
  - unfold txt. discriminate.
  - intros d h. reflexivity.
Qed.

End FixerEvaluation.

(** X23: what fix_curl_headers does to a command.  After text without
    the words curl -X POST, a command curl -X POST ... -d '{...}' whose
    part in front of the data argument holds neither a backslash nor
    another -d '{, and whose body holds no closing brace, is rewritten in
    place: the Content-Type header, a backslash, a newline and two spaces
    are put in front of the data argument unless the part in front
    already mentions Content-Type:, and the rest of the text is rewritten
    as if it stood alone. *)
Theorem X23_header_goes_in_front_of_the_data : forall pre mid body post,
  Str.contains (txt "curl -X POST") pre = false ->
  ~ In BACKSLASH mid ->
  Str.contains (txt "-d '{") mid = false ->
  ~ In "}"%char body ->
  Fixer.fix_curl_headers
    (pre ++ (txt "curl -X POST" ++ mid ++ txt "-d '{" ++ body ++ txt "}'") ++ post)
  = pre
      ++ (txt "curl -X POST" ++ mid
            ++ (if Str.contains (txt "Content-Type:") (txt "curl -X POST" ++ mid)
                then []
                else Fixer.content_type_header)
            ++ txt "-d '{" ++ body ++ txt "}'")
      ++ Fixer.fix_curl_headers post.
Proof.
  intros pre mid body post Hpre Hmid Hd Hbody.
  rewrite (@fix_curl_headers_step pre mid body post Hpre Hmid Hd Hbody).
  f_equal. f_equal. unfold Fixer.add_content_type, Re.group_or_empty, Re.group.
  cbn [Re.lookup Re.m_caps Re.m_text Nat.eqb].
  destruct (Str.contains (txt "Content-Type:") (txt "curl -X POST" ++ mid)).
  - reflexivity.
  - rewrite <- !app_assoc. reflexivity.
Qed.

Lemma X23_header_goes_in_front_of_the_data_witness :
  Fixer.fix_curl_headers
    (txt "Run: " ++ (txt "curl -X POST" ++ txt " https://api.lyceum.technology/x -H 'A: b' "
                       ++ txt "-d '{" ++ txt "'a': 1" ++ txt "}'") ++ txt " now.")
  = txt "Run: "
      ++ (txt "curl -X POST" ++ txt " https://api.lyceum.technology/x -H 'A: b' "
            ++ (if Str.contains (txt "Content-Type:")
                     (txt "curl -X POST" ++ txt " https://api.lyceum.technology/x -H 'A: b' ")
                then []
                else Fixer.content_type_header)
            ++ txt "-d '{" ++ txt "'a': 1" ++ txt "}'")
      ++ Fixer.fix_curl_headers (txt " now.").
Proof.
  apply (@X23_header_goes_in_front_of_the_data (txt "Run: ")
           (txt " https://api.lyceum.technology/x -H 'A: b' ") (txt "'a': 1")
           (txt " now.")).
  - reflexivity.
  - unfold txt; simpl; intuition discriminate.
  - reflexivity.
  - unfold txt; simpl; intuition discriminate.
Defined.

Section EmbeddedPythonEvaluation.
Import Re Fixer Props.

(** The key of the member, with its quotes and colon. *)
Lemma python_key_no_overlap : forall p2 rest,
  p2 <> [] ->
  Str.startswith ([DQUOTE] ++ txt "python_code" ++ [DQUOTE] ++ txt ":")
    (p2 ++ ([DQUOTE] ++ txt "python_code" ++ [DQUOTE] ++ txt ":") ++ rest) = true ->
  Str.startswith ([DQUOTE] ++ txt "python_code" ++ [DQUOTE] ++ txt ":") p2 = true.
Proof.
  intros p2 rest Hne H. unfold txt, DQUOTE in *. simpl in *.
  do 14 (destruct p2 as [|? p2];
         [simpl in H; repeat rewrite ?andb_false_r in H;
          try discriminate H; try contradiction|]).
  simpl in *. exact H.
Qed.

Lemma quote_replace_idle : forall code,
  ~ In DQUOTE code ->
  Str.replace [DQUOTE] [BACKSLASH; DQUOTE]
    (Str.replace [BACKSLASH; "n"%char] [BACKSLASH; BACKSLASH; "n"%char] code)
  = Str.replace [BACKSLASH; "n"%char] [BACKSLASH; BACKSLASH; "n"%char] code.
Proof.
  intros code Hq. apply replace_absent.
  destruct (Str.contains [DQUOTE]
              (Str.replace [BACKSLASH; "n"%char] [BACKSLASH; BACKSLASH; "n"%char] code))
    eqn:C; [|reflexivity].
  exfalso. apply contains_char in C. unfold Str.replace in C.
  apply in_replace_from in C as [C|C]; [exact (Hq C)|].
  destruct C as [C|[C|[C|[]]]]; discriminate C.
Qed.

Lemma json_python_pattern_matches : forall ws code post,
  Forall (fun a => Str.is_space a = true) ws ->
  ~ In DQUOTE code ->
  match_here json_python_pattern
    (([DQUOTE] ++ txt "python_code" ++ [DQUOTE] ++ txt ":") ++ ws ++ [DQUOTE]
       ++ code ++ [DQUOTE] ++ post) false
  = Some (post, [ (3, [DQUOTE]); (2, code);
                  (1, ([DQUOTE] ++ txt "python_code" ++ [DQUOTE] ++ txt ":")
                        ++ ws ++ [DQUOTE]) ]).
Proof.
  intros ws code post Fws Hq.
  set (Q := [DQUOTE] ++ txt "python_code" ++ [DQUOTE] ++ txt ":").
  set (s2 := code ++ [DQUOTE] ++ post).
  set (s0 := Q ++ ws ++ [DQUOTE] ++ s2).
  assert (F1 : firstn (length s0 - length s2) s0 = Q ++ ws ++ [DQUOTE]).
  { unfold s0. replace (Q ++ ws ++ [DQUOTE] ++ s2) with ((Q ++ ws ++ [DQUOTE]) ++ s2)
      by (rewrite <- !app_assoc; reflexivity).
    apply firstn_matched. }
  assert (F2 : firstn (length s2 - length ([DQUOTE] ++ post)) s2 = code).
  { unfold s2. apply firstn_matched. }
  assert (F3 : firstn (length ([DQUOTE] ++ post) - length post) ([DQUOTE] ++ post)
               = [DQUOTE]).
  { apply firstn_matched. }
  unfold match_here, json_python_pattern. fold Q.
  rewrite rmatch_cat, rmatch_group_unfold, rmatch_cat. fold s2. fold s0.
  unfold s0 at 1. rewrite rmatch_lit_app, rmatch_cat.
  apply star_greedy_class; [exact Fws | |].
  { intros x t Ex. cbn [app] in Ex. injection Ex as Hx _. rewrite <- Hx. reflexivity. }
  cbn [app]. rewrite rmatch_lit_char, Ascii.eqb_refl.
  rewrite rmatch_cat, rmatch_group_unfold.
  unfold s2 at 1.
  apply star_lazy_class.
  - apply Forall_forall. intros a _. reflexivity.
  - intros m1 m2 Em Hne. cbv beta. rewrite rmatch_group_unfold.
    destruct m2 as [|y m2]; [contradiction|]. cbn [app].
    rewrite rmatch_lit_char.
    destruct (Ascii.eqb y DQUOTE) eqn:Ey; [|reflexivity].
    apply Ascii.eqb_eq in Ey. subst y. exfalso. apply Hq. rewrite Em.
    apply in_or_app. right. left. reflexivity.
  - cbv beta. rewrite rmatch_group_unfold. cbn [app].
    rewrite rmatch_lit_char, Ascii.eqb_refl. cbn [andb].
    change (DQUOTE :: post) with ([DQUOTE] ++ post).
    rewrite F3, F2.
    change (DQUOTE :: s2) with ([DQUOTE] ++ s2).
    fold s0. rewrite F1. reflexivity.
Qed.

Lemma fix_embedded_python_step : forall pre ws code post,
  Str.contains ([DQUOTE] ++ txt "python_code" ++ [DQUOTE] ++ txt ":") pre = false ->
  Forall (fun a => Str.is_space a = true) ws ->
  ~ In DQUOTE code ->
  fix_python_indentation_in_json
    (pre ++ (([DQUOTE] ++ txt "python_code" ++ [DQUOTE] ++ txt ":") ++ ws ++ [DQUOTE]
               ++ code ++ [DQUOTE]) ++ post)
  = pre
      ++ fix_embedded_python
           (Mobj (length pre)
              (length pre
               + length (([DQUOTE] ++ txt "python_code" ++ [DQUOTE] ++ txt ":") ++ ws
                           ++ [DQUOTE] ++ code ++ [DQUOTE]))
              (([DQUOTE] ++ txt "python_code" ++ [DQUOTE] ++ txt ":") ++ ws
                 ++ [DQUOTE] ++ code ++ [DQUOTE])
              [ (3, [DQUOTE]); (2, code);
                (1, ([DQUOTE] ++ txt "python_code" ++ [DQUOTE] ++ txt ":")
                      ++ ws ++ [DQUOTE]) ])
      ++ fix_python_indentation_in_json post.
Proof.
  intros pre ws code post Hpre Fws Hq. unfold fix_python_indentation_in_json.
  set (Q := [DQUOTE] ++ txt "python_code" ++ [DQUOTE] ++ txt ":").
  assert (A : forall t,
             (Q ++ ws ++ [DQUOTE] ++ code ++ [DQUOTE]) ++ t
             = Q ++ ws ++ [DQUOTE] ++ code ++ [DQUOTE] ++ t).
  { intro t. rewrite <- !app_assoc. reflexivity. }
  apply re_sub_fn_step.
  - intros p1 p2 Ep Hne. unfold match_here, json_python_pattern. fold Q.
    rewrite rmatch_cat, rmatch_group_unfold, rmatch_cat. apply rmatch_lit_fails.
    destruct (Str.startswith Q (p2 ++ _)) eqn:S; [|reflexivity].
    rewrite A in S.
    replace (Q ++ ws ++ [DQUOTE] ++ code ++ [DQUOTE] ++ post)
      with (Q ++ (ws ++ [DQUOTE] ++ code ++ [DQUOTE] ++ post)) in S by reflexivity.
    apply python_key_no_overlap in S; [|exact Hne].
    rewrite (@absent_in_suffix _ _ _ _ Hpre Ep) in S. discriminate S.
  - rewrite A. apply json_python_pattern_matches; assumption.
  - unfold Q. discriminate.
  - intros d h. reflexivity.
Qed.

End EmbeddedPythonEvaluation.

(** X24: what the third rewrite does to an embedded program.  After
    text that does not hold the key, a member made of the key
    python_code in double quotes, a colon, optional whitespace and a
    string without double quotes keeps its key and quotes, and every
    backslash followed by n in the string gets a second backslash in
    front; the rest of the text is rewritten as if it stood alone.  (A
    string ends at its first double quote, escaped or not.) *)
Theorem X24_embedded_newlines_get_a_backslash : forall pre ws code post,
  Str.contains ([DQUOTE] ++ txt "python_code" ++ [DQUOTE] ++ txt ":") pre = false ->
  Forall (fun a => Str.is_space a = true) ws ->
  ~ In DQUOTE code ->
  Fixer.fix_python_indentation_in_json
    (pre ++ (([DQUOTE] ++ txt "python_code" ++ [DQUOTE] ++ txt ":") ++ ws ++ [DQUOTE]
               ++ code ++ [DQUOTE]) ++ post)
  = pre
      ++ (([DQUOTE] ++ txt "python_code" ++ [DQUOTE] ++ txt ":") ++ ws ++ [DQUOTE]
            ++ Str.replace [BACKSLASH; "n"%char] [BACKSLASH; BACKSLASH; "n"%char] code
            ++ [DQUOTE])
      ++ Fixer.fix_python_indentation_in_json post.
Proof.
  intros pre ws code post Hpre Fws Hq.
  rewrite (@fix_embedded_python_step pre ws code post Hpre Fws Hq).
  f_equal. f_equal. unfold Fixer.fix_embedded_python, Re.group_or_empty, Re.group.
  cbn [Re.lookup Re.m_caps Nat.eqb]. rewrite (@quote_replace_idle code Hq).
  rewrite <- !app_assoc. reflexivity.
Qed.

Lemma X24_embedded_newlines_get_a_backslash_witness :
  Fixer.fix_python_indentation_in_json
    (txt "{" ++ (([DQUOTE] ++ txt "python_code" ++ [DQUOTE] ++ txt ":") ++ txt " "
                   ++ [DQUOTE] ++ (txt "a = 1" ++ [BACKSLASH] ++ txt "nprint(a)")
                   ++ [DQUOTE]) ++ txt "}")
  = txt "{"
      ++ (([DQUOTE] ++ txt "python_code" ++ [DQUOTE] ++ txt ":") ++ txt " " ++ [DQUOTE]
            ++ Str.replace [BACKSLASH; "n"%char] [BACKSLASH; BACKSLASH; "n"%char]
                 (txt "a = 1" ++ [BACKSLASH] ++ txt "nprint(a)")
            ++ [DQUOTE])
      ++ Fixer.fix_python_indentation_in_json (txt "}").
Proof.
  apply (@X24_embedded_newlines_get_a_backslash (txt "{") (txt " ")
           (txt "a = 1" ++ [BACKSLASH] ++ txt "nprint(a)") (txt "}")).
  - reflexivity.
  - repeat constructor.
  - unfold txt, DQUOTE, BACKSLASH; simpl; intuition discriminate.
Defined.

(* ================================================================== *)
(** * Trailing commas *)

Section TrailingCommas.
Import Re Validator Props.


Lemma contains_suffix_false : forall p pre s,
  Str.contains p (pre ++ s) = false -> Str.contains p s = false.
Proof.
  intros p pre s H. destruct (Str.contains p s) eqn:C; [|reflexivity].
  rewrite <- H. symmetry.
  pose proof (@contains_infix p pre s [] C) as I. rewrite app_nil_r in I. exact I.
Qed.

Lemma trailing_comma_matches : forall ws c post,
  Forall (fun a => Str.is_space a = true) ws ->
  c = "}"%char \/ c = "]"%char ->
  match_here trailing_comma ([","%char] ++ (ws ++ [c]) ++ post) false
  = Some (post, [(1, ws ++ [c])]).
Proof.
  intros ws c post Fws Hc. unfold match_here, trailing_comma.
  rewrite rmatch_cat. cbn [app]. rewrite rmatch_lit_char, Ascii.eqb_refl.
  rewrite rmatch_group_unfold, rmatch_cat. rewrite <- app_assoc.
  apply star_greedy_class; [exact Fws | |].
  - intros x t E. cbn [app] in E. injection E as Ex _. rewrite <- Ex.
    destruct Hc as [-> | ->]; reflexivity.
  - cbn [app]. rewrite rmatch_class_char.
    replace (any_of (txt "}]") c) with true
      by (destruct Hc as [-> | ->]; reflexivity).
    cbn [andb].
    change (ws ++ c :: post) with (ws ++ [c] ++ post).
    rewrite app_assoc, (firstn_matched (ws ++ [c]) post). reflexivity.
Qed.

Lemma clean_json_line_step : forall a ws c post,
  Str.contains (txt "//") (a ++ ([","%char] ++ ws ++ [c]) ++ post) = false ->
  ~ In ","%char a ->
  Forall (fun x => Str.is_space x = true) ws ->
  c = "}"%char \/ c = "]"%char ->
  clean_json_line (a ++ ([","%char] ++ ws ++ [c]) ++ post)
  = a ++ (ws ++ [c]) ++ clean_json_line post.
Proof.
  intros a ws c post Hs Ha Fws Hc. unfold clean_json_line.
  rewrite Hs.
  assert (Hp : Str.contains (txt "//") post = false).
  { apply (@contains_suffix_false _ (a ++ [","%char] ++ ws ++ [c])).
    rewrite <- app_assoc. exact Hs. }
  rewrite Hp. unfold re_sub.
  rewrite (@re_sub_fn_step trailing_comma _ a ([","%char] ++ ws ++ [c]) post
             [(1, ws ++ [c])]).
  - f_equal. f_equal.
    change (expand (compile_template [BACKSLASH; "1"%char])
              (Mobj (length a) (length a + length ([","%char] ++ ws ++ [c]))
                 ([","%char] ++ ws ++ [c]) [(1, ws ++ [c])]))
      with ((ws ++ [c]) ++ []).
    apply app_nil_r.
  - intros p1 p2 E Hne. destruct p2 as [|y p2]; [contradiction|].
    unfold match_here, trailing_comma. rewrite rmatch_cat. cbn [app].
    rewrite rmatch_lit_char.
    destruct (Ascii.eqb y ",") eqn:Ey; [|reflexivity].
    apply Ascii.eqb_eq in Ey. subst y. exfalso. apply Ha. rewrite E.
    apply in_or_app. right. left. reflexivity.
  - replace (([","%char] ++ ws ++ [c]) ++ post)
      with ([","%char] ++ (ws ++ [c]) ++ post) by (rewrite <- !app_assoc; reflexivity).
    apply trailing_comma_matches; assumption.
  - discriminate.
  - intros d h. reflexivity.
Qed.

End TrailingCommas.


(** X26: a comma in front of a closing brace or bracket is removed.  In
    a line without two slashes, after text without commas, a comma
    followed by optional whitespace and a closing brace or bracket is
    dropped, the whitespace and the closing character are kept, and the
    rest of the line is cleaned in the same way. *)
Theorem X26_trailing_comma_is_removed : forall a ws c post,
  Str.contains (txt "//") (a ++ ([","%char] ++ ws ++ [c]) ++ post) = false ->
  ~ In ","%char a ->
  Forall (fun x => Str.is_space x = true) ws ->
  c = "}"%char \/ c = "]"%char ->
  Validator.clean_json_line (a ++ ([","%char] ++ ws ++ [c]) ++ post)
  = a ++ (ws ++ [c]) ++ Validator.clean_json_line post.
Proof.
  intros a ws c post Hs Ha Fws Hc. apply clean_json_line_step; assumption.
Qed.

Lemma X26_trailing_comma_is_removed_witness :
  Validator.clean_json_line
    (txt "  'tags': ['a'" ++ ([","%char] ++ txt " " ++ ["]"%char]) ++ txt ",")
  = txt "  'tags': ['a'" ++ (txt " " ++ ["]"%char]) ++ Validator.clean_json_line (txt ",").
Proof.
  apply (@X26_trailing_comma_is_removed (txt "  'tags': ['a'") (txt " ") "]"%char
           (txt ",")).
  - reflexivity.
  - unfold txt; simpl; intuition discriminate.
  - repeat constructor.
  - right. reflexivity.
Defined.
(* ================================================================== *)
(** * The validator: what each check appends *)

Section LogFacts.
Import Validator Spec.

Lemma logs_refl : forall v, logs v v [] [].
Proof. intro v. repeat split; symmetry; apply app_nil_r. Qed.

Lemma logs_trans : forall a b c e1 w1 e2 w2,
  logs a b e1 w1 -> logs b c e2 w2 -> logs a c (e1 ++ e2) (w1 ++ w2).
Proof.
  intros a b c e1 w1 e2 w2 (E1 & W1 & T1 & R1) (E2 & W2 & T2 & R2). repeat split.
  - rewrite E2, E1, app_assoc. reflexivity.
  - rewrite W2, W1, app_assoc. reflexivity.
  - congruence.
  - congruence.
Qed.

Lemma logs_error : forall v e, logs v (add_error v e) [e] [].
Proof. intros v e. repeat split. simpl. symmetry. apply app_nil_r. Qed.

Lemma logs_warning : forall v e, logs v (add_warning v e) [] [e].
Proof. intros v e. repeat split. simpl. symmetry. apply app_nil_r. Qed.

Lemma logs_token : forall v v' es ws, logs v v' es ws -> auth_token v' = auth_token v.
Proof. intros v v' es ws (_ & _ & T & _). exact T. Qed.

Lemma count_if_app : forall f a b, count_if f (a ++ b) = count_if f a + count_if f b.
Proof. intros f a b. unfold count_if. rewrite filter_app, length_app. reflexivity. Qed.

Lemma count_if_none : forall (f : text -> bool) (P : text -> Prop) l,
  (forall e, P e -> f e = false) -> Forall P l -> count_if f l = 0.
Proof.
  intros f P l H F. induction F as [|e l He F IH]; [reflexivity|].
  unfold count_if in *. simpl. rewrite (H _ He). exact IH.
Qed.


(** A loop that is not left reaches every item. *)
Lemma upto_all : forall (A : Type) (stop : A -> option text) l,
  Forall (fun a => stop a = None) l -> upto stop l = l /\ first_stop stop l = None.
Proof.
  intros A stop l F. induction F as [|a l Ha F [IH1 IH2]]; [split; reflexivity|].
  cbn [upto first_stop]. rewrite Ha, IH1, IH2. split; reflexivity.
Qed.

Lemma first_stop_none : forall (A : Type) (stop : A -> option text) l,
  first_stop stop l = None -> Forall (fun a => stop a = None) l.
Proof.
  intros A stop l. induction l as [|a l IH]; cbn [first_stop]; intro H; [constructor|].
  destruct (stop a) eqn:Ea; [discriminate H|]. constructor; [exact Ea | exact (IH H)].
Qed.

Lemma first_stop_some : forall (A : Type) (stop : A -> option text) l e,
  first_stop stop l = Some e -> exists a, In a l /\ stop a = Some e.
Proof.
  intros A stop l e. induction l as [|a l IH]; cbn [first_stop]; intro H;
    [discriminate H|].
  destruct (stop a) eqn:Ea.
  - exists a. split; [left; reflexivity | congruence].
  - destruct (IH H) as (b & Hb & Eb). exists b. split; [right; exact Hb | exact Eb].
Qed.

Lemma upto_incl : forall (A : Type) (stop : A -> option text) l a,
  In a (upto stop l) -> In a l.
Proof.
  intros A stop l. induction l as [|b l IH]; cbn [upto]; intros a H; [exact H|].
  destruct (stop b).
  - destruct H as [H|[]]. left. exact H.
  - destruct H as [H|H]; [left; exact H | right; exact (IH _ H)].
Qed.

Lemma upto_map : forall (A B : Type) (f : A -> B) (stop : B -> option text) l,
  upto stop (map f l) = map f (upto (fun a => stop (f a)) l).
Proof.
  intros A B f stop l. induction l as [|a l IH]; cbn [map upto]; [reflexivity|].
  destruct (stop (f a)); cbn [map]; [reflexivity|]. rewrite IH. reflexivity.
Qed.

Lemma first_stop_map : forall (A B : Type) (f : A -> B) (stop : B -> option text) l,
  first_stop stop (map f l) = first_stop (fun a => stop (f a)) l.
Proof.
  intros A B f stop l. induction l as [|a l IH]; cbn [map first_stop]; [reflexivity|].
  destruct (stop (f a)); [reflexivity | exact IH].
Qed.

Lemma concat_exact : forall (A : Type) (W : A -> list text) l wss,
  Forall2 (fun a ws => ws = W a) l wss -> concat wss = flat_map W l.
Proof.
  intros A W l wss F. induction F as [|a ws l wss E F IH]; [reflexivity|].
  cbn [concat flat_map]. rewrite E, IH. reflexivity.
Qed.

Lemma count_concat : forall (A : Type) (f : text -> bool) (g : A -> nat) l wss,
  Forall2 (fun a ws => count_if f ws = g a) l wss ->
  count_if f (concat wss) = list_sum (map g l).
Proof.
  intros A f g l wss F. induction F as [|a ws l wss E F IH]; [reflexivity|].
  cbn [concat map list_sum]. rewrite count_if_app, E, IH. reflexivity.
Qed.

Lemma Forall2_weaken : forall (A B : Type) (P Q : A -> B -> Prop) l l',
  (forall a b, In a l -> P a b -> Q a b) -> Forall2 P l l' -> Forall2 Q l l'.
Proof.
  intros A B P Q l l' H F. induction F as [|a b l l' Pab F IH]; constructor.
  - apply H; [left; reflexivity | exact Pab].
  - apply IH. intros x y Hx. apply H. right. exact Hx.
Qed.



(** A loop whose body appends, at an item, errors that depend on the item
    only, and raises what depends on the item only. *)
Section Loop.
Variables (A S : Type) (body : validator -> S -> A -> call S).
Variable token : option text.
Variables (E : A -> list text) (stop : A -> option text).
Variable Q : A -> list text -> Prop.
Hypothesis body_logs : forall v s a,
  auth_token v = token ->
  exists ws, logs v (fst (body v s a)) (E a) ws
             /\ Q a ws
             /\ raised (snd (body v s a)) = stop a.

Lemma for_each_logs : forall l v s,
  auth_token v = token ->
  exists wss,
    logs v (fst (for_each body l v s)) (flat_map E (upto stop l)) (concat wss)
    /\ Forall2 Q (upto stop l) wss
    /\ raised (snd (for_each body l v s)) = first_stop stop l.
Proof.
  induction l as [|a l IH]; intros v s T; cbn [for_each upto first_stop flat_map].
  - exists []. split; [apply logs_refl|]. split; [constructor | reflexivity].
  - destruct (body_logs v s a T) as (ws & L & q & R).
    destruct (body v s a) as [v1 [s1|e]]; cbn [fst snd raised bind] in *.
    + rewrite <- R.
      assert (T1 : auth_token v1 = token) by (rewrite (logs_token L); exact T).
      destruct (IH v1 s1 T1) as (wss & L' & F & R').
      exists (ws :: wss). split; [|split].
      * cbn [flat_map concat]. exact (logs_trans L L').
      * constructor; assumption.
      * exact R'.
    + rewrite <- R. exists [ws]. split; [|split].
      * cbn [flat_map concat fst]. rewrite !app_nil_r. exact L.
      * repeat constructor. exact q.
      * reflexivity.
Qed.

End Loop.

Variable w : World.

(** ** JSON blocks *)

Lemma json_step_logs : forall fn v s b,
  logs v (fst (json_step w fn v s b)) (json_error_entries w fn b)
    (json_warning_entries w fn b)
  /\ raised (snd (json_step w fn v s b)) = json_stop w b.
Proof.
  intros fn v s b.
  unfold json_step, json_error_entries, json_warning_entries, json_stop, is_json_block.
  destruct (Str.eqb (language b) (txt "json")); cbn [fst snd raised];
    [|split; [apply logs_refl | reflexivity]].
  destruct (json_loads w (clean_json_code (code b))) as [|e|e]; cbn [fst snd raised];
    [split; [apply logs_refl | reflexivity]| |split; [apply logs_refl | reflexivity]].
  destruct (is_template_json (code b)); cbn [negb fst snd raised];
    (split; [first [apply logs_warning | apply logs_error] | reflexivity]).
Qed.

Lemma json_steps_logs : forall fn blocks v s,
  logs v (fst (for_each (json_step w fn) blocks v s))
    (flat_map (json_error_entries w fn) (upto (json_stop w) blocks))
    (flat_map (json_warning_entries w fn) (upto (json_stop w) blocks))
  /\ raised (snd (for_each (json_step w fn) blocks v s))
     = first_stop (json_stop w) blocks.
Proof.
  intros fn blocks v s.
  destruct (@for_each_logs code_block bool (json_step w fn) (auth_token v)
              (json_error_entries w fn) (json_stop w)
              (fun b ws => ws = json_warning_entries w fn b)) with (l := blocks) (v := v) (s := s)
    as (wss & L & F & R).
  - intros v0 s0 b _. exists (json_warning_entries w fn b).
    destruct (json_step_logs fn v0 s0 b) as [L R].
    split; [exact L | split; [reflexivity | exact R]].
  - reflexivity.
  - rewrite (concat_exact _ F) in L. split; assumption.
Qed.

(** validate_json_examples, block by block. *)
Lemma json_pass_logs : forall v content fn,
  logs v (fst (validate_json_examples w v content fn))
    (flat_map (json_error_entries w fn) (upto (json_stop w) (extract_code_blocks content)))
    (flat_map (json_warning_entries w fn)
       (upto (json_stop w) (extract_code_blocks content)))
  /\ raised (snd (validate_json_examples w v content fn))
     = first_stop (json_stop w) (extract_code_blocks content).
Proof. intros v content fn. apply json_steps_logs. Qed.

(** The value that the pass returns when it returns. *)
Lemma json_step_flag : forall fn v s b v1 s1,
  json_step w fn v s b = (v1, Done s1) ->
  s1 = s && negb (is_invalid_json_block w b).
Proof.
  intros fn v s b v1 s1.
  unfold json_step, is_invalid_json_block, is_json_block, fails_to_parse.
  destruct (Str.eqb (language b) (txt "json")); cbn [andb negb].
  - destruct (json_loads w (clean_json_code (code b))) as [|e|e]; cbn [andb negb].
    + intro H. injection H as _ <-. rewrite andb_true_r. reflexivity.
    + destruct (is_template_json (code b)); cbn [negb]; intro H; injection H as _ <-;
        [rewrite andb_true_r | rewrite andb_false_r]; reflexivity.
    + discriminate.
  - intro H. injection H as _ <-. rewrite andb_true_r. reflexivity.
Qed.

Lemma json_steps_flag : forall fn blocks v s ok,
  snd (for_each (json_step w fn) blocks v s) = Done ok ->
  ok = s && forallb (fun b => negb (is_invalid_json_block w b)) blocks.
Proof.
  intros fn blocks. induction blocks as [|b blocks IH]; intros v s ok;
    cbn [for_each forallb].
  - cbn [snd]. intro H. injection H as <-. rewrite andb_true_r. reflexivity.
  - pose proof (@json_step_flag fn v s b) as F.
    destruct (json_step w fn v s b) as [v1 [s1|e]]; cbn [bind].
    + intro H. apply IH in H. rewrite H, (F v1 s1 eq_refl), andb_assoc. reflexivity.
    + cbn [snd]. discriminate.
Qed.

Lemma json_entries_nil : forall fn blocks,
  flat_map (json_error_entries w fn) blocks = []
  <-> forallb (fun b => negb (is_invalid_json_block w b)) blocks = true.
Proof.
  intros fn blocks. induction blocks as [|b blocks IH]; cbn [flat_map forallb].
  - split; reflexivity.
  - unfold json_error_entries at 1, is_invalid_json_block at 1, fails_to_parse.
    destruct (is_json_block b); cbn [andb negb app]; [|exact IH].
    destruct (json_loads w (clean_json_code (code b))); cbn [andb negb app];
      [exact IH| |exact IH].
    destruct (is_template_json (code b)); cbn [andb negb app]; [exact IH|].
    split; discriminate.
Qed.







Lemma auth_entry_is_auth : forall fn e, auth_entry fn e -> is_auth_failure fn e = true.
Proof.
  intros fn e (d & ->). unfold is_auth_failure. rewrite startswith_common. reflexivity.
Qed.


End LogFacts.
(* ================================================================== *)
(** * The validator: what a file and a run append *)

Section RunFacts.
Import Validator Spec Props.
Variable w : World.

Lemma python_is_not_json : forall b,
  Str.eqb (language b) (txt "python") = true -> is_json_block b = false.
Proof.
  intros b H. apply eqb_eq in H. unfold is_json_block. rewrite H. reflexivity.
Qed.

Lemma python_checks_logs : forall v code fn,
  exists ws,
    logs v
      (fst (validate_python_imports w (fst (validate_python_syntax w v code fn)) code fn))
      (python_error_entries w fn code) ws.
Proof.
  intros v code fn.
  unfold validate_python_syntax, validate_python_imports, python_error_entries.
  destruct (ast_parse w (clean_python_code code)) as [tree|e|e]; cbn [fst].
  - destruct (problematic_imports w (flat_map imported_names tree) [])
      as [[|p ps]|e]; cbn [fst]; eexists;
      first [apply logs_refl | apply logs_warning | apply logs_error].
  - exists ([] ++ []). eapply (@logs_trans _ _ _ [_] [] [_] []); apply logs_error.
  - exists ([] ++ []). eapply (@logs_trans _ _ _ [_] [] [_] []); apply logs_error.
Qed.


(** The loop of validate_file at one block. *)
Lemma block_step_logs : forall content fn v res b,
  exists ws,
    logs v (fst (block_step w content fn v res b)) (block_errors w fn content b) ws
    /\ True
    /\ raised (snd (block_step w content fn v res b)) = block_stop w content b.
Proof.
  intros content fn v res b.
  unfold block_step, block_errors, block_stop, is_python_block, is_json_block.
  destruct (Str.eqb (language b) (txt "python")); cbn [fst snd raised].
  - destruct (python_checks_logs v (code b) fn) as (ws & L).
    exists ws. repeat split; apply L.
  - destruct (Str.eqb (language b) (txt "json")); cbn [fst snd raised].
    + destruct (json_pass_logs w v content fn) as [L R].
      destruct (validate_json_examples w v content fn) as [v1 [ok|e]];
        cbn [bind fst snd raised] in *; eexists; (split; [exact L|]);
        (split; [exact I | exact R]).
    + exists []. split; [apply logs_refl | split; [exact I | reflexivity]].
Qed.

Lemma block_steps_logs : forall content fn blocks v res,
  exists ws,
    logs v (fst (for_each (block_step w content fn) blocks v res))
      (flat_map (block_errors w fn content) (upto (block_stop w content) blocks)) ws
    /\ raised (snd (for_each (block_step w content fn) blocks v res))
       = first_stop (block_stop w content) blocks.
Proof.
  intros content fn blocks v res.
  destruct (@for_each_logs code_block results (block_step w content fn) (auth_token v)
              (block_errors w fn content) (block_stop w content)
              (fun _ _ => True)) with (l := blocks) (v := v) (s := res)
    as (wss & L & _ & R).
  - intros v0 s0 b _. apply block_step_logs.
  - reflexivity.
  - exists (concat wss). split; assumption.
Qed.

(** The loop over the blocks is left exactly when a pass over the JSON
    blocks is. *)
Lemma json_stop_needs_json : forall l e,
  first_stop (json_stop w) l = Some e -> existsb is_json_block l = true.
Proof.
  intros l e. induction l as [|b l IH]; cbn [first_stop existsb]; [discriminate|].
  unfold json_stop at 1. destruct (is_json_block b); [reflexivity|]. exact IH.
Qed.

Lemma first_block_stop_of : forall content l,
  first_stop (block_stop w content) l
  = if existsb is_json_block l
    then first_stop (json_stop w) (extract_code_blocks content)
    else None.
Proof.
  intros content l. induction l as [|b l IH]; cbn [first_stop existsb]; [reflexivity|].
  unfold block_stop at 1, is_python_block.
  destruct (Str.eqb (language b) (txt "python")) eqn:P.
  - rewrite (python_is_not_json b P). exact IH.
  - destruct (is_json_block b); cbn [orb]; [|exact IH].
    destruct (first_stop (json_stop w) (extract_code_blocks content)) eqn:F;
      [reflexivity|].
    rewrite IH. destruct (existsb is_json_block l); reflexivity.
Qed.

Lemma first_block_stop : forall content,
  first_stop (block_stop w content) (extract_code_blocks content)
  = first_stop (json_stop w) (extract_code_blocks content).
Proof.
  intro content. rewrite first_block_stop_of.
  destruct (first_stop (json_stop w) (extract_code_blocks content)) as [e|] eqn:F.
  - rewrite (json_stop_needs_json _ F). reflexivity.
  - destruct (existsb is_json_block (extract_code_blocks content)); reflexivity.
Qed.

(** The counters after the loop over the blocks. *)
Lemma block_step_counts : forall content fn v res b v1 r,
  block_step w content fn v res b = (v1, Done r) ->
  file r = file res
  /\ python_blocks r = python_blocks res + (if is_python_block b then 1 else 0)
  /\ json_blocks r = json_blocks res + (if is_json_block b then 1 else 0)
  /\ curl_commands r = curl_commands res
  /\ api_endpoints r = api_endpoints res
  /\ res_errors r = res_errors res
  /\ res_warnings r = res_warnings res.
Proof.
  intros content fn v res b v1 r. unfold block_step, is_python_block.
  destruct (Str.eqb (language b) (txt "python")) eqn:P.
  - rewrite (python_is_not_json b P). intro H. injection H as _ <-.
    cbn. repeat split; lia.
  - unfold is_json_block.
    destruct (Str.eqb (language b) (txt "json")).
    + destruct (validate_json_examples w v content fn) as [v2 [ok|e]]; cbn [bind];
        [|discriminate].
      intro H. injection H as _ <-. cbn. repeat split; lia.
    + intro H. injection H as _ <-. repeat split; lia.
Qed.

Lemma block_steps_counts : forall content fn blocks v res r,
  snd (for_each (block_step w content fn) blocks v res) = Done r ->
  file r = file res
  /\ python_blocks r = python_blocks res + length (filter is_python_block blocks)
  /\ json_blocks r = json_blocks res + length (filter is_json_block blocks)
  /\ curl_commands r = curl_commands res
  /\ api_endpoints r = api_endpoints res
  /\ res_errors r = res_errors res
  /\ res_warnings r = res_warnings res.
Proof.
  intros content fn blocks. induction blocks as [|b blocks IH]; intros v res r;
    cbn [for_each filter].
  - cbn [snd]. intro H. injection H as <-. cbn. repeat split; lia.
  - pose proof (@block_step_counts content fn v res b) as C.
    destruct (block_step w content fn v res b) as [v1 [res1|e]]; cbn [bind];
      [|cbn [snd]; discriminate].
    intro H. apply IH in H.
    destruct (C v1 res1 eq_refl) as (C1 & C2 & C3 & C4 & C5 & C6 & C7).
    destruct H as (I1 & I2 & I3 & I4 & I5 & I6 & I7).
    rewrite I1, I2, I3, I4, I5, I6, I7, C1, C2, C3, C4, C5, C6, C7.
    destruct (is_python_block b), (is_json_block b); cbn [length];
      repeat split; lia.
Qed.

(** ** The curl check *)

Lemma curl_commands_logs : forall fn cmds v,
  exists ws, logs v (fst (validate_curl_commands v cmds fn)) [] ws.
Proof.
  intros fn cmds. unfold validate_curl_commands. cbn [fst].
  induction cmds as [|c cmds IH]; intro v; cbn [fold_left].
  - exists []. apply logs_refl.
  - destruct (@curl_step_warnings fn v c) as (E & T & R & ws & W & _).
    destruct (IH (curl_step fn v c)) as (ws' & L').
    exists (ws ++ ws'). apply (@logs_trans v (curl_step fn v c) _ [] ws [] ws');
      [|exact L'].
    repeat split; [rewrite app_nil_r; exact E | exact W | exact T | exact R].
Qed.

(** ** The endpoint check *)

Lemma tested_urls : forall url,
  tested url = true <-> url = credits_url \/ url = list_files_url.
Proof.
  intro url. unfold tested. rewrite mem_true. unfold lyceum_test_endpoints. split.
  - intros [E|[E|[]]]; [left | right]; symmetry; exact E.
  - intros [E|E]; subst url; [left | right; left]; reflexivity.
Qed.

Lemma tested_in_api : forall url,
  tested url = true -> Str.contains (txt "api.lyceum.technology") url = true.
Proof.
  intros url H. apply tested_urls in H as [-> | ->]; vm_compute; reflexivity.
Qed.

Lemma tested_matches : forall url, tested url = true -> matches_expected url = true.
Proof.
  intros url H. apply tested_urls in H as [-> | ->]; vm_compute; reflexivity.
Qed.

Lemma credits_is_tested : forall url,
  Str.eqb url credits_url = true -> tested url = true.
Proof.
  intros url H. apply eqb_eq in H. apply tested_urls. left. exact H.
Qed.

Lemma has_token_of : forall v token,
  auth_token v = token ->
  has_token v = match token with
                | Some t => Str.nonempty t
                | None => false
                end.
Proof. intros v token H. unfold has_token. rewrite H. reflexivity. Qed.

Lemma warning_is_not_unrecognized : forall fn tag detail u,
  (forall x y, txt ": " ++ tag ++ x <> txt ": Unrecognized Lyceum endpoint pattern: " ++ y) ->
  fn ++ txt ": " ++ tag ++ detail <> unrecognized_warning fn u.
Proof.
  intros fn tag detail u H E. unfold unrecognized_warning in E.
  apply app_inv_head in E. exact (H _ _ E).
Qed.

Lemma structure_logs : forall v url fn,
  logs v (fst (validate_lyceum_endpoint_structure v url fn)) []
    (if matches_expected url then [] else [unrecognized_warning fn url])
  /\ snd (validate_lyceum_endpoint_structure v url fn) = true.
Proof.
  intros v url fn. unfold validate_lyceum_endpoint_structure.
  destruct (matches_expected url); cbn [fst snd];
    (split; [first [apply logs_refl | apply logs_warning] | reflexivity]).
Qed.

Lemma test_endpoint_logs : forall v url fn,
  exists pw,
    logs v (fst (test_endpoint w v url fn)) [] pw
    /\ Forall (fun e => forall u, e <> unrecognized_warning fn u) pw.
Proof.
  intros v url fn. unfold test_endpoint.
  destruct (requests w GET url None) as [status body|e]; cbn [fst].
  - destruct (400 <=? status)%Z; cbn [fst].
    + eexists. split; [apply logs_warning|]. repeat constructor.
      intros u E. unfold unrecognized_warning in E. apply app_inv_head in E.
      unfold txt in E. simpl in E. discriminate E.
    + exists []. split; [apply logs_refl | constructor].
  - eexists. split; [apply logs_warning|]. repeat constructor.
    intros u E. unfold unrecognized_warning in E. apply app_inv_head in E.
    unfold txt in E. simpl in E. discriminate E.
Qed.

Lemma not_200 : forall status : Z,
  (status =? 401)%Z = true \/ (status =? 403)%Z = true \/ (400 <=? status)%Z = true
  \/ (500 <=? status)%Z = true ->
  (status =? 200)%Z = false.
Proof.
  intros status H. apply Z.eqb_neq. intro E. subst status.
  destruct H as [H|[H|[H|H]]]; discriminate H.
Qed.

(** The probe of a tested endpoint, with a token. *)
Lemma tested_probe : forall v url fn t,
  auth_token v = Some t ->
  tested url = true ->
  exists pw,
    logs v (fst (test_lyceum_endpoint w v url fn))
      (match requests w GET url (Some t) with
       | Response status _ =>
           if (status =? 401)%Z then [authentication_error fn url] else []
       | RequestException _ => []
       end) pw
    /\ Forall (fun e => forall u, e <> unrecognized_warning fn u) pw
    /\ raised (snd (test_lyceum_endpoint w v url fn))
       = (if Str.eqb url credits_url then
            match requests w GET url (Some t) with
            | Response status (NonObject (TypeError e)) =>
                if (status =? 200)%Z then Some e else None
            | _ => None
            end
          else None)
    /\ (forall body, requests w GET url (Some t) = Response 403 body ->
          In (forbidden_warning fn url) pw).
Proof.
  intros v url fn t Ht Hu.
  assert (Hm : Str.contains (txt "billing/credits") url = Str.eqb url credits_url
               /\ (Str.contains (txt "billing/credits") url
                   || Str.contains (txt "storage/list-files") url = true)).
  { apply tested_urls in Hu as [-> | ->]; split; vm_compute; reflexivity. }
  destruct Hm as [Hc Hg].
  assert (Hr : (if Str.contains (txt "billing/credits") url
                then requests w GET url (Some t)
                else if Str.contains (txt "storage/list-files") url
                     then requests w GET url (Some t)
                     else requests w OPTIONS url (Some t))
               = requests w GET url (Some t)).
  { destruct (Str.contains (txt "billing/credits") url); [reflexivity|].
    destruct (Str.contains (txt "storage/list-files") url); [reflexivity|].
    discriminate Hg. }
  unfold test_lyceum_endpoint. rewrite Ht, Hr, Hc.
  assert (Hw : forall tag detail,
             (forall x y, txt ": " ++ tag ++ x
                          <> txt ": Unrecognized Lyceum endpoint pattern: " ++ y) ->
             Forall (fun e => forall u, e <> unrecognized_warning fn u)
                    [fn ++ txt ": " ++ tag ++ detail]).
  { intros tag detail H. constructor; [|constructor].
    intro u. apply warning_is_not_unrecognized. exact H. }
  destruct (requests w GET url (Some t)) as [status body|e].
  2:{ eexists. split; [apply logs_warning|]. split.
      - apply (Hw (txt "Could not reach Lyceum endpoint ")).
        intros x y E. unfold txt in E. simpl in E. discriminate E.
      - split; [|intros body H; discriminate H].
        cbn [snd raised]. destruct (Str.eqb url credits_url); reflexivity. }
  destruct (status =? 401)%Z eqn:S1.
  { eexists. split; [apply logs_error|]. split; [constructor|]. split.
    - cbn [snd raised]. rewrite (not_200 status) by (left; exact S1).
      destruct (Str.eqb url credits_url); [|reflexivity].
      destruct body as [data|[|e]|]; reflexivity.
    - intros body' H. injection H as H _. subst status. discriminate S1. }
  destruct (status =? 403)%Z eqn:S3.
  { eexists. split; [apply logs_warning|]. split.
    - apply (Hw (txt "Forbidden access to ")).
      intros x y E. unfold txt in E. simpl in E. discriminate E.
    - split.
      + cbn [snd raised]. rewrite (not_200 status) by (right; left; exact S3).
        destruct (Str.eqb url credits_url); [|reflexivity].
        destruct body as [data|[|e]|]; reflexivity.
      + intros body' H. left. reflexivity. }
  assert (N403 : forall body', Response status body <> Response 403 body').
  { intros body' H. injection H as H _. subst status. discriminate S3. }
  destruct (500 <=? status)%Z eqn:S5.
  { eexists. split; [apply logs_warning|]. split.
    - apply (Hw (txt "Server error ")).
      intros x y E. unfold txt in E. simpl in E. discriminate E.
    - split; [|intros body' H; destruct (N403 _ H)].
      cbn [snd raised]. rewrite (not_200 status) by (right; right; right; exact S5).
      destruct (Str.eqb url credits_url); [|reflexivity].
      destruct body as [data|[|e]|]; reflexivity. }
  destruct (400 <=? status)%Z eqn:S4.
  { eexists. split; [apply logs_warning|]. split.
    - apply (Hw (txt "Client error ")).
      intros x y E. unfold txt in E. simpl in E. discriminate E.
    - split; [|intros body' H; destruct (N403 _ H)].
      cbn [snd raised]. rewrite (not_200 status) by (right; right; left; exact S4).
      destruct (Str.eqb url credits_url); [|reflexivity].
      destruct body as [data|[|e]|]; reflexivity. }
  destruct (Str.eqb url credits_url); cbn [andb].
  2:{ exists []. split; [apply logs_refl|]. split; [constructor|].
      split; [reflexivity | intros body' H; destruct (N403 _ H)]. }
  destruct (status =? 200)%Z.
  2:{ exists []. split; [apply logs_refl|]. split; [constructor|].
      split; [|intros body' H; destruct (N403 _ H)].
      destruct body as [data|[|e]|]; reflexivity. }
  assert (Hx : Forall (fun e => forall u, e <> unrecognized_warning fn u)
                      [fn ++ txt ": Unexpected response format from " ++ url]).
  { apply (Hw (txt "Unexpected response format from ")).
    intros x y E. unfold txt in E. simpl in E. discriminate E. }
  destruct body as [data|[|e]|].
  - destruct (Str.mem (txt "available_credits") data).
    + exists []. split; [apply logs_refl|]. split; [constructor|].
      split; [reflexivity | intros body' H; destruct (N403 _ H)].
    + eexists. split; [apply logs_warning|]. split; [exact Hx|].
      split; [reflexivity | intros body' H; destruct (N403 _ H)].
  - eexists. split; [apply logs_warning|]. split; [exact Hx|].
    split; [reflexivity | intros body' H; destruct (N403 _ H)].
  - exists []. split; [apply logs_refl|]. split; [constructor|].
    split; [reflexivity | intros body' H; destruct (N403 _ H)].
  - eexists. split; [apply logs_warning|]. split.
    + apply (Hw (txt "Invalid JSON response from ")).
      intros x y E. unfold txt in E. simpl in E. discriminate E.
    + split; [reflexivity | intros body' H; destruct (N403 _ H)].
Qed.

(** One URL of the endpoint check: the error it records and the
    exception it raises depend on the URL and the token only; its
    warnings are the one of the structure check followed by warnings that
    are not about an unrecognized pattern. *)
Lemma endpoint_step_logs : forall fn token v s raw,
  auth_token v = token ->
  exists ws,
    logs v (fst (endpoint_step w fn v s raw)) (auth_errors w token fn (clean_url raw)) ws
    /\ url_warnings w token fn (clean_url raw) ws
    /\ raised (snd (endpoint_step w fn v s raw)) = probe_raises w token (clean_url raw).
Proof.
  intros fn token v s raw T. unfold endpoint_step, url_warnings, structure_warnings.
  set (url := clean_url raw).
  destruct (Str.contains (txt "api.lyceum.technology") url) eqn:A; cbn [andb].
  - destruct (structure_logs v url fn) as [L1 R1].
    destruct (validate_lyceum_endpoint_structure v url fn) as [v1 ok1].
    cbn [fst snd] in L1, R1.
    assert (T1 : auth_token v1 = token) by (rewrite (logs_token L1); exact T).
    rewrite (has_token_of v1 T1). fold (tested url).
    unfold auth_errors, probe_raises.
    destruct token as [t|].
    + destruct (Str.nonempty t) eqn:Nt; cbn [andb].
      * destruct (tested url) eqn:Tu.
        -- destruct (@tested_probe v1 url fn t T1 Tu) as (pw & L2 & F & R2 & H3).
           destruct (test_lyceum_endpoint w v1 url fn) as [v2 [ok2|e]];
             cbn [bind fst snd raised] in *.
           ++ eexists. split; [exact (logs_trans L1 L2)|]. split; [|exact R2].
              exists pw. rewrite (tested_matches url Tu). cbn [negb app].
              split; [reflexivity|]. split; [exact F|].
              intros t0 body E _ _ Hq. injection E as <-. exact (H3 body Hq).
           ++ eexists. split; [exact (logs_trans L1 L2)|]. split; [|exact R2].
              exists pw. rewrite (tested_matches url Tu). cbn [negb app].
              split; [reflexivity|]. split; [exact F|].
              intros t0 body E _ _ Hq. injection E as <-. exact (H3 body Hq).
        -- assert (C : Str.eqb url credits_url = false).
           { destruct (Str.eqb url credits_url) eqn:C; [|reflexivity].
             rewrite (credits_is_tested url C) in Tu. discriminate Tu. }
           rewrite C. cbn [fst snd raised]. eexists. split; [exact L1|].
           split; [|reflexivity].
           exists []. rewrite app_nil_r. split; [|split; [constructor|]].
           ++ destruct (matches_expected url); reflexivity.
           ++ intros t0 body _ _ H. discriminate H.
      * cbn [fst snd raised]. eexists. split; [exact L1|]. split; [|reflexivity].
        exists []. rewrite app_nil_r. split; [|split; [constructor|]].
        -- destruct (matches_expected url); reflexivity.
        -- intros t0 body E H. injection E as <-. rewrite Nt in H. discriminate H.
    + cbn [andb fst snd raised]. eexists. split; [exact L1|]. split; [|reflexivity].
      exists []. rewrite app_nil_r. split; [|split; [constructor|]].
      * destruct (matches_expected url); reflexivity.
      * intros t0 body E. discriminate E.
  - assert (Tu : tested url = false).
    { destruct (tested url) eqn:Tu; [|reflexivity].
      rewrite (tested_in_api url Tu) in A. discriminate A. }
    assert (C : Str.eqb url credits_url = false).
    { destruct (Str.eqb url credits_url) eqn:C; [|reflexivity].
      rewrite (credits_is_tested url C) in Tu. discriminate Tu. }
    assert (E0 : auth_errors w token fn url = []).
    { unfold auth_errors. rewrite Tu. destruct token as [t|]; [|reflexivity].
      rewrite andb_false_r. reflexivity. }
    assert (P0 : probe_raises w token url = None).
    { unfold probe_raises. rewrite C. destruct token as [t|]; [|reflexivity].
      rewrite andb_false_r. reflexivity. }
    rewrite E0, P0.
    destruct (Str.mem url test_endpoints).
    + destruct (test_endpoint_logs v url fn) as (pw & L & F).
      destruct (test_endpoint w v url fn) as [v1 ok1]. cbn [fst snd raised] in *.
      exists pw. split; [exact L|]. split; [|reflexivity].
      exists pw. split; [reflexivity|]. split; [exact F|].
      intros t0 body _ _ H. rewrite Tu in H. discriminate H.
    + cbn [fst snd raised]. exists []. split; [apply logs_refl|]. split; [|reflexivity].
      exists []. split; [reflexivity|]. split; [constructor|].
      intros t0 body _ _ H. rewrite Tu in H. discriminate H.
Qed.

Lemma Forall2_map_left : forall (A B C : Type) (f : A -> B) (P : B -> C -> Prop) l l',
  Forall2 (fun a c => P (f a) c) l l' -> Forall2 P (map f l) l'.
Proof.
  intros A B C f P l l' F. induction F; cbn [map]; constructor; assumption.
Qed.

(** validate_api_endpoints, URL by URL. *)
Lemma api_endpoints_logs : forall fn token v content,
  auth_token v = token ->
  exists wss,
    logs v (fst (validate_api_endpoints w v content fn))
      (flat_map (auth_errors w token fn)
         (upto (probe_raises w token) (mentioned_urls content)))
      (concat wss)
    /\ Forall2 (url_warnings w token fn)
         (upto (probe_raises w token) (mentioned_urls content)) wss
    /\ raised (snd (validate_api_endpoints w v content fn))
       = first_stop (probe_raises w token) (mentioned_urls content).
Proof.
  intros fn token v content T. unfold validate_api_endpoints, mentioned_urls.
  rewrite upto_map, first_stop_map.
  destruct (@for_each_logs text bool (endpoint_step w fn) token
              (fun raw => auth_errors w token fn (clean_url raw))
              (fun raw => probe_raises w token (clean_url raw))
              (fun raw ws => url_warnings w token fn (clean_url raw) ws))
    with (l := Re.re_findall url_pattern content) (v := v) (s := true)
    as (wss & L & F & R).
  - intros v0 s0 raw T0. apply endpoint_step_logs. exact T0.
  - exact T.
  - exists wss. split; [|split; [|exact R]].
    + rewrite flat_map_map. exact L.
    + apply Forall2_map_left. exact F.
Qed.

(** ** A file *)

Lemma validate_file_logs : forall v fn content,
  exists ws,
    logs v (fst (validate_file w v fn content))
      (file_errors w (auth_token v) fn content) ws
    /\ snd (validate_file w v fn content)
       = match file_stop w (auth_token v) content with
         | Some e => Raise e
         | None => Done (summary fn content)
         end.
Proof.
  intros v fn content. unfold validate_file, file_errors, file_stop.
  destruct (block_steps_logs content fn (extract_code_blocks content) v
              (Build_results fn 0 0 0 0 0 0)) as (ws1 & L1 & R1).
  pose proof (@block_steps_counts content fn (extract_code_blocks content) v
                (Build_results fn 0 0 0 0 0 0)) as C.
  rewrite first_block_stop in R1.
  destruct (for_each (block_step w content fn) (extract_code_blocks content) v
              (Build_results fn 0 0 0 0 0 0)) as [v1 [res1|e]];
    cbn [bind fst snd raised] in *.
  - rewrite <- R1.
    destruct (curl_commands_logs fn (extract_curl_commands content) v1) as (ws2 & L2).
    set (v2 := fst (validate_curl_commands v1 (extract_curl_commands content) fn)) in *.
    assert (T2 : auth_token v2 = auth_token v).
    { rewrite (logs_token L2). exact (logs_token L1). }
    destruct (@api_endpoints_logs fn (auth_token v) v2 content T2) as (wss & L3 & _ & R3).
    destruct (validate_api_endpoints w v2 content fn) as [v3 [ok|e]];
      cbn [bind fst snd raised] in *.
    + eexists. split.
      * pose proof (logs_trans (logs_trans L1 L2) L3) as L.
        rewrite app_nil_r in L. exact L.
      * rewrite <- R3.
        destruct (C res1 eq_refl) as (C1 & C2 & C3 & C4 & C5 & C6 & C7).
        cbn in C1, C2, C3, C5, C6, C7.
        unfold set_curl_commands, summary.
        rewrite C1, C2, C3, C5, C6, C7. reflexivity.
    + eexists. split.
      * pose proof (logs_trans (logs_trans L1 L2) L3) as L.
        rewrite app_nil_r in L. exact L.
      * rewrite <- R3. reflexivity.
  - rewrite <- R1. eexists. split; [|reflexivity].
    rewrite app_nil_r. exact L1.
Qed.



(** ** A run *)

Lemma file_step_facts : forall v f,
  exists ws,
    errors (file_step w v f) = errors v ++ run_errors w (auth_token v) f
    /\ warnings (file_step w v f) = warnings v ++ ws
    /\ auth_token (file_step w v f) = auth_token v
    /\ validated_examples (file_step w v f)
       = validated_examples v ++ summaries w (auth_token v) [f].
Proof.
  intros v f. unfold file_step, run_errors, summaries, file_failure. cbn [flat_map].
  destruct (read f) as [content|e].
  - destruct (validate_file_logs v (relative f) content) as (ws & (E & W & T & R) & S).
    destruct (validate_file w v (relative f) content) as [v1 [r|e]];
      cbn [fst snd] in *;
      destruct (file_stop w (auth_token v) content) as [e'|]; try discriminate S.
    + injection S as ->. exists ws. cbn. rewrite !app_nil_r, R.
      repeat split; assumption.
    + injection S as ->. exists ws. cbn. rewrite app_nil_r, E, <- app_assoc.
      repeat split; assumption.
  - exists []. cbn. rewrite !app_nil_r. repeat split.
Qed.

Lemma file_steps_facts : forall files v,
  exists ws,
    errors (fold_left (file_step w) files v)
    = errors v ++ flat_map (run_errors w (auth_token v)) files
    /\ warnings (fold_left (file_step w) files v) = warnings v ++ ws
    /\ auth_token (fold_left (file_step w) files v) = auth_token v
    /\ validated_examples (fold_left (file_step w) files v)
       = validated_examples v ++ summaries w (auth_token v) files.
Proof.
  intros files. induction files as [|f files IH]; intro v; cbn [fold_left flat_map].
  - exists []. unfold summaries. cbn. rewrite !app_nil_r. repeat split.
  - destruct (file_step_facts v f) as (ws1 & E1 & W1 & T1 & R1).
    destruct (IH (file_step w v f)) as (ws2 & E2 & W2 & T2 & R2).
    exists (ws1 ++ ws2). rewrite T1 in E2, R2. split; [|split; [|split]].
    + rewrite E2, E1, <- app_assoc. reflexivity.
    + rewrite W2, W1, <- app_assoc. reflexivity.
    + congruence.
    + rewrite R2, R1, <- app_assoc. unfold summaries. cbn [flat_map].
      rewrite app_nil_r. reflexivity.
Qed.

Lemma run_validation_fst : forall v files,
  fst (run_validation w v files) = fold_left (file_step w) files v.
Proof.
  intros v files. unfold run_validation.
  destruct (write_report w (generate_report w (fold_left (file_step w) files v)));
    reflexivity.
Qed.

(** How a run ends: with an exception when the report cannot be
    written, or else with the answer to whether the list of errors is
    empty. *)
Lemma run_validation_snd : forall v files,
  snd (run_validation w v files)
  = match write_report w (generate_report w (fst (run_validation w v files))) with
    | Some e => Raise e
    | None =>
        Done (match errors (fst (run_validation w v files)) with
              | [] => true
              | _ :: _ => false
              end)
    end.
Proof.
  intros v files. rewrite run_validation_fst. unfold run_validation.
  destruct (write_report w (generate_report w (fold_left (file_step w) files v)));
    cbn [snd]; [reflexivity|].
  destruct (errors (fold_left (file_step w) files v)); reflexivity.
Qed.

End RunFacts.
(* ================================================================== *)
(** * Documents made of prose and fences *)

Section Documents.
Import Re Validator Spec Props.

Lemma no_backtick : forall t, existsb is_backtick t = false -> ~ In "`"%char t.
Proof.
  intros t H I. assert (E : existsb is_backtick t = true).
  { apply existsb_exists. exists "`"%char. split; [exact I | reflexivity]. }
  rewrite E in H. discriminate H.
Qed.

Lemma no_backtick_no_blocks : forall t, ~ In "`"%char t -> extract_code_blocks t = [].
Proof.
  intros t H. apply no_blocks. intros (pre & body & post & E). apply H.
  rewrite E. apply in_or_app. right. left. reflexivity.
Qed.

Lemma shift_blocks_at : forall d parts pos,
  map (shift_block d) (blocks_at pos parts) = blocks_at (pos + d) parts.
Proof.
  intros d parts. induction parts as [|[t|tag body] parts IH]; intro pos;
    cbn [blocks_at map]; [reflexivity| |].
  - rewrite IH. f_equal. lia.
  - rewrite map_app, IH. f_equal.
    + destruct (Str.nonempty (Str.strip body)); [|reflexivity].
      cbn [map]. unfold shift_block. cbn. do 2 f_equal. lia.
    + f_equal. lia.
Qed.

(** The blocks that extract_code_blocks finds in a document of
    well-formed parts are the blocks of its fences. *)
Lemma extract_rendered : forall parts pre,
  ~ In "`"%char pre ->
  Forall (fun p => well_formed p = true) parts ->
  extract_code_blocks (pre ++ render parts) = blocks_at (length pre) parts.
Proof.
  induction parts as [|[t|tag body] parts IH]; intros pre Hpre F.
  - cbn [render flat_map blocks_at]. rewrite app_nil_r.
    apply no_backtick_no_blocks. exact Hpre.
  - inversion F as [|? ? Ht F']; subst. cbn [well_formed] in Ht.
    apply negb_true_iff in Ht. apply no_backtick in Ht.
    unfold render. cbn [flat_map render_part blocks_at]. fold (render parts).
    rewrite app_assoc, IH; [rewrite length_app; reflexivity | | exact F'].
    intro I. apply in_app_or in I as [I|I]; [exact (Hpre I) | exact (Ht I)].
  - inversion F as [|? ? Hf F']; subst. cbn [well_formed] in Hf.
    apply andb_true_iff in Hf as [Hf Hhead].
    apply andb_true_iff in Hf as [Htag Hbody].
    apply negb_true_iff in Hbody. apply no_backtick in Hbody.
    assert (Ftag : Forall (fun a => is_word a = true) tag).
    { apply Forall_forall. intros a Ha.
      rewrite forallb_forall in Htag. exact (Htag a Ha). }
    assert (Hh : forall x t, body = x :: t -> is_word x = false).
    { intros x t E. subst body. apply negb_true_iff in Hhead. exact Hhead. }
    unfold render. cbn [flat_map render_part blocks_at]. fold (render parts).
    rewrite <- !app_assoc.
    rewrite (@extract_code_blocks_step pre tag body (render parts) Hpre Ftag Hbody Hh).
    f_equal.
    + unfold block_of_match, group_or_empty, group. cbn [lookup m_caps].
      cbn [Nat.eqb]. rewrite strip_lstrip.
      destruct tag as [|t0 tag']; cbn [lookup Nat.eqb m_start m_end Str.nonempty];
        reflexivity.
    + change (render parts) with ([] ++ render parts).
      rewrite (IH [] (fun I => I) F'), shift_blocks_at. reflexivity.
Qed.

Lemma blocks_of_rendered : forall parts,
  Forall (fun p => well_formed p = true) parts ->
  extract_code_blocks (render parts) = blocks_of parts.
Proof.
  intros parts F. change (render parts) with ([] ++ render parts).
  apply (@extract_rendered parts [] (fun I => I) F).
Qed.

End Documents.
(* ================================================================== *)
(** * The validator: the exit code *)

(** C3, as stated, fails: in a docs directory that cannot be written, a
    run over no file ends with an empty error list and exit code 1,
    because writing validation_report.md raises and nothing catches
    it. *)
Lemma C3_unwritable_report_counterexample :
  Validator.errors (fst (Validator.run_validation Sample.read_only (Validator.init None) []))
  = []
  /\ Validator.main Sample.read_only None [] = (1%Z, Validator.Traceback).
Proof. split; reflexivity. Qed.

(** C3, amended: when the report is written, the exit code of main is 0
    exactly when the error list is empty at the end of run_validation and
    1 otherwise; when writing the report raises, the exit code is 1; and
    however run_validation ended, the warning list has no part in the exit
    code: it only chooses between the two success messages. *)
Theorem C3_exit_code_follows_errors_when_report_is_written :
  forall (w : World) (token : option text) (mdx_files : list mdx_file),
    let v := fst (Validator.run_validation w (Validator.init token) mdx_files) in
    (write_report w (Validator.generate_report w v) = None ->
       (fst (Validator.main w token mdx_files) = 0%Z <-> Validator.errors v = [])
       /\ fst (Validator.main w token mdx_files)
          = match Validator.errors v with
            | [] => 0%Z
            | _ :: _ => 1%Z
            end
       /\ snd (Validator.main w token mdx_files)
          = match Validator.errors v, Validator.warnings v with
            | [], [] => Validator.AllPassed
            | [], _ :: _ => Validator.CompletedWithWarnings
            | _ :: _, _ => Validator.FailedWithErrors
            end)
    /\ (write_report w (Validator.generate_report w v) <> None ->
          Validator.main w token mdx_files = (1%Z, Validator.Traceback))
    /\ (forall ws outcome,
          fst (Validator.conclude (Spec.with_warnings v ws) outcome)
          = fst (Validator.conclude v outcome)).
Proof.
  intros w token mdx_files v. subst v.
  rewrite run_validation_fst.
  unfold Validator.main, Validator.run_validation.
  set (v := fold_left (Validator.file_step w) mdx_files (Validator.init token)).
  split; [|split].
  - intro H. rewrite H. unfold Validator.conclude.
    destruct (Validator.errors v) as [|e es]; cbn [length Nat.eqb negb].
    + repeat split; destruct (Validator.warnings v); reflexivity.
    + repeat split; try reflexivity; discriminate.
  - intro H. destruct (write_report w (Validator.generate_report w v));
      [reflexivity | contradiction].
  - intros ws [success|e]; [|reflexivity]. unfold Validator.conclude.
    destruct success; cbn [negb]; [|reflexivity].
    cbn [Spec.with_warnings Validator.warnings].
    destruct ws, (Validator.warnings v); reflexivity.
Qed.

Lemma C3_exit_code_follows_errors_when_report_is_written_witness :
  let files := [ {| path := txt "docs/api.mdx"; relative := txt "api.mdx";
                    read := Readable (Spec.fenced (txt "json") (txt "{oops}")) |} ] in
  let v := fst (Validator.run_validation Sample.world (Validator.init None) files) in
  Validator.errors v = [txt "api.mdx: Invalid JSON in code block: Expecting value"]
  /\ fst (Validator.main Sample.world None files) = 1%Z.
Proof.
  intros files v.
  destruct (@C3_exit_code_follows_errors_when_report_is_written Sample.world None files)
    as (H & _ & _).
  destruct (H eq_refl) as (_ & E & _).
  split; [vm_compute; reflexivity | rewrite E; vm_compute; reflexivity].
Defined.

(* ================================================================== *)
(** * The validator: JSON blocks *)

(** C2, as stated, fails on two kinds of JSON block.  The text of a blank
    JSON fence does not parse and holds no placeholder, yet nothing is
    recorded for it: extract_code_blocks skips a fence whose body is
    blank.  And a block after one on which json.loads raises something
    other than JSONDecodeError is never looked at: after a block that
    holds an integer of 4301 digits, on which json.loads raises
    ValueError, no entry is recorded for the block that follows. *)
Lemma C2_blank_or_unreached_block_counterexample :
  json_loads Sample.world (Validator.clean_json_code []) = JsonDecodeError (txt "Expecting value")
  /\ Validator.is_template_json [] = false
  /\ Validator.validate_json_examples Sample.world (Validator.init None)
       (Spec.fenced (txt "json") []) (txt "a.mdx")
     = (Validator.init None, Done true)
  /\ json_loads Sample.world (Validator.clean_json_code (txt "{oops}"))
     = JsonDecodeError (txt "Expecting value")
  /\ Validator.is_template_json (txt "{oops}") = false
  /\ fst (Validator.validate_json_examples Sample.world (Validator.init None)
            (Spec.fenced (txt "json") (repeat "1"%char 4301)
               ++ Spec.fenced (txt "json") (txt "{oops}")) (txt "a.mdx"))
     = Validator.init None.
Proof.
  split; [|split; [|split; [|split; [|split]]]]; vm_compute; reflexivity.
Qed.

(** C2, amended: validate_json_examples looks at the blocks of a
    document in their order, up to the first JSON block on which
    json.loads raises something other than JSONDecodeError, which ends
    it with that exception; a fence with a blank body is no block.  For
    every JSON block that it reaches and whose cleaned text makes
    json.loads raise JSONDecodeError, it appends one error when the
    block holds none of the six placeholders and one warning, and no
    error, when it holds one of them; it appends nothing else.  This is
    stated for a document of prose and fences, with the blocks read off
    its fences, and for any document, with the blocks that
    extract_code_blocks finds.  The block with a trailing comma is
    cleaned into a text that parses, and a document made of that block
    records nothing. *)
Theorem C2_json_failure_is_error_or_warning :
  forall (w : World) (v : Validator.validator) (filename : text)
         (parts : list Spec.part),
    Forall (fun p => Spec.well_formed p = true) parts ->
    let reached := Spec.upto (Spec.json_stop w) (Spec.blocks_of parts) in
    let run := Validator.validate_json_examples w v (Spec.render parts) filename in
    Validator.errors (fst run)
    = Validator.errors v ++ flat_map (Spec.json_error_entries w filename) reached
    /\ Validator.warnings (fst run)
       = Validator.warnings v ++ flat_map (Spec.json_warning_entries w filename) reached
    /\ Spec.raised (snd run) = Spec.first_stop (Spec.json_stop w) (Spec.blocks_of parts)
    /\ (forall b e,
          In b reached ->
          Validator.language b = txt "json" ->
          json_loads w (Validator.clean_json_code (Validator.code b)) = JsonDecodeError e ->
          if Validator.is_template_json (Validator.code b)
          then In (filename ++ txt ": Template JSON with placeholders: " ++ e)
                  (Validator.warnings (fst run))
          else In (filename ++ txt ": Invalid JSON in code block: " ++ e)
                  (Validator.errors (fst run)))
    /\ (forall content,
          let found := Spec.upto (Spec.json_stop w)
                         (Validator.extract_code_blocks content) in
          let pass := Validator.validate_json_examples w v content filename in
          Validator.errors (fst pass)
          = Validator.errors v ++ flat_map (Spec.json_error_entries w filename) found
          /\ Validator.warnings (fst pass)
             = Validator.warnings v
                 ++ flat_map (Spec.json_warning_entries w filename) found)
    /\ (forall code,
          Validator.is_template_json code
          = existsb (fun p => Str.contains p code)
              [txt "<token>"; txt "<TOKEN>"; txt "..."; txt "your-"; txt "YOUR_";
               txt "EXAMPLE"])
    /\ Validator.clean_json_code Spec.trailing_comma_block
       = txt "{" ++ [DQUOTE] ++ txt "a" ++ [DQUOTE] ++ txt ": 1}"
    /\ (json_loads w (txt "{" ++ [DQUOTE] ++ txt "a" ++ [DQUOTE] ++ txt ": 1}") = JsonValue ->
        Validator.validate_json_examples w v
          (Spec.fenced (txt "json") Spec.trailing_comma_block) filename
        = (v, Done true)).
Proof.
  intros w v filename parts F reached run. subst reached run.
  destruct (json_pass_logs w v (Spec.render parts) filename) as [(E & W & _) R].
  rewrite (blocks_of_rendered F) in E, W, R.
  split; [exact E|]. split; [exact W|]. split; [exact R|].
  split; [|split; [|split; [|split]]].
  - intros b e Hb Hl He.
    assert (J : Spec.is_json_block b = true).
    { unfold Spec.is_json_block. rewrite Hl. apply eqb_refl. }
    destruct (Validator.is_template_json (Validator.code b)) eqn:Tp.
    + rewrite W. apply in_or_app. right. apply in_flat_map. exists b.
      split; [exact Hb|]. unfold Spec.json_warning_entries. rewrite J, He, Tp.
      left. reflexivity.
    + rewrite E. apply in_or_app. right. apply in_flat_map. exists b.
      split; [exact Hb|]. unfold Spec.json_error_entries. rewrite J, He, Tp.
      left. reflexivity.
  - intros content found pass. subst found pass.
    destruct (json_pass_logs w v content filename) as [(E' & W' & _) _].
    split; [exact E' | exact W'].
  - intro code. reflexivity.
  - vm_compute. reflexivity.
  - intro Hok. unfold Validator.validate_json_examples.
    replace (Validator.extract_code_blocks
               (Spec.fenced (txt "json") Spec.trailing_comma_block))
      with [ {| Validator.language := txt "json";
                Validator.code := Spec.trailing_comma_block;
                Validator.start_pos := 0; Validator.end_pos := 21 |} ]
      by (vm_compute; reflexivity).
    cbn [Validator.for_each]. unfold Validator.json_step.
    cbn [Validator.language Validator.code].
    change (Str.eqb (txt "json") (txt "json")) with true. cbv iota.
    replace (Validator.clean_json_code Spec.trailing_comma_block)
      with (txt "{" ++ [DQUOTE] ++ txt "a" ++ [DQUOTE] ++ txt ": 1}")
      by (vm_compute; reflexivity).
    rewrite Hok. reflexivity.
Qed.

Lemma C2_json_failure_is_error_or_warning_witness :
  let parts := [ Spec.Prose (txt "Request:" ++ [LF]);
                 Spec.Fence (txt "json") ([LF] ++ txt "{oops}" ++ [LF]);
                 Spec.Prose ([LF] ++ txt "Template:" ++ [LF]);
                 Spec.Fence (txt "json") ([LF] ++ txt "{<TOKEN>,}" ++ [LF]);
                 Spec.Fence (txt "json") ([LF] ++ Spec.trailing_comma_block ++ [LF]) ] in
  let run := Validator.validate_json_examples Sample.world (Validator.init None)
               (Spec.render parts) (txt "a.mdx") in
  Validator.errors (fst run) = [txt "a.mdx: Invalid JSON in code block: Expecting value"]
  /\ Validator.warnings (fst run)
     = [txt "a.mdx: Template JSON with placeholders: Expecting value"]
  /\ snd run = Done false.
Proof.
  intros parts run.
  assert (F : Forall (fun p => Spec.well_formed p = true) parts)
    by (repeat constructor).
  destruct (@C2_json_failure_is_error_or_warning Sample.world (Validator.init None)
              (txt "a.mdx") parts F) as (E & W & _).
  subst run. split; [|split].
  - rewrite E. vm_compute. reflexivity.
  - rewrite W. vm_compute. reflexivity.
  - vm_compute. reflexivity.
Defined.
(* ================================================================== *)
(** * The validator: counting entries *)

Section CountFacts.
Import Validator Spec Props.
Variable w : World.

Lemma unrecognized_eqb : forall fn u url,
  Str.eqb (unrecognized_warning fn u) (unrecognized_warning fn url) = Str.eqb u url.
Proof.
  intros fn u url. destruct (Str.eqb u url) eqn:E.
  - apply eqb_eq in E. subst url. apply eqb_refl.
  - destruct (Str.eqb (unrecognized_warning fn u) (unrecognized_warning fn url)) eqn:E';
      [|reflexivity].
    apply eqb_eq in E'. unfold unrecognized_warning in E'.
    apply app_inv_head in E'. apply app_inv_head in E'. subst url.
    rewrite eqb_refl in E. discriminate E.
Qed.

Lemma count_unrecognized : forall token fn u url ws,
  url_warnings w token fn url ws ->
  count_if (Str.eqb (unrecognized_warning fn u)) ws
  = if Str.contains (txt "api.lyceum.technology") url && negb (matches_expected url)
       && Str.eqb u url
    then 1 else 0.
Proof.
  intros token fn u url ws (pw & -> & F & _). rewrite count_if_app.
  rewrite (@count_if_none (Str.eqb (unrecognized_warning fn u))
             (fun e => forall u', e <> unrecognized_warning fn u') pw); [| |exact F].
  2:{ intros e He. destruct (Str.eqb (unrecognized_warning fn u) e) eqn:E; [|reflexivity].
      apply eqb_eq in E. exfalso. exact (He u (eq_sym E)). }
  unfold structure_warnings.
  destruct (Str.contains (txt "api.lyceum.technology") url && negb (matches_expected url));
    cbn [andb]; [|reflexivity].
  unfold count_if. cbn [filter]. rewrite unrecognized_eqb.
  destruct (Str.eqb u url); reflexivity.
Qed.

Lemma list_sum_indicator : forall (A : Type) (f : A -> bool) l,
  list_sum (map (fun x => if f x then 1 else 0) l) = length (filter f l).
Proof.
  intros A f l. unfold list_sum.
  induction l as [|x l IH]; cbn [map fold_right filter]; [reflexivity|].
  rewrite IH. destruct (f x); reflexivity.
Qed.

(** The warnings about an unrecognized pattern that name [u], among the
    warnings of the URLs that the endpoint check reaches. *)
Lemma count_unrecognized_all : forall token fn u urls wss,
  Forall2 (url_warnings w token fn) urls wss ->
  count_if (Str.eqb (unrecognized_warning fn u)) (concat wss)
  = length (filter (fun url => Str.contains (txt "api.lyceum.technology") url
                               && negb (matches_expected url) && Str.eqb u url) urls).
Proof.
  intros token fn u urls wss F. rewrite <- list_sum_indicator.
  apply count_concat. eapply Forall2_weaken; [|exact F].
  intros url ws _ H. exact (@count_unrecognized token fn u url ws H).
Qed.

Lemma filter_none : forall (A : Type) (l : list A),
  length (filter (fun _ => false) l) = 0.
Proof. intros A l. induction l as [|x l IH]; [reflexivity | exact IH]. Qed.

Lemma flat_map_nil : forall (A B : Type) (f : A -> list B) l,
  (forall x, f x = []) -> flat_map f l = [].
Proof.
  intros A B f l H. induction l as [|x l IH]; cbn [flat_map]; [reflexivity|].
  rewrite (H x), IH. reflexivity.
Qed.










End CountFacts.

(* ================================================================== *)
(** * The validator: endpoints *)

(** C5, as stated, fails when the endpoint check is left before it
    reaches the URL: with a token, after a mention of the credits endpoint
    whose probe is answered 200 with the JSON body 5, the test for
    available_credits raises TypeError, and the one mention of the URL
    with the unknown path gets no warning. *)
Lemma C5_probe_raises_counterexample :
  let content := Spec.credits_url ++ txt " and " ++ Spec.unknown_url in
  let run := Validator.validate_api_endpoints Sample.world_of_fives
               (Validator.init (Some (txt "secret"))) content (txt "a.mdx") in
  Spec.count_if (Str.eqb Spec.unknown_url) (Spec.mentioned_urls content) = 1
  /\ Validator.warnings (fst run) = []
  /\ snd run = Raise (txt "argument of type 'int' is not iterable").
Proof.
  cbv zeta. split; [|split]; vm_compute; reflexivity.
Qed.

(** C5, amended: the endpoint check records no warning about an
    unrecognized pattern for the storage upload endpoint, and its step
    at that URL records nothing at all; when no probe raises (no token,
    or no 200 answer of the credits endpoint on which the look-up of
    available_credits raises TypeError), a document that mentions the URL
    with the unknown path exactly once gets exactly one warning about an
    unrecognized endpoint pattern for it; and for every URL of the API
    domain whose path has none of the known shapes, the structure check
    leaves the error list alone, appends that one warning and returns
    true. *)
Theorem C5_endpoint_shape_is_a_warning :
  forall (w : World) (v : Validator.validator) (filename content : text),
    let run := Validator.validate_api_endpoints w v content filename in
    exists ws,
      Validator.warnings (fst run) = Validator.warnings v ++ ws
      /\ Spec.count_if (Str.eqb (Spec.unrecognized_warning filename Spec.upload_url)) ws = 0
      /\ (forall ok raw,
            Validator.clean_url raw = Spec.upload_url ->
            Validator.endpoint_step w filename v ok raw = (v, Done ok))
      /\ (Spec.probes_return w (Validator.auth_token v) content ->
          Spec.count_if (Str.eqb Spec.unknown_url) (Spec.mentioned_urls content) = 1 ->
          Spec.count_if (Str.eqb (Spec.unrecognized_warning filename Spec.unknown_url)) ws
          = 1)
      /\ (forall url,
            Str.contains (txt "api.lyceum.technology") url = true ->
            Validator.matches_expected url = false ->
            let check := Validator.validate_lyceum_endpoint_structure v url filename in
            Validator.errors (fst check) = Validator.errors v
            /\ Validator.warnings (fst check)
               = Validator.warnings v ++ [Spec.unrecognized_warning filename url]
            /\ snd check = true).
Proof.
  intros w v filename content run. subst run.
  destruct (@api_endpoints_logs w filename (Validator.auth_token v) v content eq_refl)
    as (wss & (_ & W & _) & F & _).
  exists (concat wss). split; [exact W|]. split; [|split; [|split]].
  - rewrite (@count_unrecognized_all w _ filename _ _ _ F).
    rewrite (@filter_ext _ _ (fun _ => false)).
    + apply filter_none.
    + intro url. destruct (Str.eqb Spec.upload_url url) eqn:E;
        [|apply andb_false_r].
      apply eqb_eq in E. subst url. reflexivity.
  - intros ok raw H. unfold Validator.endpoint_step. rewrite H.
    change (Str.contains (txt "api.lyceum.technology") Spec.upload_url) with true.
    cbv iota. unfold Validator.validate_lyceum_endpoint_structure.
    change (Validator.matches_expected Spec.upload_url) with true. cbv iota.
    change (Str.mem Spec.upload_url Validator.lyceum_test_endpoints) with false.
    rewrite andb_false_r, andb_true_r. reflexivity.
  - intros P C. rewrite (@count_unrecognized_all w _ filename _ _ _ F).
    destruct (@upto_all _ _ _ P) as [U _]. rewrite U.
    rewrite (@filter_ext _ _ (Str.eqb Spec.unknown_url)); [exact C|].
    intro url. destruct (Str.eqb Spec.unknown_url url) eqn:E;
      [|apply andb_false_r].
    apply eqb_eq in E. subst url. reflexivity.
  - intros url A M check. subst check.
    unfold Validator.validate_lyceum_endpoint_structure. rewrite M.
    repeat split.
Qed.

Lemma C5_endpoint_shape_is_a_warning_witness :
  let content := txt "Upload with " ++ Spec.upload_url ++ txt ", see ("
                   ++ Spec.unknown_url ++ txt ")." in
  let run := Validator.validate_api_endpoints Sample.world (Validator.init None) content
               (txt "storage.mdx") in
  exists ws,
    Validator.warnings (fst run) = Validator.warnings (Validator.init None) ++ ws
    /\ Spec.count_if
         (Str.eqb (Spec.unrecognized_warning (txt "storage.mdx") Spec.unknown_url)) ws
       = 1.
Proof.
  intros content run.
  destruct (@C5_endpoint_shape_is_a_warning Sample.world (Validator.init None)
              (txt "storage.mdx") content) as (ws & W & _ & _ & H & _).
  exists ws. split; [exact W|]. apply H.
  - apply Forall_forall. intros url _. reflexivity.
  - vm_compute. reflexivity.
Defined.
Section RejectedToken.
Import Validator Spec Props.
Variable w : World.


End RejectedToken.



(* ================================================================== *)
(** * The validator: how often a JSON error is recorded *)




(** Two JSON blocks, one of them broken: its error is recorded twice. *)
Example json_error_recorded_twice :
  map string_of_list_ascii
    (Validator.errors
       (fst (Validator.validate_file Sample.world (Validator.init None) (txt "api.mdx")
               (Spec.fenced (txt "json") (txt "{oops}")
                  ++ Spec.fenced (txt "json") (txt "[1, 2]")))))
  = [ "api.mdx: Invalid JSON in code block: Expecting value"%string;
      "api.mdx: Invalid JSON in code block: Expecting value"%string ].
Proof. vm_compute. reflexivity. Qed.
(* ================================================================== *)
(** * What a run records *)

Section NoAuthErrors.
Import Validator Spec Props.
Variable w : World.

Lemma auth_errors_need_token_and_401 : forall v fn url,
  has_token v = false \/ never_401 w ->
  auth_errors w (auth_token v) fn url = [].
Proof.
  intros v fn url H. unfold auth_errors, has_token in *.
  destruct (auth_token v) as [t|]; [|reflexivity].
  destruct (Str.nonempty t) eqn:Nt; cbn [andb]; [|reflexivity].
  destruct (tested url); [|reflexivity].
  destruct (requests w GET url (Some t)) as [status body|e] eqn:Rq; [|reflexivity].
  destruct (status =? 401)%Z eqn:S1; [|reflexivity].
  destruct H as [H|H]; [discriminate H|].
  apply Z.eqb_eq in S1. exfalso. exact (H _ _ _ _ _ Rq S1).
Qed.

End NoAuthErrors.

(** X13: how validate_json_examples ends.  When it returns, it returns
    True exactly when it recorded no error; when it raises, some JSON
    block of the document makes json.loads raise that exception, which is
    not a JSONDecodeError. *)
Theorem X13_json_check_fails_iff_it_records_an_error : forall w v content fn,
  match snd (Validator.validate_json_examples w v content fn) with
  | Done ok =>
      ok = true
      <-> Validator.errors (fst (Validator.validate_json_examples w v content fn))
          = Validator.errors v
  | Raise e =>
      exists b,
        In b (Validator.extract_code_blocks content)
        /\ Validator.language b = txt "json"
        /\ json_loads w (Validator.clean_json_code (Validator.code b)) = JsonOtherError e
  end.
Proof.
  intros w v content fn.
  destruct (json_pass_logs w v content fn) as [(E & _) R].
  pose proof (@json_steps_flag w fn (Validator.extract_code_blocks content) v true) as G.
  unfold Validator.validate_json_examples in *.
  destruct (snd (Validator.for_each (Validator.json_step w fn)
                   (Validator.extract_code_blocks content) v true)) as [ok|e];
    cbn [Spec.raised] in R.
  - symmetry in R. apply first_stop_none in R.
    rewrite (proj1 (@upto_all _ _ _ R)) in E.
    rewrite E, (G ok eq_refl), andb_true_l, <- (@json_entries_nil w fn). split.
    + intros ->. apply app_nil_r.
    + intro H. rewrite <- (app_nil_r (Validator.errors v)) in H at 2.
      apply app_inv_head in H. exact H.
  - symmetry in R. apply first_stop_some in R as (b & Hb & Sb).
    exists b. split; [exact Hb|]. unfold Spec.json_stop, Spec.is_json_block in Sb.
    destruct (Str.eqb (Validator.language b) (txt "json")) eqn:L; [|discriminate Sb].
    apply eqb_eq in L. split; [exact L|].
    destruct (json_loads w (Validator.clean_json_code (Validator.code b)));
      try discriminate Sb. injection Sb as ->. reflexivity.
Qed.



(** X15: the endpoint check records an error only when a token is set
    and a request is answered 401: without a token, or when no request is
    answered 401, validate_api_endpoints leaves the list of errors as it
    is. *)
Theorem X15_endpoint_errors_need_token_and_401 : forall w v content fn,
  Validator.has_token v = false \/ Props.never_401 w ->
  Validator.errors (fst (Validator.validate_api_endpoints w v content fn))
  = Validator.errors v.
Proof.
  intros w v content fn H.
  destruct (@api_endpoints_logs w fn (Validator.auth_token v) v content eq_refl)
    as (wss & (E & _) & _).
  rewrite E, flat_map_nil; [apply app_nil_r|].
  intro url. apply auth_errors_need_token_and_401. exact H.
Qed.

Lemma X15_endpoint_errors_need_token_and_401_witness :
  Validator.errors
    (fst (Validator.validate_api_endpoints Sample.world (Validator.init None)
            (txt "see " ++ Spec.credits_url ++ txt " for credits") (txt "guide.mdx")))
  = Validator.errors (Validator.init None).
Proof.
  apply (@X15_endpoint_errors_need_token_and_401 Sample.world (Validator.init None)
           (txt "see " ++ Spec.credits_url ++ txt " for credits") (txt "guide.mdx")).
  left. reflexivity.
Defined.

(** X16: the errors of a file.  validate_file adds to the list of errors
    exactly: the errors of the blocks it reaches, in the order of the
    blocks (for a Python block those of the two Python checks, for a JSON
    block the JSON errors of one more pass over the document, as far as
    that pass gets before json.loads raises something other than
    JSONDecodeError, for any other block none); and, when no such
    exception leaves the loop over the blocks, one error for every
    mention of a tested endpoint whose probe, sent because a token is
    set, is answered 401, up to the first probe that raises.  The curl
    check adds none. *)
Theorem X16_errors_of_a_file : forall w v fn content,
  Validator.errors (fst (Validator.validate_file w v fn content))
  = Validator.errors v ++ Props.file_errors w (Validator.auth_token v) fn content.
Proof.
  intros w v fn content.
  destruct (validate_file_logs w v fn content) as (ws & (E & _) & _). exact E.
Qed.

(** X17: the counters that validate_file returns depend on the content of
    the file only: python_blocks and json_blocks count the blocks tagged
    python and json, curl_commands is the number of extracted commands,
    and api_endpoints, errors and warnings are always 0, whatever the
    checks found.  It returns them unless json.loads raises something
    other than JSONDecodeError on a JSON block or a probe raises
    TypeError; then it raises the first of these exceptions. *)
Theorem X17_counters_of_a_file : forall w v fn content,
  snd (Validator.validate_file w v fn content)
  = match Props.file_stop w (Validator.auth_token v) content with
    | Some e => Raise e
    | None => Done (Props.summary fn content)
    end.
Proof.
  intros w v fn content.
  destruct (validate_file_logs w v fn content) as (ws & _ & S). exact S.
Qed.

(** X18: run_validation appends one result for every file that is read
    and validated without an exception, in the order of the files, and
    none for a file that cannot be read or whose validation raises. *)
Theorem X18_one_result_per_validated_file : forall w v files,
  Validator.validated_examples (fst (Validator.run_validation w v files))
  = Validator.validated_examples v
      ++ Props.summaries w (Validator.auth_token v) files.
Proof.
  intros w v files. rewrite run_validation_fst.
  destruct (file_steps_facts w files v) as (ws & _ & _ & _ & R). exact R.
Qed.

(** X19: a file that cannot be read does not stop the run: its failure is
    recorded among the errors, under its path and with the text of the
    exception, and the run does not return True: it returns False when
    the report is written, and raises when it is not. *)
Theorem X19_unreadable_file_fails_the_run : forall w v files f e,
  In f files ->
  read f = Unreadable e ->
  In (txt "Failed to validate " ++ path f ++ txt ": " ++ e)
     (Validator.errors (fst (Validator.run_validation w v files)))
  /\ snd (Validator.run_validation w v files) <> Done true
  /\ (write_report w (Validator.generate_report w (fst (Validator.run_validation w v files)))
      = None ->
      snd (Validator.run_validation w v files) = Done false).
Proof.
  intros w v files f e Hin Hr.
  assert (I : In (txt "Failed to validate " ++ path f ++ txt ": " ++ e)
                 (Validator.errors (fst (Validator.run_validation w v files)))).
  { rewrite run_validation_fst.
    destruct (file_steps_facts w files v) as (ws & E & _). rewrite E.
    apply in_or_app. right. apply in_flat_map. exists f. split; [exact Hin|].
    unfold Props.run_errors, Props.file_failure. rewrite Hr. left. reflexivity. }
  split; [exact I|]. rewrite run_validation_snd.
  destruct (Validator.errors (fst (Validator.run_validation w v files)));
    [destruct I|].
  destruct (write_report w
              (Validator.generate_report w (fst (Validator.run_validation w v files))));
    split; try discriminate; reflexivity.
Qed.

Lemma X19_unreadable_file_fails_the_run_witness :
  let f := {| path := txt "docs/broken.mdx"; relative := txt "broken.mdx";
              read := Unreadable (txt "'utf-8' codec can't decode byte 0xff") |} in
  let g := {| path := txt "docs/guide.mdx"; relative := txt "guide.mdx";
              read := Readable (txt "Nothing to check.") |} in
  In (txt "Failed to validate docs/broken.mdx: 'utf-8' codec can't decode byte 0xff")
     (Validator.errors
        (fst (Validator.run_validation Sample.world (Validator.init None) [f; g])))
  /\ snd (Validator.run_validation Sample.world (Validator.init None) [f; g]) = Done false.
Proof.
  intros f g.
  destruct (@X19_unreadable_file_fails_the_run Sample.world (Validator.init None)
              [f; g] f (txt "'utf-8' codec can't decode byte 0xff"))
    as (H1 & _ & H3).
  - left. reflexivity.
  - reflexivity.
  - split; [exact H1 | exact (H3 eq_refl)].
Defined.

(** X25: the errors of a run.  run_validation adds to the list of errors
    exactly, file by file in the order of the files: for a file that
    cannot be read, the entry that names its path and the exception; for
    a readable file, the errors that validate_file records and, when
    validate_file raises, the entry that names the path of the file and
    that exception. *)
Theorem X25_errors_of_a_run : forall w v files,
  Validator.errors (fst (Validator.run_validation w v files))
  = Validator.errors v ++ flat_map (Props.run_errors w (Validator.auth_token v)) files.
Proof.
  intros w v files. rewrite run_validation_fst.
  destruct (file_steps_facts w files v) as (ws & E & _). exact E.
Qed.

(** X27: the blocks of a whole document.  In a document made of prose
    without back-ticks and of fences whose tag is made of word characters
    and whose body holds no back-tick and does not go on with a word
    character, extract_code_blocks finds exactly one block for each fence
    with a body that is not blank, in the order of the fences: its
    language is the tag (text when there is none), its code the body
    without surrounding whitespace, its positions those of the fence in
    the document. *)
Theorem X27_blocks_of_a_document : forall parts,
  Forall (fun p => Spec.well_formed p = true) parts ->
  Validator.extract_code_blocks (Spec.render parts) = Spec.blocks_of parts.
Proof. intros parts F. apply blocks_of_rendered. exact F. Qed.

Lemma X27_blocks_of_a_document_witness :
  Validator.extract_code_blocks
    (Spec.render [ Spec.Prose (txt "Install:" ++ [LF]);
                   Spec.Fence (txt "bash") ([LF] ++ txt "pip install lyceum" ++ [LF]);
                   Spec.Fence [] [LF];
                   Spec.Prose ([LF] ++ txt "Then:" ++ [LF]);
                   Spec.Fence [] ([LF] ++ txt "lyceum run" ++ [LF]) ])
  = [ {| Validator.language := txt "bash"; Validator.code := txt "pip install lyceum";
         Validator.start_pos := 9; Validator.end_pos := 39 |};
      {| Validator.language := txt "text"; Validator.code := txt "lyceum run";
         Validator.start_pos := 53; Validator.end_pos := 71 |} ].
Proof.
  apply (@X27_blocks_of_a_document
           [ Spec.Prose (txt "Install:" ++ [LF]);
             Spec.Fence (txt "bash") ([LF] ++ txt "pip install lyceum" ++ [LF]);
             Spec.Fence [] [LF];
             Spec.Prose ([LF] ++ txt "Then:" ++ [LF]);
             Spec.Fence [] ([LF] ++ txt "lyceum run" ++ [LF]) ]).
  repeat constructor.
Defined.

(** X28: an exception that json.loads raises on a JSON block and that is
    not a JSONDecodeError fails the file: the run records that it failed
    to validate the file, with the text of the exception, appends no
    result for it, goes on with the next files, and does not return
    True: it returns False when the report is written. *)
Theorem X28_uncaught_json_exception_fails_the_file : forall w v files f content e,
  In f files ->
  read f = Readable content ->
  Spec.first_stop (Spec.json_stop w) (Validator.extract_code_blocks content) = Some e ->
  In (txt "Failed to validate " ++ path f ++ txt ": " ++ e)
     (Validator.errors (fst (Validator.run_validation w v files)))
  /\ (forall v', Validator.validated_examples (Validator.file_step w v' f)
                  = Validator.validated_examples v')
  /\ length (Validator.validated_examples (fst (Validator.run_validation w v files)))
     < length (Validator.validated_examples v) + length files
  /\ snd (Validator.run_validation w v files) <> Done true
  /\ (write_report w (Validator.generate_report w (fst (Validator.run_validation w v files)))
      = None ->
      snd (Validator.run_validation w v files) = Done false).
Proof.
  intros w v files f content e Hin Hr Hs.
  assert (Ff : Props.file_failure w (Validator.auth_token v) f = Some e).
  { unfold Props.file_failure, Props.file_stop. rewrite Hr, Hs. reflexivity. }
  assert (I : In (txt "Failed to validate " ++ path f ++ txt ": " ++ e)
                 (Validator.errors (fst (Validator.run_validation w v files)))).
  { rewrite run_validation_fst.
    destruct (file_steps_facts w files v) as (ws & E & _). rewrite E.
    apply in_or_app. right. apply in_flat_map. exists f. split; [exact Hin|].
    unfold Props.run_errors. rewrite Ff. apply in_or_app. right. left. reflexivity. }
  split; [exact I|]. split; [|split].
  - intro v'. destruct (file_step_facts w v' f) as (ws & _ & _ & _ & R). rewrite R.
    unfold Props.summaries, Props.file_failure, Props.file_stop. cbn [flat_map].
    rewrite Hr, Hs. apply app_nil_r.
  - rewrite run_validation_fst.
    destruct (file_steps_facts w files v) as (ws & _ & _ & _ & R). rewrite R.
    rewrite length_app. apply Nat.add_lt_mono_l.
    clear R I. induction files as [|g files IH]; [destruct Hin|].
    unfold Props.summaries. cbn [flat_map length]. rewrite length_app.
    fold (Props.summaries w (Validator.auth_token v) files).
    assert (L : forall l,
               length (Props.summaries w (Validator.auth_token v) l) <= length l).
    { intro l. induction l as [|h l IHl]; [apply Nat.le_refl|].
      unfold Props.summaries. cbn [flat_map length]. rewrite length_app.
      fold (Props.summaries w (Validator.auth_token v) l).
      destruct (read h); [|simpl; lia].
      destruct (Props.file_failure w (Validator.auth_token v) h); simpl; lia. }
    destruct Hin as [-> | Hin].
    + rewrite Hr, Ff. specialize (L files). simpl. lia.
    + specialize (IH Hin).
      destruct (read g); [|simpl; lia].
      destruct (Props.file_failure w (Validator.auth_token v) g); simpl; lia.
  - rewrite run_validation_snd.
    destruct (Validator.errors (fst (Validator.run_validation w v files)));
      [destruct I|].
    destruct (write_report w
                (Validator.generate_report w (fst (Validator.run_validation w v files))));
      split; try discriminate; reflexivity.
Qed.

Lemma X28_uncaught_json_exception_fails_the_file_witness :
  let f := {| path := txt "docs/big.mdx"; relative := txt "big.mdx";
              read := Readable (Spec.fenced (txt "json") (repeat "1"%char 4301)) |} in
  let run := Validator.run_validation Sample.world (Validator.init None) [f] in
  Validator.validated_examples (fst run) = []
  /\ snd run = Done false.
Proof.
  intros f run.
  destruct (@X28_uncaught_json_exception_fails_the_file Sample.world (Validator.init None)
              [f] f (Spec.fenced (txt "json") (repeat "1"%char 4301))
              (txt "Exceeds the limit (4300 digits) for integer string conversion: "
                 ++ txt "value has 4301 digits; use sys.set_int_max_str_digits() "
                 ++ txt "to increase the limit"))
    as (_ & _ & H3 & _ & H5).
  - left. reflexivity.
  - reflexivity.
  - vm_compute. reflexivity.
  - split; [|exact (H5 eq_refl)].
    cbn [length Validator.init Validator.validated_examples Nat.add] in H3.
    fold run in H3.
    destruct (Validator.validated_examples (fst run)); [reflexivity|].
    simpl in H3. lia.
Defined.
